(** * libsql: typed column system and query view

    A shallow embedding of [sqltypebases.py], [record.py] and [view.py].

    Python classes are objects of a class heap: the identity of a class is
    its index in the heap, its attributes live in a namespace dictionary and
    are resolved along the method resolution order computed by Python's C3
    linearisation when the class is created.  The functions decorated with
    [functools.lru_cache] keep their cache (at most 128 entries, least
    recently used entry evicted first) in the world state. *)

From stdpp Require Import base decidable option list strings gmap pretty.
From Stdlib Require Import ZArith Lia Ascii.

Local Open Scope string_scope.
Local Open Scope list_scope.
Local Open Scope nat_scope.

(** ** Python values, exceptions and results *)

Abbreviation cid := nat.

Inductive pyval :=
  | VNone
  | VBool (b : bool)
  | VInt (z : Z)
  | VStr (s : string)
  | VClass (c : cid)
  | VStrTuple (l : list string).

#[global] Instance pyval_eq_dec : EqDecision pyval.
Proof. solve_decision. Defined.

(** Truth value of an object, as [if v:], [v or w] and [not v] test it. *)
Definition truthy (v : pyval) : bool :=
  match v with
  | VNone => false
  | VBool b => b
  | VInt z => negb (Z.eqb z 0)
  | VStr s => negb (String.eqb s "")
  | VClass _ => true
  | VStrTuple l => match l with [] => false | _ => true end
  end.

Inductive exn :=
  | AssertionError
  | AttributeError
  | TypeError (msg : string)
  | RuntimeError (msg : string)
  | RecursionError
  | DuplicateTableName (name : string).

#[global] Instance exn_eq_dec : EqDecision exn.
Proof. solve_decision. Defined.

Inductive result (A : Type) :=
  | Ok (a : A)
  | Raise (e : exn).
Arguments Ok {A} a.
Arguments Raise {A} e.

#[global] Instance result_eq_dec {A} `{EqDecision A} : EqDecision (result A).
Proof. solve_decision. Defined.

Definition is_ok {A} (r : result A) : bool :=
  match r with Ok _ => true | Raise _ => false end.

(** A type expression as it appears in an annotation or as the argument of
    a subscription: a class, or an object of the [typing] module.  The
    arguments of a [typing.Union] are never unions themselves ([typing]
    flattens them); [typing.Optional[X]] is [TUnion [AClass X; AClass NoneType]]. *)
Inductive tparg :=
  | AClass (c : cid)
  | AGeneric (origin : cid).

Inductive pytype :=
  | TClass (c : cid)
  | TUnion (args : list tparg)
  | TGenericAlias (origin : cid).

#[global] Instance tparg_eq_dec : EqDecision tparg.
Proof. solve_decision. Defined.

#[global] Instance pytype_eq_dec : EqDecision pytype.
Proof. solve_decision. Defined.

Definition pytype_of_arg (a : tparg) : pytype :=
  match a with
  | AClass c => TClass c
  | AGeneric o => TGenericAlias o
  end.

(** ** Classes and the class heap *)

(** A class object.  [cls_ns] is the namespace the class body (or
    [types.new_class]) gave it, in order; [cls_mro] is computed when the
    class is created and, like name and bases, never changes afterwards. *)
Record pyclass := PyClass {
  cls_name : string;
  cls_bases : list cid;
  cls_mro : list cid;
  cls_ns : list (string * pyval);
  cls_annotations : list (string * pytype)
}.

#[global] Instance pyclass_eq_dec : EqDecision pyclass.
Proof. solve_decision. Defined.

Abbreviation class_heap := (list pyclass).

Fixpoint assoc {A : Type} (name : string) (l : list (string * A)) : option A :=
  match l with
  | [] => None
  | (k, v) :: rest => if String.eqb k name then Some v else assoc name rest
  end.

Definition mro_of (h : class_heap) (c : cid) : list cid :=
  match h !! c with Some k => cls_mro k | None => [] end.

Definition name_of (h : class_heap) (c : cid) : string :=
  match h !! c with Some k => cls_name k | None => "" end.

(** [issubclass(c, b)] for classes. *)
Definition issubclass (h : class_heap) (c b : cid) : bool :=
  bool_decide (b ∈ mro_of h c).

(** [is_child_class(target, base)] of the source. *)
Definition is_child_class (h : class_heap) (target base : cid) : bool :=
  issubclass h target base && negb (bool_decide (target = base)).

(** *** C3 linearisation

    The merge of Python's MRO computation: repeatedly take the first head
    that occurs in the tail of no sequence. *)
Module C3.

Definition in_some_tail (cand : cid) (seqs : list (list cid)) : bool :=
  existsb (λ s, bool_decide (cand ∈ tail s)) seqs.

Fixpoint find_cand (seqs nonemptyseqs : list (list cid)) : option cid :=
  match seqs with
  | [] => None
  | seq :: rest =>
      match seq with
      | [] => find_cand rest nonemptyseqs
      | cand :: _ =>
          if in_some_tail cand nonemptyseqs
          then find_cand rest nonemptyseqs
          else Some cand
      end
  end.

Definition drop_head (cand : cid) (seq : list cid) : list cid :=
  match seq with
  | h :: t => if decide (h = cand) then t else seq
  | [] => []
  end.

Definition nonempty (seq : list cid) : bool :=
  match seq with [] => false | _ => true end.

Fixpoint merge (fuel : nat) (seqs : list (list cid)) : option (list cid) :=
  match List.filter nonempty seqs with
  | [] => Some []
  | nonemptyseqs =>
      match fuel with
      | 0 => None
      | S fuel' =>
          match find_cand nonemptyseqs nonemptyseqs with
          | None => None
          | Some cand =>
              cons cand <$> merge fuel' (map (drop_head cand) nonemptyseqs)
          end
      end
  end.

(** Every round removes at least one element, so the total length of the
    sequences bounds the number of rounds. *)
Definition fuel_for (seqs : list (list cid)) : nat :=
  S (List.length (concat seqs)).

Definition linearize (self : cid) (bases_mro : list (list cid)) (bases : list cid)
  : option (list cid) :=
  let seqs := bases_mro ++ [bases] in
  cons self <$> merge (fuel_for seqs) seqs.

End C3.

(** Class creation ([class] statement, [types.new_class]): the new class
    gets the next identity; creation fails with [TypeError] on an unknown
    or duplicated base and when the bases have no consistent MRO. *)
Definition object_ : cid := 0.

Definition new_class (name : string) (bases : list cid) (ns : list (string * pyval))
    (ann : list (string * pytype)) (h : class_heap) : result cid * class_heap :=
  let bases := match bases with [] => [object_] | _ => bases end in
  let self := List.length h in
  if negb (forallb (λ b, bool_decide (b < List.length h)) bases) then
    (Raise (TypeError "bases must be types"), h)
  else if negb (bool_decide (NoDup bases)) then
    (Raise (TypeError "duplicate base class"), h)
  else
    match C3.linearize self (map (mro_of h) bases) bases with
    | None => (Raise (TypeError "Cannot create a consistent method resolution order (MRO)"), h)
    | Some mro => (Ok self, h ++ [PyClass name bases mro ns ann])
    end.

(** [str.upper] and [str.lower] on ASCII letters. *)
Definition upper_ascii (a : ascii) : ascii :=
  let n := nat_of_ascii a in
  if (97 <=? n)%nat && (n <=? 122)%nat then ascii_of_nat (n - 32) else a.

Definition lower_ascii (a : ascii) : ascii :=
  let n := nat_of_ascii a in
  if (65 <=? n)%nat && (n <=? 90)%nat then ascii_of_nat (n + 32) else a.

Fixpoint upper (s : string) : string :=
  match s with
  | EmptyString => EmptyString
  | String a s' => String (upper_ascii a) (upper s')
  end.

Fixpoint lower (s : string) : string :=
  match s with
  | EmptyString => EmptyString
  | String a s' => String (lower_ascii a) (lower s')
  end.

(** [s.split('.')[-1]]: the part after the last dot. *)
Fixpoint last_segment_go (acc s : string) : string :=
  match s with
  | EmptyString => acc
  | String a s' =>
      if Ascii.eqb a "."%char then last_segment_go EmptyString s'
      else last_segment_go (acc +:+ String a EmptyString) s'
  end.

Definition last_segment (s : string) : string := last_segment_go EmptyString s.

(** [sep.join(parts)] *)
Fixpoint join (sep : string) (parts : list string) : string :=
  match parts with
  | [] => ""
  | [p] => p
  | p :: rest => p +:+ sep +:+ join sep rest
  end.

(** ** The least-recently-used cache of [functools.lru_cache]

    [@lru_cache] without arguments keeps at most 128 results.  The cache is
    a list of (key, result) pairs, most recently used first. *)
Module lru.

Definition maxsize : nat := 128.

Section ops.
Context {K V : Type} `{EqDecision K}.

Fixpoint lookup (k : K) (c : list (K * V)) : option V :=
  match c with
  | [] => None
  | (k', v) :: c' => if decide (k' = k) then Some v else lookup k c'
  end.

Fixpoint remove (k : K) (c : list (K * V)) : list (K * V) :=
  match c with
  | [] => []
  | (k', v) :: c' => if decide (k' = k) then c' else (k', v) :: remove k c'
  end.

(** A hit moves the entry to the most recently used position. *)
Definition touch (k : K) (v : V) (c : list (K * V)) : list (K * V) :=
  (k, v) :: remove k c.

(** After a miss the result is stored, unless the call itself stored the
    key meanwhile; a full cache first drops its oldest entry. *)
Definition store (k : K) (v : V) (c : list (K * V)) : list (K * V) :=
  match lookup k c with
  | Some _ => c
  | None =>
      if decide (List.length c < maxsize) then (k, v) :: c
      else (k, v) :: removelast c
  end.

End ops.
End lru.

(** ** The world: class heap, later attribute writes, caches, environment *)

Record world := World {
  heap : class_heap;
  (** attributes assigned to a class after its creation ([cls.name = v]) *)
  attrs : gmap (cid * string) pyval;
  (** the cache of each [__class_getitem__] decorated with [lru_cache]:
      one cache per function, keyed by all arguments, [cls] included *)
  cache_length : list ((cid * Z) * cid);
  cache_decimal : list ((cid * (Z * Z)) * cid);
  cache_values : list ((cid * list string) * cid);
  cache_withtype : list ((cid * cid) * cid);
  cache_fk : list ((cid * cid) * cid);
  (** [SQLTypeEnv.type_aliases] and [SQLTypeEnv.default_not_null] *)
  type_aliases : gmap cid cid;
  default_not_null : bool
}.

Definition set_heap (h : class_heap) (w : world) : world :=
  World h (attrs w) (cache_length w) (cache_decimal w) (cache_values w)
        (cache_withtype w) (cache_fk w) (type_aliases w) (default_not_null w).
Definition set_attrs (a : gmap (cid * string) pyval) (w : world) : world :=
  World (heap w) a (cache_length w) (cache_decimal w) (cache_values w)
        (cache_withtype w) (cache_fk w) (type_aliases w) (default_not_null w).
Definition set_cache_length (c : list ((cid * Z) * cid)) (w : world) : world :=
  World (heap w) (attrs w) c (cache_decimal w) (cache_values w)
        (cache_withtype w) (cache_fk w) (type_aliases w) (default_not_null w).
Definition set_cache_decimal (c : list ((cid * (Z * Z)) * cid)) (w : world) : world :=
  World (heap w) (attrs w) (cache_length w) c (cache_values w)
        (cache_withtype w) (cache_fk w) (type_aliases w) (default_not_null w).
Definition set_cache_values (c : list ((cid * list string) * cid)) (w : world) : world :=
  World (heap w) (attrs w) (cache_length w) (cache_decimal w) c
        (cache_withtype w) (cache_fk w) (type_aliases w) (default_not_null w).
Definition set_cache_withtype (c : list ((cid * cid) * cid)) (w : world) : world :=
  World (heap w) (attrs w) (cache_length w) (cache_decimal w) (cache_values w)
        c (cache_fk w) (type_aliases w) (default_not_null w).
Definition set_cache_fk (c : list ((cid * cid) * cid)) (w : world) : world :=
  World (heap w) (attrs w) (cache_length w) (cache_decimal w) (cache_values w)
        (cache_withtype w) c (type_aliases w) (default_not_null w).
Definition set_type_aliases (m : gmap cid cid) (w : world) : world :=
  World (heap w) (attrs w) (cache_length w) (cache_decimal w) (cache_values w)
        (cache_withtype w) (cache_fk w) m (default_not_null w).

(** Computations that read and write a state and may raise.  The state is
    returned also when an exception is raised: what was written before
    stays written. *)
Definition ST (S A : Type) : Type := S → result A * S.

Definition ret {S A} (a : A) : ST S A := λ s, (Ok a, s).
Definition raise {S A} (e : exn) : ST S A := λ s, (Raise e, s).
Definition bind {S A B} (m : ST S A) (f : A → ST S B) : ST S B :=
  λ s, match m s with
       | (Ok a, s') => f a s'
       | (Raise e, s') => (Raise e, s')
       end.
Definition lift {S A} (r : result A) : ST S A := λ s, (r, s).
Definition gets {S A} (f : S → A) : ST S A := λ s, (Ok (f s), s).
Definition try {S A} (f : S → result A) : ST S A := λ s, (f s, s).
Definition modify {S} (f : S → S) : ST S unit := λ s, (Ok (), f s).

Notation "'let*' x ':=' m 'in' k" := (bind m (λ x, k))
  (at level 10, x pattern, m at level 100, k at level 200).

Abbreviation M := (ST world).

(** The wrapper [lru_cache] puts around a function: a hit returns the
    cached result and refreshes the entry; a miss runs the function and
    stores the result; an exception is not cached. *)
Definition lru_cache {S K V} `{EqDecision K}
    (get : S → list (K * V)) (set : list (K * V) → S → S)
    (f : K → ST S V) : K → ST S V :=
  λ k s,
    match lru.lookup k (get s) with
    | Some v => (Ok v, set (lru.touch k v (get s)) s)
    | None =>
        match f k s with
        | (Ok v, s') => (Ok v, set (lru.store k v (get s')) s')
        | (Raise e, s') => (Raise e, s')
        end
    end.

(** *** Attribute access on classes *)

(** The entry of [name] in the class's own [__dict__]: a later assignment
    shadows the entry of the class body. *)
Definition own_attr (w : world) (c : cid) (name : string) : option pyval :=
  match attrs w !! (c, name) with
  | Some v => Some v
  | None => heap w !! c ≫= λ k, assoc name (cls_ns k)
  end.

(** Attribute lookup on a class: the first class of the MRO whose own
    namespace has the name. *)
Fixpoint mro_lookup (w : world) (name : string) (mro : list cid) : option pyval :=
  match mro with
  | [] => None
  | c :: rest =>
      match own_attr w c name with
      | Some v => Some v
      | None => mro_lookup w name rest
      end
  end.

Definition getattr (w : world) (c : cid) (name : string) : option pyval :=
  mro_lookup w name (mro_of (heap w) c).

(** [cls.name = v] *)
Definition setattr (c : cid) (name : string) (v : pyval) (w : world) : world :=
  set_attrs (<[(c, name) := v]> (attrs w)) w.

(** A [class] statement or a call of [types.new_class]. *)
Definition declare_class (name : string) (bases : list cid)
    (ns : list (string * pyval)) (ann : list (string * pytype)) : M cid :=
  λ w, let '(r, h) := new_class name bases ns ann (heap w) in (r, set_heap h w).

(** ** The classes of the source

    The classes the modules define when they are imported, in the order of
    their [class] statements, after [object] and the built-in types the
    source mentions. *)
Module Cls.
Definition int : cid := 1.
Definition float : cid := 2.
Definition str : cid := 3.
Definition NoneType : cid := 4.
Definition SQLExprType : cid := 5.
Definition DataView : cid := 6.
Definition SQLType : cid := 7.
Definition SQLGenericType : cid := 8.
Definition SQLTypeWithOptionalKey : cid := 9.
Definition SQLTypeWithKey : cid := 10.
Definition SQLTypeWithOptionalLength : cid := 11.
Definition SQLTypeWithLength : cid := 12.
Definition NumericType : cid := 13.
Definition IntegerType : cid := 14.
Definition UnsignedIntegerType : cid := 15.
Definition FloatType : cid := 16.
Definition DecimalType : cid := 17.
Definition DatetimeType : cid := 18.
Definition StringType : cid := 19.
Definition CharType : cid := 20.
Definition TextType : cid := 21.
Definition SQLTypeWithValues : cid := 22.
(** [sqltypebases.Record] *)
Definition BaseRecord : cid := 23.
Definition SQLTypeWithType : cid := 24.
Definition Final : cid := 25.
Definition Int : cid := 26.
Definition Nullable : cid := 27.
Definition NotNull : cid := 28.
Definition PrimaryKey : cid := 29.
Definition ForeignTableKey : cid := 30.
(** [record.Record] and [record.RootRecord] *)
Definition Record : cid := 31.
Definition RootRecord : cid := 32.
End Cls.

(** name, bases, namespace and annotations of each class statement.  The
    annotations are kept for the record classes only: [get_type_hints] is
    never applied to the others. *)
Definition class_statements
  : list (string * list cid * list (string * pyval) * list (string * pytype)) :=
  [ ("int", [], [], []);
    ("float", [], [], []);
    ("str", [], [], []);
    ("NoneType", [], [], []);
    ("SQLExprType", [], [], []);
    ("DataView", [Cls.SQLExprType], [], []);
    ("SQLType", [],
       [("_PY_TYPE_", VNone); ("__TYPE_SQL__", VNone);
        ("_TYPE_HAS_DEFAULT_", VBool true); ("_TYPE_DEFAULT_VALUE_", VNone);
        ("_TYPE_COMMENT_", VNone)], []);
    ("SQLGenericType", [], [], []);
    ("SQLTypeWithOptionalKey", [Cls.SQLGenericType],
       [("_TYPE_HAS_KEY_", VBool false)], []);
    ("SQLTypeWithKey", [Cls.SQLTypeWithOptionalKey], [], []);
    ("SQLTypeWithOptionalLength", [Cls.SQLTypeWithOptionalKey],
       [("_MAX_LEN_", VNone)], []);
    ("SQLTypeWithLength", [Cls.SQLTypeWithOptionalLength; Cls.SQLTypeWithKey], [], []);
    ("NumericType", [Cls.SQLType], [], []);
    ("IntegerType", [Cls.NumericType],
       [("_PY_TYPE_", VClass Cls.int); ("_MIN_VALUE_", VNone); ("_MAX_VALUE_", VNone)], []);
    ("UnsignedIntegerType", [Cls.IntegerType], [("_MIN_VALUE_", VInt 0)], []);
    ("FloatType", [Cls.NumericType], [("_PY_TYPE_", VClass Cls.float)], []);
    ("DecimalType", [Cls.NumericType; Cls.SQLTypeWithKey],
       [("_TYPE_DECI_PREC_", VNone); ("_TYPE_DECI_SCALE_", VNone)], []);
    ("DatetimeType", [Cls.SQLType], [], []);
    ("StringType", [Cls.SQLType],
       [("_PY_TYPE_", VClass Cls.str); ("_MAX_LEN_", VNone)], []);
    ("CharType", [Cls.StringType; Cls.SQLTypeWithLength], [], []);
    ("TextType", [Cls.StringType; Cls.SQLTypeWithOptionalLength], [], []);
    ("SQLTypeWithValues", [Cls.SQLTypeWithKey], [("_TYPE_VALUES_", VNone)], []);
    ("Record", [], [], []);
    ("SQLTypeWithType", [Cls.SQLTypeWithKey],
       [("_TYPE_BASE_", VNone); ("_TYPE_SQL_SUFFIX_", VNone);
        ("_TYPE_ENSURE_NULLABLE_", VBool false)], []);
    ("Final", [], [], []);
    ("Int", [Cls.Final; Cls.IntegerType],
       [("_MIN_VALUE_", VInt (- 2 ^ 31)); ("_MAX_VALUE_", VInt (2 ^ 31 - 1))], []);
    ("Nullable", [Cls.Final; Cls.SQLTypeWithType], [("_TYPE_SQL_SUFFIX_", VStr "")], []);
    ("NotNull", [Cls.Final; Cls.SQLTypeWithType],
       [("_TYPE_SQL_SUFFIX_", VStr " NOT NULL");
        ("_TYPE_HAS_DEFAULT_", VBool false); ("_TYPE_DEFAULT_VALUE_", VNone)], []);
    ("PrimaryKey", [Cls.Final; Cls.SQLTypeWithType],
       [("_TYPE_SQL_SUFFIX_", VStr " PRIMARY KEY");
        ("_TYPE_ENSURE_NULLABLE_", VBool true)], []);
    ("ForeignTableKey", [Cls.Final; Cls.SQLTypeWithType], [], []);
    ("Record", [Cls.BaseRecord], [("__tablename__", VNone)],
       [("_dv", TClass Cls.DataView)]);
    ("RootRecord", [Cls.Record], [("__dbname__", VNone)],
       [("__dbname__", TUnion [AClass Cls.str; AClass Cls.NoneType])]) ].

Definition object_class : pyclass := PyClass "object" [] [object_] [] [].

Definition run_class_statements (stmts : list (string * list cid * list (string * pyval) * list (string * pytype)))
    (h : class_heap) : class_heap :=
  foldl (λ h '(name, bases, ns, ann), (new_class name bases ns ann h).2) h stmts.

Definition init_heap : class_heap :=
  Eval vm_compute in run_class_statements class_statements [object_class].

(** The world right after the modules are imported. *)
Definition init_world : world :=
  World init_heap ∅ [] [] [] [] [] ∅ true.

(** [d[name] = v] on an ordered dictionary. *)
Fixpoint dict_set {A} (name : string) (v : A) (d : list (string * A)) : list (string * A) :=
  match d with
  | [] => [(name, v)]
  | (k, x) :: rest =>
      if String.eqb k name then (k, v) :: rest else (k, x) :: dict_set name v rest
  end.

Definition dict_update {A} (d upd : list (string * A)) : list (string * A) :=
  foldl (λ d '(k, v), dict_set k v d) d upd.

(** ** sqltypebases.py *)

Module SQLType.

(** The methods below are class methods of [SQLType]: on a class that does
    not inherit from it the attribute does not resolve. *)
Definition has_method (w : world) (cls : cid) : bool :=
  issubclass (heap w) cls Cls.SQLType.

(** [cls.__TYPE_SQL__ or cls.__name__.upper()], after the assertion.  Every
    class of the source holds a string or [None] in [__TYPE_SQL__]; the
    model has no result for another kind of object. *)
Definition __type_sql__ (w : world) (cls : cid) : result string :=
  if negb (has_method w cls) then Raise AttributeError
  else if negb (issubclass (heap w) cls Cls.Final) then Raise AssertionError
  else
    match getattr w cls "__TYPE_SQL__" with
    | None => Raise AttributeError
    | Some v =>
        if truthy v then
          match v with
          | VStr s => Ok s
          | _ => Raise (TypeError "__TYPE_SQL__ is not a str")
          end
        else Ok (upper (name_of (heap w) cls))
    end.

Definition default (cls : cid) (args : list pyval) : M unit :=
  λ w,
    if negb (has_method w cls) then (Raise AttributeError, w)
    else
      match args with
      | _ :: _ :: _ => (Raise (RuntimeError "Cannot specify multiple arguments."), w)
      | [v] =>
          (Ok (), setattr cls "_TYPE_DEFAULT_VALUE_" v
                    (setattr cls "_TYPE_HAS_DEFAULT_" (VBool true) w))
      | [] =>
          (Ok (), setattr cls "_TYPE_DEFAULT_VALUE_" VNone
                    (setattr cls "_TYPE_HAS_DEFAULT_" (VBool false) w))
      end.

Definition has_default_value (w : world) (cls : cid) : result pyval :=
  if negb (has_method w cls) then Raise AttributeError
  else
    match getattr w cls "_TYPE_HAS_DEFAULT_" with
    | Some v => Ok v
    | None => Raise AttributeError
    end.

Definition default_value (w : world) (cls : cid) : result pyval :=
  match has_default_value w cls with
  | Raise e => Raise e
  | Ok b =>
      if negb (truthy b) then Raise (RuntimeError "This type does not have a default value.")
      else
        match getattr w cls "_TYPE_DEFAULT_VALUE_" with
        | Some v => Ok v
        | None => Raise AttributeError
        end
  end.

Definition comment (cls : cid) (c : pyval) : M unit :=
  λ w,
    if negb (has_method w cls) then (Raise AttributeError, w)
    else (Ok (), setattr cls "_TYPE_COMMENT_" c w).

Definition get_comment (w : world) (cls : cid) : result pyval :=
  if negb (has_method w cls) then Raise AttributeError
  else
    match getattr w cls "_TYPE_COMMENT_" with
    | Some v => Ok v
    | None => Raise AttributeError
    end.

End SQLType.

Definition get_type_sql (w : world) (t : cid) : result string :=
  if negb (issubclass (heap w) t Cls.SQLType) then Raise AssertionError
  else SQLType.__type_sql__ w t.

Module SQLTypeWithOptionalKey.

(** [types.new_class(classname, (cls, *bases), {}, ns.update(...))] *)
Definition new_subclass (cls : cid) (classname : string) (bases : list cid)
    (classprops : list (string * pyval)) : M cid :=
  declare_class classname (cls :: bases)
    (dict_update [("_TYPE_HAS_KEY_", VBool true)] classprops) [].

End SQLTypeWithOptionalKey.

Module SQLTypeWithOptionalLength.

Definition __class_getitem__ : cid * Z → M cid :=
  lru_cache cache_length set_cache_length (λ '(cls, l),
    let* _ := try (λ w, if issubclass (heap w) cls Cls.SQLType then Ok ()
                        else Raise AssertionError) in
    let* name := gets (λ w, name_of (heap w) cls +:+ "_len" +:+ pretty l) in
    let* sql := try (λ w, get_type_sql w cls) in
    SQLTypeWithOptionalKey.new_subclass cls name []
      [("_MAX_LEN_", VInt l); ("__TYPE_SQL__", VStr (sql +:+ "(" +:+ pretty l +:+ ")"))]).

End SQLTypeWithOptionalLength.

Module DecimalType.

Definition __class_getitem__ : cid * (Z * Z) → M cid :=
  lru_cache cache_decimal set_cache_decimal (λ '(cls, (pr, sc)),
    let* name := gets (λ w, name_of (heap w) cls +:+ "_" +:+ pretty pr +:+ "_" +:+ pretty sc) in
    SQLTypeWithOptionalKey.new_subclass cls name []
      [("_TYPE_DECI_PREC_", VInt pr); ("_TYPE_DECI_SCALE_", VInt sc)]).

End DecimalType.

Module SQLTypeWithValues.

Definition __class_getitem__ : cid * list string → M cid :=
  lru_cache cache_values set_cache_values (λ '(cls, values),
    let* name := gets (λ w, name_of (heap w) cls +:+ "_vals_" +:+ join "_" values) in
    let* sql := try (λ w, get_type_sql w cls) in
    SQLTypeWithOptionalKey.new_subclass cls name []
      [("_TYPE_VALUES_", VStrTuple values);
       ("__TYPE_SQL__",
        VStr (sql +:+ "(" +:+ join ", " (map (λ v, "'" +:+ v +:+ "'") values) +:+ ")"))]).

End SQLTypeWithValues.

Module ForeignTableKey.

Definition __class_getitem__ : cid * cid → M cid :=
  lru_cache cache_fk set_cache_fk (λ '(cls, t),
    let* _ := try (λ w, if issubclass (heap w) t Cls.Record then Ok ()
                        else Raise AssertionError) in
    let* name := gets (λ w, "FK__" +:+ name_of (heap w) t) in
    let* sql := try (λ w, SQLType.__type_sql__ w Cls.Int) in
    SQLTypeWithOptionalKey.new_subclass cls name [Cls.Int]
      [("_TYPE_BASE_", VClass t); ("__TYPE_SQL__", VStr sql)]).

End ForeignTableKey.

Module SQLTypeWithType.

(** [__class_getitem__], with its call of [SQLTypeEnv.actual_type] (which
    in turn calls [NotNull[t]]) passed in; the knot is tied below. *)
Definition class_getitem_body (actual_type : pytype → bool → M cid) : cid * cid → M cid :=
  λ '(cls, t),
    let* suffix := try (λ w, match getattr w cls "_TYPE_SQL_SUFFIX_" with
                             | None => Raise AttributeError
                             | Some VNone => Raise AssertionError
                             | Some v => Ok v
                             end) in
    let* ens := try (λ w, match getattr w cls "_TYPE_ENSURE_NULLABLE_" with
                          | None => Raise AttributeError
                          | Some v => Ok (truthy v)
                          end) in
    let* t := actual_type (TClass t) ens in
    let* name := gets (λ w, name_of (heap w) cls +:+ "__" +:+ name_of (heap w) t) in
    let* tsql := try (λ w, SQLType.__type_sql__ w t) in
    let* sql := lift (match suffix with
                      | VStr s => Ok (tsql +:+ s)
                      | _ => Raise (TypeError "can only concatenate str to str")
                      end) in
    SQLTypeWithOptionalKey.new_subclass cls name [t]
      [("_TYPE_BASE_", VClass t); ("__TYPE_SQL__", VStr sql)].

Definition class_getitem_with (actual_type : pytype → bool → M cid) : cid * cid → M cid :=
  lru_cache cache_withtype set_cache_withtype (class_getitem_body actual_type).

End SQLTypeWithType.

Module SQLTypeEnv.

Definition set_type_alias (tf tt_ : cid) : M unit :=
  λ w,
    if negb (is_child_class (heap w) tt_ Cls.SQLType) then (Raise AssertionError, w)
    else (Ok (), set_type_aliases (<[tf := tt_]> (type_aliases w)) w).

Definition _is_typing_type (t : pytype) : bool :=
  match t with TClass _ => false | _ => true end.

Definition _is_typing_optional (t : pytype) : bool :=
  match t with
  | TUnion [_; AClass c] => bool_decide (c = Cls.NoneType)
  | _ => false
  end.

Definition _typing_optional_basetype (t : pytype) : result pytype :=
  match t with
  | TUnion (a :: _) => Ok (pytype_of_arg a)
  | _ => Raise AttributeError
  end.

(** [depth] bounds the nesting of calls, as the interpreter's recursion
    limit does. *)
Fixpoint actual_type (depth : nat) (t : pytype) (ensure_nullable : bool) : M cid :=
  match depth with
  | 0 => raise RecursionError
  | S depth' =>
      if _is_typing_optional t then
        let* t' := lift (_typing_optional_basetype t) in
        actual_type depth' t' false
      else
        match t with
        | TClass t =>
            let* isrec := gets (λ w, is_child_class (heap w) t Cls.BaseRecord) in
            if isrec : bool then ForeignTableKey.__class_getitem__ (Cls.ForeignTableKey, t)
            else
              let* t := gets (λ w, match type_aliases w !! t with
                                   | Some alias => alias
                                   | None => t
                                   end) in
              let* wrap := gets (λ w, ensure_nullable && default_not_null w
                                   && negb (issubclass (heap w) t Cls.Nullable
                                            || issubclass (heap w) t Cls.NotNull)) in
              if wrap : bool then
                SQLTypeWithType.class_getitem_with (actual_type depth') (Cls.NotNull, t)
              else ret t
        | _ => raise (TypeError "issubclass() arg 1 must be a class")
        end
  end.

Definition is_compatible_type (w : world) (t : pytype) : bool :=
  match t with
  | TClass c =>
      is_child_class (heap w) c Cls.SQLType
      || is_child_class (heap w) c Cls.BaseRecord
      || bool_decide (is_Some (type_aliases w !! c))
  | _ => _is_typing_optional t
  end.

Definition type_sql (depth : nat) (t : pytype) : M string :=
  let* t := actual_type depth t false in
  try (λ w, SQLType.__type_sql__ w t).

End SQLTypeEnv.

(** [cls[t]] for [Nullable], [NotNull], [PrimaryKey] and their subclasses. *)
Definition SQLTypeWithType__class_getitem__ (depth : nat) : cid * cid → M cid :=
  SQLTypeWithType.class_getitem_with (SQLTypeEnv.actual_type depth).

(** ** The schema objects

    [schema.py] is not part of the sources.  [Column] and [Table] hold the
    constructor arguments that [record.py] passes and the attributes that
    [view.py] reads back ([columns], [not_null]). *)
Record Column := mkColumn {
  column_name : string;
  column_type : string;
  not_null : bool;
  is_primary : bool;
  column_comment : pyval;
  link_column_refs : list (string * string)
}.

Record Table := mkTable {
  table_name : string;
  columns : list Column;
  record_class : option cid
}.

#[global] Instance Column_eq_dec : EqDecision Column.
Proof. solve_decision. Defined.
#[global] Instance Table_eq_dec : EqDecision Table.
Proof. solve_decision. Defined.

Record Database := mkDatabase {
  database_name : string;
  tables : list Table
}.



(** ** record.py *)

(** The generator object a call of [get_record_classes] returns: not yet
    started, suspended at a [yield] with the subclasses still to come, or
    finished. *)
Inductive generator :=
  | GenCreated (cls : cid)
  | GenSuspended (rest : list cid)
  | GenFinished.

(** The state of [record.py]: the world of the types, the caches of the
    class methods decorated with [lru_cache], and the generator objects. *)
Record rworld := RWorld {
  types : world;
  cache_tablename : list (cid * string);
  cache_raw_column_types : list (cid * list (string * pytype));
  cache_column_types : list (cid * list (string * cid));
  cache_table : list (cid * Table);
  cache_dbname : list (cid * string);
  generators : list generator;
  cache_record_classes : list (cid * nat);
  cache_db : list (cid * Database)
}.

Definition set_types (w : world) (r : rworld) : rworld :=
  RWorld w (cache_tablename r) (cache_raw_column_types r) (cache_column_types r)
         (cache_table r) (cache_dbname r) (generators r) (cache_record_classes r) (cache_db r).
Definition set_cache_tablename (c : list (cid * string)) (r : rworld) : rworld :=
  RWorld (types r) c (cache_raw_column_types r) (cache_column_types r)
         (cache_table r) (cache_dbname r) (generators r) (cache_record_classes r) (cache_db r).
Definition set_cache_raw_column_types (c : list (cid * list (string * pytype))) (r : rworld) : rworld :=
  RWorld (types r) (cache_tablename r) c (cache_column_types r)
         (cache_table r) (cache_dbname r) (generators r) (cache_record_classes r) (cache_db r).
Definition set_cache_column_types (c : list (cid * list (string * cid))) (r : rworld) : rworld :=
  RWorld (types r) (cache_tablename r) (cache_raw_column_types r) c
         (cache_table r) (cache_dbname r) (generators r) (cache_record_classes r) (cache_db r).
Definition set_cache_table (c : list (cid * Table)) (r : rworld) : rworld :=
  RWorld (types r) (cache_tablename r) (cache_raw_column_types r) (cache_column_types r)
         c (cache_dbname r) (generators r) (cache_record_classes r) (cache_db r).

Definition init_rworld : rworld := RWorld init_world [] [] [] [] [] [] [] [].

(** A computation on the types, run inside [record.py]. *)
Definition in_types {A} (m : M A) : ST rworld A :=
  λ r, let '(res, w) := m (types r) in (res, set_types w r).

(** [typing.get_type_hints(cls)]: the annotations of the classes of the
    MRO, from [object] down to [cls]. *)
Definition get_type_hints (h : class_heap) (cls : cid) : list (string * pytype) :=
  foldl (λ hints c, match h !! c with
                    | Some k => dict_update hints (cls_annotations k)
                    | None => hints
                    end) [] (reverse (mro_of h cls)).


(** The name of an attribute starts with an underscore. *)
Definition is_private (name : string) : bool :=
  match name with
  | EmptyString => true
  | String a _ => Ascii.eqb a "_"%char
  end.

(** The class [Record] of [record.py].  [depth] is the bound on nested
    calls handed to [SQLTypeEnv.actual_type]; [st.NotNull] and
    [st.PrimaryKey] are the classes of [sqltypebases.py], which the missing
    module [sqltypes] re-exports. *)
Module RecordCls.

Definition _tablename : cid → ST rworld string :=
  lru_cache cache_tablename set_cache_tablename (λ cls,
    try (λ r, match getattr (types r) cls "__tablename__" with
              | None => Raise AttributeError
              | Some v =>
                  if truthy v then
                    match v with
                    | VStr s => Ok s
                    | _ => Raise (TypeError "__tablename__ is not a str")
                    end
                  else Ok ("t_" +:+ lower (last_segment (name_of (heap (types r)) cls)))
              end)).

(** The loop over the type hints.  The message of the [RuntimeError] is
    that of the source without the text of the type. *)
Fixpoint raw_column_types_loop (w : world) (hints coltypes : list (string * pytype))
  : result (list (string * pytype)) :=
  match hints with
  | [] => Ok coltypes
  | (name, t) :: rest =>
      if is_private name then raw_column_types_loop w rest coltypes
      else if negb (SQLTypeEnv.is_compatible_type w t) then
        Raise (RuntimeError ("Type of column `" +:+ name +:+ "` is not compatible."))
      else raw_column_types_loop w rest (dict_set name t coltypes)
  end.

Definition _raw_column_types : cid → ST rworld (list (string * pytype)) :=
  lru_cache cache_raw_column_types set_cache_raw_column_types (λ cls,
    try (λ r, raw_column_types_loop (types r)
                (get_type_hints (heap (types r)) cls) [])).

Fixpoint column_types_loop (depth : nat) (raw : list (string * pytype))
    (acc : list (string * cid)) : M (list (string * cid)) :=
  match raw with
  | [] => ret acc
  | (cn, ct) :: rest =>
      let* t := SQLTypeEnv.actual_type depth ct true in
      column_types_loop depth rest (dict_set cn t acc)
  end.

Definition _column_types (depth : nat) : cid → ST rworld (list (string * cid)) :=
  lru_cache cache_column_types set_cache_column_types (λ cls,
    let* raw := _raw_column_types cls in
    in_types (column_types_loop depth raw [])).

Fixpoint table_columns (w : world) (coltypes : list (string * cid)) : result (list Column) :=
  match coltypes with
  | [] => Ok []
  | (colname, coltype) :: rest =>
      match SQLType.__type_sql__ w coltype with
      | Raise e => Raise e
      | Ok sql =>
          match SQLType.get_comment w coltype with
          | Raise e => Raise e
          | Ok c =>
              match table_columns w rest with
              | Raise e => Raise e
              | Ok cols =>
                  Ok (mkColumn colname sql
                        (issubclass (heap w) coltype Cls.NotNull)
                        (issubclass (heap w) coltype Cls.PrimaryKey)
                        c [] :: cols)
              end
          end
      end
  end.

Definition _table (depth : nat) : cid → ST rworld Table :=
  lru_cache cache_table set_cache_table (λ cls,
    let* name := _tablename cls in
    let* coltypes := _column_types depth cls in
    let* cols := try (λ r, table_columns (types r) coltypes) in
    ret (mkTable name cols (Some cls))).

End RecordCls.

Module RootRecord.






End RootRecord.

(** ** view.py *)

(** [sqlexpr.py] is not part of the sources.  The expressions that
    [view.py] builds are kept as syntax: [table.column(name) == value],
    [terms & expr], and whatever expression the caller passes in. *)
Inductive Expr :=
  | EColumn (c : Column)
  | EEq (c : Column) (v : pyval)
  | EAnd (l r : Expr)
  | EGiven (n : nat).

#[global] Instance Expr_eq_dec : EqDecision Expr.
Proof. solve_decision. Defined.

(** An element of the SELECT list:
    [sqe.col_opt_as(col, col.opt_unique_alias())]. *)
Inductive select_item :=
  | SelColumn (c : Column)
  | SelExpr (e : Expr).

(** [ColumnLike]: a column object or a column name. *)
Inductive column_like :=
  | CLColumn (c : Column)
  | CLName (name : string).

#[global] Instance column_like_eq_dec : EqDecision column_like.
Proof. solve_decision. Defined.

(** The value handed to [append_clause]. *)
Inductive clause_value :=
  | CVSelect (items : list select_item)
  | CVTable (t : Table)
  | CVOn (l r : Column)
  | CVTerms (e : option Expr)
  | CVGroups (cols : list column_like)
  | CVOrders (orders : list Expr)
  | CVInt (n : option Z).

Record clause := mkClause {
  keyword : string;
  value : clause_value;
  (** the keyword argument [end], when given *)
  clause_end : option string
}.

(** The output sink [sqe.SQLWithParams]: its identity and the calls of
    [append_clause] it has received, in order. *)
Record SQLWithParams := mkSWP {
  swp_id : nat;
  clauses : list clause
}.

#[global] Instance select_item_eq_dec : EqDecision select_item.
Proof. solve_decision. Defined.
#[global] Instance clause_value_eq_dec : EqDecision clause_value.
Proof. solve_decision. Defined.
#[global] Instance clause_eq_dec : EqDecision clause.
Proof. solve_decision. Defined.

Definition append_clause (kw : string) (v : clause_value) (e : option string)
    (swp : SQLWithParams) : SQLWithParams :=
  mkSWP (swp_id swp) (clauses swp ++ [mkClause kw v e]).

(** What is passed where a table is expected: a name, a table object, or
    [None]. *)
Inductive table_like :=
  | TName (name : string)
  | TTable (t : Table)
  | TNone.

(** A link between tables: [(table, (lcol, rcol))]. *)
Definition link : Type := Table * (Column * Column).

(** The key of [view[key]]. *)
Inductive key :=
  | KExpr (e : Expr)
  | KSlice (start stop step : option Z)
  | KInt (n : Z)
  | KOther.

(** The attributes of a view.  [_table] is [None] until a table is set; a
    table object counts as true in [if not self._table]. *)
Record DataView := mkDataView {
  db : Database;
  _table : option Table;
  _colexprs : list Expr;
  _terms : option Expr;
  _groups : list column_like;
  _orders : list Expr;
  _limit : option Z;
  _offset : option Z;
  _join_parent_tables : bool;
  _join_child_tables : bool
}.

(** What a rendering reads and writes: the view, the sink, and the
    standard output that [print] writes to. *)
Record render_state := mkRS {
  rs_view : DataView;
  rs_sink : SQLWithParams;
  rs_stdout : list (string * nat)
}.

Module DataView.
Section methods.

(** The methods of [schema.Database] and [schema.Table] that the view
    calls; [schema.py] is not part of the sources. *)
Variable db_table : Database → table_like → result Table.
Variable table_column : Table → string → result Column.
Variable get_parent_table_links : Table → result (list link).
Variable get_child_table_links : Table → result (list link).

Definition table (t : table_like) (self : DataView) : result DataView :=
  match db_table (db self) t with
  | Raise e => Raise e
  | Ok tb =>
      Ok (mkDataView (db self) (Some tb) (_colexprs self) (_terms self) (_groups self)
            (_orders self) (_limit self) (_offset self)
            (_join_parent_tables self) (_join_child_tables self))
  end.

(** [if table:] a table object counts as true, a name unless it is empty. *)
Definition table_like_truthy (t : table_like) : bool :=
  match t with
  | TName n => negb (String.eqb n "")
  | TTable _ => true
  | TNone => false
  end.

Definition __init__ (d : Database) (t : table_like) (parent child : bool) : result DataView :=
  let self := mkDataView d None [] None [] [] None None parent child in
  if table_like_truthy t then table t self else Ok self.

Definition new (t : table_like) (self : DataView) : result DataView :=
  __init__ (db self) t true true.

Definition where_ (exprs : list Expr) (self : DataView) : DataView :=
  mkDataView (db self) (_table self) (_colexprs self)
    (foldl (λ terms expr, match terms with
                          | None => Some expr
                          | Some t => Some (EAnd t expr)
                          end) (_terms self) exprs)
    (_groups self) (_orders self) (_limit self) (_offset self)
    (_join_parent_tables self) (_join_child_tables self).



Definition orders (colexprs : list Expr) (self : DataView) : DataView :=
  mkDataView (db self) (_table self) (_colexprs self) (_terms self)
    (_groups self) (_orders self ++ colexprs) (_limit self) (_offset self)
    (_join_parent_tables self) (_join_child_tables self).

Definition limit (n : option Z) (self : DataView) : DataView :=
  mkDataView (db self) (_table self) (_colexprs self) (_terms self)
    (_groups self) (_orders self) n (_offset self)
    (_join_parent_tables self) (_join_child_tables self).

Definition offset (n : option Z) (self : DataView) : DataView :=
  mkDataView (db self) (_table self) (_colexprs self) (_terms self)
    (_groups self) (_orders self) (_limit self) n
    (_join_parent_tables self) (_join_child_tables self).

Definition join_parents (self : DataView) : DataView :=
  mkDataView (db self) (_table self) (_colexprs self) (_terms self)
    (_groups self) (_orders self) (_limit self) (_offset self)
    true (_join_child_tables self).

Definition join_children (self : DataView) : DataView :=
  mkDataView (db self) (_table self) (_colexprs self) (_terms self)
    (_groups self) (_orders self) (_limit self) (_offset self)
    (_join_parent_tables self) true.

(** [eq(table, **kwargs)]: the keyword arguments in the order given. *)
Fixpoint eq_loop (tb : Table) (kwargs : list (string * pyval)) (self : DataView)
  : result DataView :=
  match kwargs with
  | [] => Ok self
  | (column_name, v) :: rest =>
      match table_column tb column_name with
      | Raise e => Raise e
      | Ok c => eq_loop tb rest (where_ [EEq c v] self)
      end
  end.

Definition eq (t : table_like) (kwargs : list (string * pyval)) (self : DataView)
  : result DataView :=
  match db_table (db self) t with
  | Raise e => Raise e
  | Ok tb => eq_loop tb kwargs self
  end.

Definition id (idval : Z) (self : DataView) : result DataView :=
  eq (match _table self with Some t => TTable t | None => TNone end)
     [("id", VInt idval)] self.

Definition __getitem__ (k : key) (self : DataView) : result DataView :=
  match k with
  | KExpr e => Ok (where_ [e] self)
  | KSlice start stop step =>
      let self := match start with
                  | Some s => offset (Some s) self
                  | None => self
                  end in
      let self := match stop with
                  | Some e => limit (Some (e - match start with
                                               | Some s => s
                                               | None => 0
                                               end)%Z) self
                  | None => self
                  end in
      let self := match step with
                  | Some p => limit (Some p) self
                  | None => self
                  end in
      Ok self
  | KInt n => id n self
  | KOther => Raise (TypeError "Unexpected type.")
  end.

Definition join_keyword (lcol rcol : Column) : string :=
  (if not_null lcol && not_null rcol then "INNER" else "LEFT") +:+ " JOIN".

Definition append_joins (joins : list link) (swp : SQLWithParams) : SQLWithParams :=
  foldl (λ swp '(tb, (lcol, rcol)),
           append_clause "ON" (CVOn lcol rcol) None
             (append_clause (join_keyword lcol rcol) (CVTable tb) (Some "") swp))
        swp joins.

Definition sink (f : SQLWithParams → SQLWithParams) : ST render_state unit :=
  modify (λ s, mkRS (rs_view s) (f (rs_sink s)) (rs_stdout s)).

Definition __sqlout__ : ST render_state unit :=
  let* _ := modify (λ s, mkRS (rs_view s) (rs_sink s)
                           (rs_stdout s ++ [("id(swp)=", swp_id (rs_sink s))])) in
  let* self := gets rs_view in
  match _table self with
  | None => raise (RuntimeError "Table is not set.")
  | Some tb =>
      let* parents :=
        if _join_parent_tables self then
          let* t := lift (db_table (db self) (TTable tb)) in
          lift (get_parent_table_links t)
        else ret [] in
      let* children :=
        if _join_child_tables self then
          let* t := lift (db_table (db self) (TTable tb)) in
          lift (get_child_table_links t)
        else ret [] in
      let joins := parents ++ children in
      let* _ := sink (append_clause "SELECT"
                  (CVSelect ((SelColumn <$> columns tb)
                             ++ (SelColumn <$> concat ((λ l : link, columns l.1) <$> joins))
                             ++ (SelExpr <$> _colexprs self))) None) in
      let* _ := sink (append_clause "FROM" (CVTable tb) None) in
      let* _ := sink (append_joins joins) in
      let* _ := sink (append_clause "WHERE" (CVTerms (_terms self)) None) in
      let* _ := sink (append_clause "GROUP BY" (CVGroups (_groups self)) None) in
      let* _ := sink (append_clause "ORDER BY" (CVOrders (_orders self)) None) in
      let* _ := sink (append_clause "LIMIT" (CVInt (_limit self)) None) in
      sink (append_clause "OFFSET" (CVInt (_offset self)) None)
  end.

(** [swp.append(self)] of the missing module [sqlexpr]. *)
Variable swp_append : ST render_state unit.

(** [new_id]: the identity of the sink that is created when none is given. *)
Definition get_sql_with_params (default_swp : option SQLWithParams) (new_id : nat)
    (self : DataView) (stdout : list (string * nat))
  : result SQLWithParams * render_state :=
  let swp := match default_swp with
             | None => mkSWP new_id []
             | Some swp => swp
             end in
  match swp_append (mkRS self swp stdout) with
  | (Ok _, s) => (Ok (rs_sink s), s)
  | (Raise e, s) => (Raise e, s)
  end.

End methods.
End DataView.

(** ** Well-formed worlds

    What holds of every world that the operations above produce from
    [init_world]: classes are created by [new_class] and never changed,
    assignments to class attributes come from [default] and [comment]
    only, and every cache entry is a class its function has created. *)

(** The world of a class heap alone: no attribute was assigned. *)
Definition bare (h : class_heap) : world := World h ∅ [] [] [] [] [] ∅ true.

Definition static_attr (h : class_heap) (c : cid) (name : string) : option pyval :=
  h !! c ≫= λ k, assoc name (cls_ns k).

(** The attributes that [default] and [comment] assign. *)
Definition assigned_attr (name : string) : bool :=
  String.eqb name "_TYPE_HAS_DEFAULT_" || String.eqb name "_TYPE_DEFAULT_VALUE_"
  || String.eqb name "_TYPE_COMMENT_".

Definition class_ok (h : class_heap) (i : nat) (k : pyclass) : Prop :=
  Forall (λ c, c ≤ i) (cls_mro k) ∧
  (i = 0 ∧ k = object_class ∨
   i ≠ 0 ∧ cls_bases k ≠ [] ∧ Forall (λ b, b < i) (cls_bases k) ∧
   C3.linearize i (map (mro_of h) (cls_bases k)) (cls_bases k) = Some (cls_mro k)).

Definition heap_ok (h : class_heap) : Prop :=
  Forall (λ ik : nat * pyclass, class_ok h ik.1 ik.2) (imap pair h).

Definition attrs_ok (w : world) : Prop :=
  map_Forall (λ (key : cid * string) (_ : pyval),
                assigned_attr key.2 = true ∧ issubclass (heap w) key.1 Cls.SQLType = true)
             (attrs w).

(** The results in a cache are classes of the heap, all different. *)
Definition ids_ok {K} (h : class_heap) (c : list (K * cid)) : Prop :=
  Forall (λ e : K * cid, e.2 < List.length h) c ∧ NoDup c.*2.

(** The class [d] was created by [new_subclass] with these bases, and its
    body sets no default. *)
Definition subclass_shape (h : class_heap) (d : cid) (bases : list cid) : Prop :=
  match h !! d with
  | Some k =>
      cls_bases k = bases ∧
      assoc "_TYPE_HAS_DEFAULT_" (cls_ns k) = None ∧
      assoc "_TYPE_DEFAULT_VALUE_" (cls_ns k) = None
  | None => False
  end.

Definition fk_entry_ok (h : class_heap) (e : cid * cid * cid) : Prop :=
  subclass_shape h e.2 [e.1.1; Cls.Int] ∧
  static_attr h e.2 "_TYPE_BASE_" = Some (VClass e.1.2) ∧
  static_attr h e.2 "__TYPE_SQL__" = Some (VStr "INT").

(** [b] is the class that [NotNull[t]] creates. *)
Definition notnull_shape (h : class_heap) (b t : cid) : Prop :=
  subclass_shape h b [Cls.NotNull; t] ∧
  static_attr h b "_TYPE_BASE_" = Some (VClass t) ∧
  match SQLType.__type_sql__ (bare h) t with
  | Ok st => static_attr h b "__TYPE_SQL__" = Some (VStr (st +:+ " NOT NULL"))
  | Raise _ => False
  end.

Definition ensures_nullable (h : class_heap) (cls : cid) : bool :=
  match getattr (bare h) cls "_TYPE_ENSURE_NULLABLE_" with
  | Some v => truthy v
  | None => false
  end.

(** The SQL of [d] is the SQL of [b] followed by the suffix of [cls]. *)
Definition sql_extends (h : class_heap) (d b cls : cid) : Prop :=
  match SQLType.__type_sql__ (bare h) b, getattr (bare h) cls "_TYPE_SQL_SUFFIX_" with
  | Ok sb, Some (VStr sfx) => static_attr h d "__TYPE_SQL__" = Some (VStr (sb +:+ sfx))
  | _, _ => False
  end.

(** What [actual_type] makes of a class [t] that is no alias: unless [t]
    is a record class, [t] itself or, where the nullability has to be
    ensured, the class of [NotNull[t]]. *)
Definition normalized (h : class_heap) (policy ens : bool) (t b : cid) : Prop :=
  is_child_class h t Cls.BaseRecord = false →
  if ens && policy && negb (issubclass h t Cls.Nullable || issubclass h t Cls.NotNull)
  then notnull_shape h b t
  else b = t.

Definition wrapped_base (h : class_heap) (aliases : gmap cid cid) (policy : bool)
    (cls t b : cid) : Prop :=
  aliases !! t = None →
  t < List.length h ∧ normalized h policy (ensures_nullable h cls) t b.

(** The class [d] cached for [cls[t]] wraps a base [b]: its second base,
    recorded as [_TYPE_BASE_]. *)
Definition withtype_entry_ok (h : class_heap) (aliases : gmap cid cid) (policy : bool)
    (e : cid * cid * cid) : Prop :=
  match static_attr h e.2 "_TYPE_BASE_" with
  | Some (VClass b) =>
      subclass_shape h e.2 [e.1.1; b] ∧
      sql_extends h e.2 b e.1.1 ∧
      wrapped_base h aliases policy e.1.1 e.1.2 b
  | _ => False
  end.

Record wf (w : world) : Prop := mk_wf {
  wf_init : take (List.length init_heap) (heap w) = init_heap;
  wf_heap : heap_ok (heap w);
  wf_attrs : attrs_ok w;
  wf_length_ids : ids_ok (heap w) (cache_length w);
  wf_decimal_ids : ids_ok (heap w) (cache_decimal w);
  wf_values_ids : ids_ok (heap w) (cache_values w);
  wf_withtype_ids : ids_ok (heap w) (cache_withtype w);
  wf_fk_ids : ids_ok (heap w) (cache_fk w);
  wf_length : Forall (λ e : cid * Z * cid, subclass_shape (heap w) e.2 [e.1.1]) (cache_length w);
  wf_decimal : Forall (λ e : cid * (Z * Z) * cid, subclass_shape (heap w) e.2 [e.1.1]) (cache_decimal w);
  wf_values : Forall (λ e : cid * list string * cid, subclass_shape (heap w) e.2 [e.1.1]) (cache_values w);
  wf_withtype :
    Forall (withtype_entry_ok (heap w) (type_aliases w) (default_not_null w)) (cache_withtype w);
  wf_fk : Forall (fk_entry_ok (heap w)) (cache_fk w)
}.

#[global] Instance class_ok_dec h i k : Decision (class_ok h i k).
Proof. unfold class_ok. apply _. Defined.
#[global] Instance heap_ok_dec h : Decision (heap_ok h).
Proof. unfold heap_ok. apply _. Defined.
#[global] Instance attrs_ok_dec w : Decision (attrs_ok w).
Proof. unfold attrs_ok. apply _. Defined.
#[global] Instance ids_ok_dec {K} h (c : list (K * cid)) : Decision (ids_ok h c).
Proof. unfold ids_ok. apply _. Defined.
#[global] Instance subclass_shape_dec h d bases : Decision (subclass_shape h d bases).
Proof. unfold subclass_shape. destruct (h !! d); apply _. Defined.
#[global] Instance fk_entry_ok_dec h e : Decision (fk_entry_ok h e).
Proof. unfold fk_entry_ok. apply _. Defined.
#[global] Instance notnull_shape_dec h b t : Decision (notnull_shape h b t).
Proof.
  unfold notnull_shape. destruct (SQLType.__type_sql__ (bare h) t); apply _.
Defined.
#[global] Instance sql_extends_dec h d b cls : Decision (sql_extends h d b cls).
Proof.
  unfold sql_extends. destruct (SQLType.__type_sql__ (bare h) b); [|apply _].
  destruct (getattr (bare h) cls "_TYPE_SQL_SUFFIX_") as [[]|]; apply _.
Defined.
#[global] Instance normalized_dec h p ens t b : Decision (normalized h p ens t b).
Proof.
  unfold normalized.
  destruct (ens && p && negb (issubclass h t Cls.Nullable || issubclass h t Cls.NotNull));
    apply _.
Defined.
#[global] Instance wrapped_base_dec h al p cls t b : Decision (wrapped_base h al p cls t b).
Proof. unfold wrapped_base. apply _. Defined.
#[global] Instance withtype_entry_ok_dec h al p e : Decision (withtype_entry_ok h al p e).
Proof.
  unfold withtype_entry_ok.
  destruct (static_attr h e.2 "_TYPE_BASE_") as [[]|]; apply _.
Defined.

Definition wf_all (w : world) : Prop :=
  take (List.length init_heap) (heap w) = init_heap ∧
  heap_ok (heap w) ∧ attrs_ok w ∧
  ids_ok (heap w) (cache_length w) ∧ ids_ok (heap w) (cache_decimal w) ∧
  ids_ok (heap w) (cache_values w) ∧ ids_ok (heap w) (cache_withtype w) ∧
  ids_ok (heap w) (cache_fk w) ∧
  Forall (λ e : cid * Z * cid, subclass_shape (heap w) e.2 [e.1.1]) (cache_length w) ∧
  Forall (λ e : cid * (Z * Z) * cid, subclass_shape (heap w) e.2 [e.1.1]) (cache_decimal w) ∧
  Forall (λ e : cid * list string * cid, subclass_shape (heap w) e.2 [e.1.1]) (cache_values w) ∧
  Forall (withtype_entry_ok (heap w) (type_aliases w) (default_not_null w)) (cache_withtype w) ∧
  Forall (fk_entry_ok (heap w)) (cache_fk w).

Lemma wf_all_wf w : wf_all w ↔ wf w.
Proof.
  split.
  - intros (?&?&?&?&?&?&?&?&?&?&?&?&?). by constructor.
  - intros []. unfold wf_all. tauto.
Qed.

#[global] Instance wf_dec w : Decision (wf w) :=
  match decide (wf_all w) with
  | left H => left (proj1 (wf_all_wf w) H)
  | right H => right (λ Hwf, H (proj2 (wf_all_wf w) Hwf))
  end.

(** The check of [wf] as a boolean. *)
Definition wfb (w : world) : bool := bool_decide (wf w).

(** ** Definitions for the statements

    The relations, examples and abbreviations that the lemmas and the
    theorems below are stated with. *)

(** What an operation on the types may change: classes are added, the
    assigned attributes and the environment stay. *)
Record step (w w' : world) : Prop := mk_step {
  step_wf : wf w';
  step_heap : heap w `prefix_of` heap w';
  step_attrs : attrs w' = attrs w;
  step_aliases : type_aliases w' = type_aliases w;
  step_policy : default_not_null w' = default_not_null w
}.

(** [d] is the class that [new_subclass] has just created in [w]. *)
Definition created (w w' : world) (d cls : cid) (bases : list cid)
    (props : list (string * pyval)) : Prop :=
  ∃ name mro,
    d = length (heap w) ∧
    w' = set_heap (heap w ++ [PyClass name (cls :: bases) mro
                                (dict_update [("_TYPE_HAS_KEY_", VBool true)] props) []]) w ∧
    C3.linearize d (map (mro_of (heap w)) (cls :: bases)) (cls :: bases) = Some mro ∧
    Forall (λ b, b < d) (cls :: bases) ∧
    step w w'.

(** What the normalisation returns for a class that is no key of the alias
    table. *)
Definition at_post (w' : world) (t : pytype) (ens : bool) (d : cid) : Prop :=
  match t with
  | TClass c =>
      type_aliases w' !! c = None →
      normalized (heap w') (default_not_null w') ens c d
  | _ => True
  end.

(** What the wrapping derivation needs of the normalisation it calls. *)
Definition at_ok (norm : pytype → bool → M cid) : Prop :=
  ∀ t ens w r w', wf w → norm t ens w = (r, w') →
    step w w' ∧
    ∀ d, r = Ok d →
      at_post w' t ens d ∧
      (∀ c, t = TClass c → type_aliases w !! c = None →
            d < length (heap w') → c < length (heap w)).

(** The normalisation derives no key of the wrapping cache but
    [NotNull[t]], and that only where it ensures the nullability. *)
Definition at_keeps (norm : pytype → bool → M cid) : Prop :=
  ∀ t ens w r w' k, wf w → norm t ens w = (r, w') →
    lru.lookup k (cache_withtype w) = None →
    ens = false ∨ k.1 ≠ Cls.NotNull →
    lru.lookup k (cache_withtype w') = None.

(** The five derivations under one name: [cls[param]], by the kind of the
    parameter. *)
Inductive derivation :=
  | ByLength (cls : cid) (l : Z)
  | ByPrecision (cls : cid) (pr sc : Z)
  | ByValues (cls : cid) (values : list string)
  | ByType (cls t : cid)
  | ByRecord (cls t : cid).

#[global] Instance derivation_eq_dec : EqDecision derivation.
Proof. solve_decision. Defined.

Definition derive (depth : nat) (k : derivation) : M cid :=
  match k with
  | ByLength cls l => SQLTypeWithOptionalLength.__class_getitem__ (cls, l)
  | ByPrecision cls pr sc => DecimalType.__class_getitem__ (cls, (pr, sc))
  | ByValues cls values => SQLTypeWithValues.__class_getitem__ (cls, values)
  | ByType cls t => SQLTypeWithType__class_getitem__ depth (cls, t)
  | ByRecord cls t => ForeignTableKey.__class_getitem__ (cls, t)
  end.


(** What the cache of its function holds for a derivation. *)
Definition cached (k : derivation) (w : world) : option cid :=
  match k with
  | ByLength cls l => lru.lookup (cls, l) (cache_length w)
  | ByPrecision cls pr sc => lru.lookup (cls, (pr, sc)) (cache_decimal w)
  | ByValues cls values => lru.lookup (cls, values) (cache_values w)
  | ByType cls t => lru.lookup (cls, t) (cache_withtype w)
  | ByRecord cls t => lru.lookup (cls, t) (cache_fk w)
  end.


(** The position of a key in a cache, counted from the most recently used
    entry. *)
Fixpoint lru_pos {K V} `{EqDecision K} (k : K) (c : list (K * V)) : nat :=
  match c with
  | [] => 0
  | (k', _) :: c' => if decide (k' = k) then 0 else S (lru_pos k c')
  end.

(** Declarations of an application, for the examples: the text type of the
    missing module [sqltypes] and three record classes. *)
Module Ex.
Definition Text : cid := 33.
Definition MyDB : cid := 34.
Definition Student : cid := 35.
Definition Graduate : cid := 36.
End Ex.

Definition example_statements
  : list (string * list cid * list (string * pyval) * list (string * pytype)) :=
  [ ("Text", [Cls.Final; Cls.TextType], [], []);
    ("MyDB", [Cls.RootRecord], [], []);
    ("Student", [Ex.MyDB], [], [("age", TClass Cls.Int); ("name", TClass Ex.Text)]);
    ("Graduate", [Ex.Student], [], [("thesis", TClass Ex.Text)]) ].

(** The world after these declarations. *)
Definition example_world : world :=
  Eval vm_compute in set_heap (run_class_statements example_statements init_heap) init_world.




(** From [c] to [c'] every entry has moved at most [n] positions towards
    the end: an entry that is at least [n] positions from the end of a
    full cache is still there. *)
Definition kept {K} `{EqDecision K} (n : nat) (c c' : list (K * cid)) : Prop :=
  ∀ k d p, lru.lookup k c = Some d → lru_pos k c ≤ p → p + n < lru.maxsize →
    lru.lookup k c' = Some d ∧ lru_pos k c' ≤ p + n.

(** [kept], for all the caches of the world. *)
Definition aged (n : nat) (w w' : world) : Prop :=
  kept n (cache_length w) (cache_length w') ∧
  kept n (cache_decimal w) (cache_decimal w') ∧
  kept n (cache_values w) (cache_values w') ∧
  kept n (cache_withtype w) (cache_withtype w') ∧
  kept n (cache_fk w) (cache_fk w').





(** The class an alias table makes of [c]. *)
Definition resolve_alias (w : world) (c : cid) : cid :=
  match type_aliases w !! c with
  | Some alias => alias
  | None => c
  end.

(** The condition under which [actual_type] wraps [c] in [NotNull]. *)
Definition wraps (w : world) (ensure_nullable : bool) (c : cid) : bool :=
  ensure_nullable && default_not_null w
  && negb (issubclass (heap w) c Cls.Nullable || issubclass (heap w) c Cls.NotNull).

(** The two clauses that rendering emits for a link. *)
Definition join_clauses (l : link) : list clause :=
  [ mkClause (if not_null l.2.1 && not_null l.2.2 then "INNER JOIN" else "LEFT JOIN")
      (CVTable l.1) (Some "");
    mkClause "ON" (CVOn l.2.1 l.2.2) None ].

(** The clauses after the joins. *)
Definition tail_clauses (self : DataView) : list clause :=
  [ mkClause "WHERE" (CVTerms (_terms self)) None;
    mkClause "GROUP BY" (CVGroups (_groups self)) None;
    mkClause "ORDER BY" (CVOrders (_orders self)) None;
    mkClause "LIMIT" (CVInt (_limit self)) None;
    mkClause "OFFSET" (CVInt (_offset self)) None ].

(** The clauses before the joins. *)
Definition head_clauses (self : DataView) (tb : Table) (joins : list link) : list clause :=
  [ mkClause "SELECT"
      (CVSelect ((SelColumn <$> columns tb)
                 ++ (SelColumn <$> concat ((λ l : link, columns l.1) <$> joins))
                 ++ (SelExpr <$> _colexprs self))) None;
    mkClause "FROM" (CVTable tb) None ].

(** A view is unbound until a table is set. *)
Definition unbound (self : DataView) : Prop := _table self = None.

(** A database of two tables, for the examples: every student has a class
    (a not-null foreign key) and may have a tutor (a nullable one). *)
Module ExView.

Definition class_id : Column := mkColumn "id" "INT NOT NULL PRIMARY KEY" true true VNone [].
Definition tutor_id : Column := mkColumn "id" "INT NOT NULL PRIMARY KEY" true true VNone [].
Definition student_class : Column := mkColumn "class" "INT NOT NULL" true false VNone [].
Definition student_tutor : Column := mkColumn "tutor" "INT" false false VNone [].

Definition classes : Table := mkTable "classes" [class_id] None.
Definition tutors : Table := mkTable "tutors" [tutor_id] None.
Definition students : Table :=
  mkTable "students"
    [mkColumn "id" "INT NOT NULL PRIMARY KEY" true true VNone []; student_class; student_tutor]
    None.

Definition school : Database := mkDatabase "school" [students; classes; tutors].

Definition db_table (d : Database) (t : table_like) : result Table :=
  match t with
  | TTable tb => Ok tb
  | TName n =>
      match filter (λ tb, table_name tb = n) (tables d) with
      | tb :: _ => Ok tb
      | [] => Raise (RuntimeError "Table not found.")
      end
  | TNone => Raise (RuntimeError "Table not found.")
  end.

Definition table_column (tb : Table) (name : string) : result Column :=
  match filter (λ c, column_name c = name) (columns tb) with
  | c :: _ => Ok c
  | [] => Raise (RuntimeError "Column not found.")
  end.

Definition parent_links (tb : Table) : result (list link) :=
  Ok (if bool_decide (tb = students)
      then [(classes, (student_class, class_id)); (tutors, (student_tutor, tutor_id))]
      else []).

Definition child_links (tb : Table) : result (list link) := Ok [].

Definition unbound_view : DataView := mkDataView school None [] None [] [] None None true true.
Definition student_view : DataView :=
  mkDataView school (Some students) [] None [] [] None None true true.

End ExView.

(** The computation stays within the bound on nested calls: run from [s],
    it does not raise [RecursionError]. *)
Definition returns {S A} (m : ST S A) (s : S) : Prop :=
  ∀ r s', m s = (r, s') → r ≠ Raise RecursionError.


(** The record world of the example declarations. *)
Definition example_rworld : rworld := set_types example_world init_rworld.

(** ** What the caches record of a derivation

    A second invariant, beside [wf]: every class in the cache of a
    derivation by length, by precision and scale, or by values holds the
    parameters of its key and nothing else in its namespace, and has the
    name and the [__TYPE_SQL__] that the derivation computes from them. *)

(** The namespace that the class got when it was created. *)
Definition namespace_of (h : class_heap) (c : cid) : option (list (string * pyval)) :=
  cls_ns <$> h !! c.

Definition length_entry_ok (h : class_heap) (e : cid * Z * cid) : Prop :=
  name_of h e.2 = name_of h e.1.1 +:+ "_len" +:+ pretty e.1.2 ∧
  match SQLType.__type_sql__ (bare h) e.1.1 with
  | Ok s => namespace_of h e.2
            = Some [("_TYPE_HAS_KEY_", VBool true); ("_MAX_LEN_", VInt e.1.2);
                    ("__TYPE_SQL__", VStr (s +:+ "(" +:+ pretty e.1.2 +:+ ")"))]
  | Raise _ => False
  end.

Definition decimal_entry_ok (h : class_heap) (e : cid * (Z * Z) * cid) : Prop :=
  namespace_of h e.2
  = Some [("_TYPE_HAS_KEY_", VBool true); ("_TYPE_DECI_PREC_", VInt e.1.2.1);
          ("_TYPE_DECI_SCALE_", VInt e.1.2.2)] ∧
  e.1.1 < length h ∧
  name_of h e.2 = name_of h e.1.1 +:+ "_" +:+ pretty e.1.2.1 +:+ "_" +:+ pretty e.1.2.2.

Definition values_entry_ok (h : class_heap) (e : cid * list string * cid) : Prop :=
  name_of h e.2 = name_of h e.1.1 +:+ "_vals_" +:+ join "_" e.1.2 ∧
  match SQLType.__type_sql__ (bare h) e.1.1 with
  | Ok s => namespace_of h e.2
            = Some [("_TYPE_HAS_KEY_", VBool true); ("_TYPE_VALUES_", VStrTuple e.1.2);
                    ("__TYPE_SQL__",
                     VStr (s +:+ "(" +:+ join ", " (map (λ v, "'" +:+ v +:+ "'") e.1.2)
                             +:+ ")"))]
  | Raise _ => False
  end.

Record recorded (w : world) : Prop := mk_recorded {
  rec_length : Forall (length_entry_ok (heap w)) (cache_length w);
  rec_decimal : Forall (decimal_entry_ok (heap w)) (cache_decimal w);
  rec_values : Forall (values_entry_ok (heap w)) (cache_values w)
}.

#[global] Instance length_entry_ok_dec h e : Decision (length_entry_ok h e).
Proof.
  unfold length_entry_ok. destruct (SQLType.__type_sql__ (bare h) e.1.1); apply _.
Defined.
#[global] Instance decimal_entry_ok_dec h e : Decision (decimal_entry_ok h e).
Proof. unfold decimal_entry_ok. apply _. Defined.
#[global] Instance values_entry_ok_dec h e : Decision (values_entry_ok h e).
Proof.
  unfold values_entry_ok. destruct (SQLType.__type_sql__ (bare h) e.1.1); apply _.
Defined.

Definition recorded_all (w : world) : Prop :=
  Forall (length_entry_ok (heap w)) (cache_length w) ∧
  Forall (decimal_entry_ok (heap w)) (cache_decimal w) ∧
  Forall (values_entry_ok (heap w)) (cache_values w).

Lemma recorded_all_recorded w : recorded_all w ↔ recorded w.
Proof.
  split.
  - intros (?&?&?). by constructor.
  - intros []. by repeat split.
Qed.

#[global] Instance recorded_dec w : Decision (recorded w) :=
  match decide (recorded_all w) with
  | left H => left (proj1 (recorded_all_recorded w) H)
  | right H => right (λ Hr, H (proj2 (recorded_all_recorded w) Hr))
  end.

(** The check of [recorded] as a boolean. *)
Definition recordedb (w : world) : bool := bool_decide (recorded w).

(** The three caches of the derivations by parameter are the same. *)
Definition same_params (w w' : world) : Prop :=
  cache_length w' = cache_length w ∧ cache_decimal w' = cache_decimal w ∧
  cache_values w' = cache_values w.

(** ** More of sqltypebases.py: creating and validating values *)

Module SQLTypeWithKey.

(** [cls.__new__(cls, ...)], from the class of the method resolution order
    of [cls] that the search has come to.  [DecimalType] and
    [SQLTypeWithKey] define [__new__]: each makes its check on [cls] and
    goes on with [super().__new__(cls)], the next class that defines it;
    [object.__new__(cls)], at the end, returns the object. *)
Fixpoint new_from (w : world) (cls : cid) (mro : list cid) : result unit :=
  match mro with
  | [] => Ok ()
  | c :: rest =>
      if decide (c = Cls.DecimalType) then
        match getattr w cls "_TYPE_DECI_PREC_" with
        | None => Raise AttributeError
        | Some pr =>
            if negb (truthy pr)
            then Raise (RuntimeError "Precisoin and/or scale is not specified.")
            else
              match getattr w cls "_TYPE_DECI_SCALE_" with
              | None => Raise AttributeError
              | Some sc =>
                  if negb (truthy sc)
                  then Raise (RuntimeError "Precisoin and/or scale is not specified.")
                  else new_from w cls rest
              end
        end
      else if decide (c = Cls.SQLTypeWithKey) then
        match getattr w cls "_TYPE_HAS_KEY_" with
        | None => Raise AttributeError
        | Some key =>
            if negb (truthy key)
            then Raise (RuntimeError "Generic type key is not specified.")
            else new_from w cls rest
        end
      else new_from w cls rest
  end.

Definition __new__ (w : world) (cls : cid) : result unit :=
  new_from w cls (mro_of (heap w) cls).

End SQLTypeWithKey.

(** [type(v).__name__] *)
Definition type_name (v : pyval) : string :=
  match v with
  | VNone => "NoneType"
  | VBool _ => "bool"
  | VInt _ => "int"
  | VStr _ => "str"
  | VClass _ => "type"
  | VStrTuple _ => "tuple"
  end.

(** [isinstance(v, t)] for a class [t]: the classes of [bool], [type] and
    [tuple] are no classes of the source; a [bool] is an [int]. *)
Definition isinstance (v : pyval) (t : cid) : bool :=
  match v with
  | VNone => bool_decide (t = Cls.NoneType ∨ t = object_)
  | VBool _ | VInt _ => bool_decide (t = Cls.int ∨ t = object_)
  | VStr _ => bool_decide (t = Cls.str ∨ t = object_)
  | VClass _ | VStrTuple _ => bool_decide (t = object_)
  end.

(** An integer or a boolean as a number. *)
Definition as_int (v : pyval) : option Z :=
  match v with
  | VInt z => Some z
  | VBool b => Some (if b then 1 else 0)%Z
  | _ => None
  end.

(** [a <= b] for tuples of texts: by the first pair of different elements,
    else by length. *)
Fixpoint tuple_le (a b : list string) : bool :=
  match a, b with
  | [], _ => true
  | _ :: _, [] => false
  | x :: a', y :: b' => if String.eqb x y then tuple_le a' b' else String.ltb x y
  end.

(** [a <= b] *)
Definition py_le (a b : pyval) : result bool :=
  match as_int a, as_int b with
  | Some x, Some y => Ok (x <=? y)%Z
  | _, _ =>
      match a, b with
      | VStr s, VStr t => Ok (String.leb s t)
      | VStrTuple l, VStrTuple m => Ok (tuple_le l m)
      | _, _ =>
          Raise (TypeError ("'<=' not supported between instances of '" +:+ type_name a
                            +:+ "' and '" +:+ type_name b +:+ "'"))
      end
  end.

(** [len(v)] *)
Definition py_len (v : pyval) : result Z :=
  match v with
  | VStr s => Ok (Z.of_nat (String.length s))
  | VStrTuple l => Ok (Z.of_nat (length l))
  | _ => Raise (TypeError ("object of type '" +:+ type_name v +:+ "' has no len()"))
  end.

(** The four definitions of [_validate_value]: in [SQLType],
    [IntegerType], [CharType] and [TextType]. *)
Inductive validator :=
  | ValidateAny
  | ValidateRange
  | ValidateLength
  | ValidateOptionalLength.

Definition defines_validate_value (c : cid) : option validator :=
  if decide (c = Cls.SQLType) then Some ValidateAny
  else if decide (c = Cls.IntegerType) then Some ValidateRange
  else if decide (c = Cls.CharType) then Some ValidateLength
  else if decide (c = Cls.TextType) then Some ValidateOptionalLength
  else None.

(** The definition that [cls._validate_value] resolves to: that of the
    first class of the method resolution order that has one. *)
Fixpoint resolve_validate_value (mro : list cid) : option validator :=
  match mro with
  | [] => None
  | c :: rest =>
      match defines_validate_value c with
      | Some f => Some f
      | None => resolve_validate_value rest
      end
  end.

Module Validate.

(** [cls.name] *)
Definition attr (w : world) (cls : cid) (name : string) : result pyval :=
  match getattr w cls name with
  | Some v => Ok v
  | None => Raise AttributeError
  end.

(** [cls._MIN_VALUE_ <= v and v <= cls._MAX_VALUE_] *)
Definition range (w : world) (cls : cid) (v : pyval) : result pyval :=
  match attr w cls "_MIN_VALUE_" with
  | Raise e => Raise e
  | Ok lo =>
      match py_le lo v with
      | Raise e => Raise e
      | Ok false => Ok (VBool false)
      | Ok true =>
          match attr w cls "_MAX_VALUE_" with
          | Raise e => Raise e
          | Ok hi =>
              match py_le v hi with
              | Raise e => Raise e
              | Ok b => Ok (VBool b)
              end
          end
      end
  end.

(** [len(v) <= cls._MAX_LEN_] *)
Definition max_len (w : world) (cls : cid) (v : pyval) : result pyval :=
  match py_len v with
  | Raise e => Raise e
  | Ok n =>
      match attr w cls "_MAX_LEN_" with
      | Raise e => Raise e
      | Ok m =>
          match py_le (VInt n) m with
          | Raise e => Raise e
          | Ok b => Ok (VBool b)
          end
      end
  end.

(** [not cls._MAX_LEN_ or len(v) <= cls._MAX_LEN_] *)
Definition optional_max_len (w : world) (cls : cid) (v : pyval) : result pyval :=
  match attr w cls "_MAX_LEN_" with
  | Raise e => Raise e
  | Ok m => if negb (truthy m) then Ok (VBool true) else max_len w cls v
  end.

Definition _validate_value (w : world) (cls : cid) (v : pyval) : result pyval :=
  match resolve_validate_value (mro_of (heap w) cls) with
  | None => Raise AttributeError
  | Some ValidateAny => Ok (VBool true)
  | Some ValidateRange => range w cls v
  | Some ValidateLength => max_len w cls v
  | Some ValidateOptionalLength => optional_max_len w cls v
  end.

(** [validate_value]: the two assertions, on [cls._PY_TYPE_] and in
    [_isinstance], then [_isinstance(v, cls._PY_TYPE_) and
    cls._validate_value(v)]. *)
Definition validate_value (w : world) (cls : cid) (v : pyval) : result pyval :=
  if negb (SQLType.has_method w cls) then Raise AttributeError
  else
    match attr w cls "_PY_TYPE_" with
    | Raise e => Raise e
    | Ok VNone => Raise AssertionError
    | Ok (VClass t) => if isinstance v t then _validate_value w cls v else Ok (VBool false)
    | Ok _ => Raise AssertionError
    end.

End Validate.

(** ** connector.py *)

(** The library [mysql.connector] is not part of the sources.  A
    connection of the library is known by its identity; what the library
    returns or raises for a call is left open ([respond], below, may
    depend on all the calls made so far).  The calls made to the library
    are kept, in order. *)
Inductive lib_call :=
  | LibConnect (args : list pyval) (kwargs : list (string * pyval))
  | LibCommit (cnx : nat)
  | LibCursor (cnx : nat) (args : list pyval) (kwargs : list (string * pyval))
  | LibClose (cnx : nat).

(** The attributes of a [MySQLConnection]; [cnx] is [None] once the
    connection is closed. *)
Record MySQLConnection := mkMySQLConnection {
  cnx : option nat;
  cursor_dict : pyval;
  cursor_ntpl : pyval
}.

(** The connection object and the calls the library has received. *)
Record conn_state := mkConnState {
  conn : MySQLConnection;
  lib_calls : list lib_call
}.

Module MySQLConnection.
Section methods.

Variable respond : list lib_call → lib_call → result nat.

Definition library (c : lib_call) : ST conn_state nat :=
  λ s, (respond (lib_calls s) c, mkConnState (conn s) (lib_calls s ++ [c])).

(** The constructor, with its positional arguments, the two flags and the
    other keyword arguments, from the calls made so far. *)
Definition __init__ (args : list pyval) (dictionary named_tuple : pyval)
    (kwargs : list (string * pyval)) (calls : list lib_call)
  : result MySQLConnection * list lib_call :=
  match respond calls (LibConnect args kwargs) with
  | Raise e => (Raise e, calls ++ [LibConnect args kwargs])
  | Ok c => (Ok (mkMySQLConnection (Some c) dictionary named_tuple),
             calls ++ [LibConnect args kwargs])
  end.

(** [self.cnx.name(...)]: [None] has no such attribute. *)
Definition with_cnx {A} (f : nat → ST conn_state A) : ST conn_state A :=
  λ s, match cnx (conn s) with
       | None => (Raise AttributeError, s)
       | Some c => f c s
       end.

Definition commit : ST conn_state nat :=
  with_cnx (λ c, library (LibCommit c)).

Definition cursor (args : list pyval) (kwargs : list (string * pyval)) : ST conn_state nat :=
  let* kwargs := gets (λ s, if truthy (cursor_dict (conn s))
                            then dict_set "dictionary" (VBool true) kwargs
                            else kwargs) in
  let* kwargs := gets (λ s, if truthy (cursor_ntpl (conn s))
                            then dict_set "named_tuple" (VBool true) kwargs
                            else kwargs) in
  with_cnx (λ c, library (LibCursor c args kwargs)).

Definition close : ST conn_state unit :=
  λ s, match cnx (conn s) with
       | None => (Ok (), s)
       | Some c =>
           match library (LibClose c) s with
           | (Raise e, s') => (Raise e, s')
           | (Ok _, s') =>
               (Ok (), mkConnState (mkMySQLConnection None (cursor_dict (conn s'))
                                      (cursor_ntpl (conn s')))
                         (lib_calls s'))
           end
       end.

Definition __exit__ : ST conn_state unit := close.

End methods.
End MySQLConnection.

(** * Properties *)

Lemma wf_init_world : wfb init_world = true.
Proof. vm_compute. reflexivity. Qed.

(** ** The cache *)

Section lru_facts.
Context {K V : Type} `{EqDecision K}.
Implicit Types (c : list (K * V)) (k : K) (v : V).

Lemma lru_lookup_elem_of k v c : lru.lookup k c = Some v → (k, v) ∈ c.
Proof.
  induction c as [|[k' v'] c IH]; simpl; [done|].
  destruct (decide (k' = k)) as [->|]; intros Hl.
  - injection Hl as ->. left.
  - right. by apply IH.
Qed.

Lemma lru_remove_perm k v c :
  lru.lookup k c = Some v → c ≡ₚ (k, v) :: lru.remove k c.
Proof.
  induction c as [|[k' v'] c IH]; simpl; [done|].
  destruct (decide (k' = k)) as [->|]; intros Hl.
  - by injection Hl as ->.
  - rewrite (IH Hl) at 1. apply Permutation_swap.
Qed.

Lemma lru_touch_perm k v c : lru.lookup k c = Some v → lru.touch k v c ≡ₚ c.
Proof. intros Hl. unfold lru.touch. by rewrite <- lru_remove_perm. Qed.

Lemma lru_lookup_touch k v c : lru.lookup k (lru.touch k v c) = Some v.
Proof. unfold lru.touch. simpl. by rewrite decide_True. Qed.

Lemma lru_store_miss k v c :
  lru.lookup k c = None →
  lru.store k v c
  = (k, v) :: (if decide (List.length c < lru.maxsize) then c else removelast c).
Proof. intros Hl. unfold lru.store. rewrite Hl. by destruct (decide _). Qed.

Lemma lru_lookup_store k v c :
  lru.lookup k c = None → lru.lookup k (lru.store k v c) = Some v.
Proof.
  intros Hl. rewrite lru_store_miss by done. simpl. by rewrite decide_True.
Qed.

Lemma removelast_sublist {A} (l : list A) : removelast l `sublist_of` l.
Proof.
  induction l as [|x [|y l] IH]; simpl; [done| |].
  - by apply sublist_cons, sublist_nil_l.
  - by apply sublist_skip.
Qed.

Lemma lru_store_sublist k v c :
  lru.store k v c `sublist_of` (k, v) :: c.
Proof.
  unfold lru.store. destruct (lru.lookup k c).
  - by apply sublist_cons.
  - destruct (decide _); [done|]. apply sublist_skip, removelast_sublist.
Qed.

Lemma lru_Forall_touch (P : K * V → Prop) k v c :
  lru.lookup k c = Some v → Forall P c → Forall P (lru.touch k v c).
Proof. intros Hl HP. by rewrite (lru_touch_perm _ _ _ Hl). Qed.

Lemma lru_Forall_store (P : K * V → Prop) k v c :
  P (k, v) → Forall P c → Forall P (lru.store k v c).
Proof.
  intros Hkv HP. apply Forall_forall. intros e He.
  eapply elem_of_sublist in He; [|apply lru_store_sublist].
  apply elem_of_cons in He as [->|He]; [done|].
  by eapply Forall_forall in HP.
Qed.

Lemma lru_lookup_None k c : lru.lookup k c = None ↔ k ∉ c.*1.
Proof.
  induction c as [|[k' v'] c IH]; simpl.
  - split; [intros _ ?%elem_of_nil|]; done.
  - destruct (decide (k' = k)) as [->|Hne].
    + split; [done|]. intros []. left.
    + rewrite IH, not_elem_of_cons. split; [intros ?; split; [congruence|done]|by intros [_ ?]].
Qed.

Lemma lru_remove_sublist k c : lru.remove k c `sublist_of` c.
Proof.
  induction c as [|[k' v'] c IH]; simpl; [done|].
  destruct (decide (k' = k)); [by apply sublist_cons|by apply sublist_skip].
Qed.

Lemma lru_lookup_None_touch k k' v c :
  k ≠ k' → lru.lookup k c = None → lru.lookup k (lru.touch k' v c) = None.
Proof.
  rewrite !lru_lookup_None. intros Hne Hk [->|Hin]%elem_of_cons; [done|].
  apply Hk. eapply elem_of_sublist; [done|]. apply fmap_sublist, lru_remove_sublist.
Qed.

Lemma lru_lookup_None_store k k' v c :
  k ≠ k' → lru.lookup k c = None → lru.lookup k (lru.store k' v c) = None.
Proof.
  rewrite !lru_lookup_None. intros Hne Hk Hin.
  eapply elem_of_sublist in Hin; [|apply fmap_sublist, lru_store_sublist].
  apply elem_of_cons in Hin as [->|Hin]; done.
Qed.

End lru_facts.

Lemma lru_NoDup_touch {K} `{EqDecision K} (k : K) (v : cid) c :
  lru.lookup k c = Some v → NoDup c.*2 → NoDup (lru.touch k v c).*2.
Proof. intros Hl HN. by rewrite (lru_touch_perm _ _ _ Hl). Qed.

Lemma lru_NoDup_store {K} `{EqDecision K} (k : K) (v : cid) c :
  v ∉ c.*2 → NoDup c.*2 → NoDup (lru.store k v c).*2.
Proof.
  intros Hv HN. eapply (sublist_NoDup _ ((k, v) :: c).*2).
  - simpl. by constructor.
  - apply fmap_sublist, lru_store_sublist.
Qed.

(** ** The linearisation *)

Section c3_facts.
Import C3.

Lemma in_some_tail_false cand seqs s :
  in_some_tail cand seqs = false → s ∈ seqs → cand ∉ tail s.
Proof.
  unfold in_some_tail. intros Hf Hs Hin.
  assert (existsb (λ s, bool_decide (cand ∈ tail s)) seqs = true) as Ht; [|congruence].
  apply existsb_exists. exists s. split; [by apply list_elem_of_In|].
  by apply bool_decide_eq_true.
Qed.

Lemma find_cand_Some seqs all cand :
  find_cand seqs all = Some cand →
  (∃ t, cand :: t ∈ seqs) ∧ in_some_tail cand all = false.
Proof.
  induction seqs as [|s seqs IH]; simpl; [done|].
  destruct s as [|h t].
  - intros Hf. destruct (IH Hf) as [[t Ht] ?]. split; [|done]. exists t. by right.
  - destruct (in_some_tail h all) eqn:Hh.
    + intros Hf. destruct (IH Hf) as [[t' Ht] ?]. split; [|done]. exists t'. by right.
    + intros [= <-]. split; [|done]. exists t. left.
Qed.

Lemma elem_of_filter_nonempty (s : list cid) seqs :
  s ∈ List.filter nonempty seqs ↔ s ∈ seqs ∧ s ≠ [].
Proof.
  rewrite !list_elem_of_In, filter_In. destruct s; simpl; split; intros [? ?]; by split.
Qed.

Lemma elem_of_drop_head x cand s : x ∈ drop_head cand s → x ∈ s.
Proof.
  destruct s as [|h t]; simpl; [done|].
  destruct (decide (h = cand)); [by right|done].
Qed.

Lemma elem_of_drop_head_ne x cand s : x ∈ s → x ≠ cand → x ∈ drop_head cand s.
Proof.
  destruct s as [|h t]; simpl; [done|].
  destruct (decide (h = cand)) as [->|]; [|done].
  intros [->|?]%elem_of_cons ?; done.
Qed.

Lemma merge_eq fuel seqs :
  merge fuel seqs
  = match List.filter nonempty seqs with
    | [] => Some []
    | s0 :: ne =>
        match fuel with
        | 0 => None
        | S fuel' =>
            match find_cand (s0 :: ne) (s0 :: ne) with
            | None => None
            | Some cand => cons cand <$> merge fuel' (map (drop_head cand) (s0 :: ne))
            end
        end
    end.
Proof. destruct fuel; reflexivity. Qed.


(** One round of the merge. *)
Lemma merge_inv fuel seqs l :
  merge fuel seqs = Some l →
  List.filter nonempty seqs = [] ∧ l = [] ∨
  ∃ fuel' cand l',
    fuel = S fuel' ∧ l = cand :: l' ∧
    find_cand (List.filter nonempty seqs) (List.filter nonempty seqs) = Some cand ∧
    merge fuel' (map (drop_head cand) (List.filter nonempty seqs)) = Some l'.
Proof.
  rewrite merge_eq.
  destruct (List.filter nonempty seqs) as [|s0 ne] eqn:Hne.
  { intros [= <-]. by left. }
  destruct fuel as [|fuel']; [done|].
  destruct (find_cand (s0 :: ne) (s0 :: ne)) as [cand|] eqn:Hc; [|done].
  destruct (merge fuel' _) as [l'|] eqn:Hm; [|done].
  intros [= <-]. right. by exists fuel', cand, l'.
Qed.

Lemma filter_nonempty_nil (s : list cid) seqs :
  List.filter nonempty seqs = [] → s ∈ seqs → s = [].
Proof.
  intros Hne Hs. destruct s as [|h t]; [done|].
  assert (h :: t ∈ List.filter nonempty seqs) as Hin
    by (by apply elem_of_filter_nonempty).
  rewrite Hne in Hin. by apply elem_of_nil in Hin.
Qed.

(** Every class of the merge comes from one of the sequences. *)
Lemma merge_sound fuel seqs l x :
  merge fuel seqs = Some l → x ∈ l → ∃ s, s ∈ seqs ∧ x ∈ s.
Proof.
  revert seqs l. induction fuel as [|fuel IH]; intros seqs l Hm;
    apply merge_inv in Hm as [[_ ->]|(fuel' & cand & l' & Hf & -> & Hc & Hm)];
    try (by intros ?%elem_of_nil); [done|].
  injection Hf as <-.
  intros [->|Hx]%elem_of_cons.
  - apply find_cand_Some in Hc as [[t Ht] _].
    apply elem_of_filter_nonempty in Ht as [Ht _].
    exists (cand :: t). split; [done|left].
  - destruct (IH _ _ Hm Hx) as (s & Hs & Hxs).
    apply list_elem_of_fmap in Hs as (s' & -> & Hs').
    apply elem_of_filter_nonempty in Hs' as [Hs' _].
    exists s'. split; [done|]. by eapply elem_of_drop_head.
Qed.

(** Every class of every sequence is in the merge. *)
Lemma merge_complete fuel seqs l s x :
  merge fuel seqs = Some l → s ∈ seqs → x ∈ s → x ∈ l.
Proof.
  revert seqs l s. induction fuel as [|fuel IH]; intros seqs l s Hm Hs Hx;
    apply merge_inv in Hm as [[Hne ->]|(fuel' & cand & l' & Hf & -> & Hc & Hm)];
    try (by rewrite (filter_nonempty_nil _ _ Hne Hs) in Hx; apply elem_of_nil in Hx);
    [done|].
  injection Hf as <-.
  destruct (decide (x = cand)) as [->|Hne']; [left|right].
  eapply (IH _ _ (drop_head cand s)); [done| |by apply elem_of_drop_head_ne].
  apply list_elem_of_fmap. exists s. split; [done|].
  apply elem_of_filter_nonempty. split; [done|]. intros ->. by apply elem_of_nil in Hx.
Qed.


End c3_facts.

(** ** The class heap *)

Lemma heap_ok_lookup h i k : heap_ok h → h !! i = Some k → class_ok h i k.
Proof.
  unfold heap_ok. rewrite Forall_lookup. intros Hok Hi.
  apply (Hok i (i, k)). by rewrite list_lookup_imap, Hi.
Qed.

Lemma heap_ok_intro h : (∀ i k, h !! i = Some k → class_ok h i k) → heap_ok h.
Proof.
  intros Hok. apply Forall_lookup. intros i [j k].
  rewrite list_lookup_imap. destruct (h !! i) as [k'|] eqn:Hi; [|done].
  intros [= <- <-]. by apply Hok.
Qed.

Lemma lookup_extends (h h' : class_heap) c :
  h `prefix_of` h' → c < length h → h' !! c = h !! c.
Proof. intros [hx ->] Hc. by apply lookup_app_l. Qed.

Lemma mro_of_lt h c x : x ∈ mro_of h c → c < length h.
Proof.
  unfold mro_of. destruct (h !! c) eqn:Hc; [|by intros ?%elem_of_nil].
  intros _. by eapply lookup_lt_Some.
Qed.

Lemma issubclass_lt h c b : issubclass h c b = true → c < length h.
Proof. unfold issubclass. intros ?%bool_decide_eq_true. by eapply mro_of_lt. Qed.

Lemma mro_of_closed h c x : heap_ok h → x ∈ mro_of h c → x ≤ c.
Proof.
  unfold mro_of. intros Hok. destruct (h !! c) as [k|] eqn:Hc; [|by intros ?%elem_of_nil].
  destruct (heap_ok_lookup _ _ _ Hok Hc) as [Hle _].
  intros Hx. by eapply Forall_forall in Hle.
Qed.

Section extends.
Context (h h' : class_heap) (Hext : h `prefix_of` h').

Lemma mro_of_extends c : c < length h → mro_of h' c = mro_of h c.
Proof. intros Hc. unfold mro_of. by rewrite (lookup_extends h h'). Qed.

Lemma name_of_extends c : c < length h → name_of h' c = name_of h c.
Proof. intros Hc. unfold name_of. by rewrite (lookup_extends h h'). Qed.

Lemma issubclass_extends c b : c < length h → issubclass h' c b = issubclass h c b.
Proof. intros Hc. unfold issubclass. by rewrite mro_of_extends. Qed.

Lemma is_child_class_extends c b :
  c < length h → is_child_class h' c b = is_child_class h c b.
Proof. intros Hc. unfold is_child_class. by rewrite issubclass_extends. Qed.

Lemma static_attr_extends c name :
  c < length h → static_attr h' c name = static_attr h c name.
Proof. intros Hc. unfold static_attr. by rewrite (lookup_extends h h'). Qed.

Lemma subclass_shape_extends d bases :
  subclass_shape h d bases → subclass_shape h' d bases.
Proof.
  unfold subclass_shape. destruct (h !! d) as [k|] eqn:Hd; [|done].
  assert (h' !! d = Some k) as ->; [|done].
  rewrite (lookup_extends h h'); [done|done|by eapply lookup_lt_Some].
Qed.

End extends.

Lemma subclass_shape_lt h d bases : subclass_shape h d bases → d < length h.
Proof.
  unfold subclass_shape. destruct (h !! d) eqn:Hd; [|done].
  intros _. by eapply lookup_lt_Some.
Qed.

Lemma static_attr_lt h d name v : static_attr h d name = Some v → d < length h.
Proof.
  unfold static_attr. destruct (h !! d) eqn:Hd; [|done].
  intros _. by eapply lookup_lt_Some.
Qed.

(** Attribute lookup does not depend on classes created later. *)
Lemma mro_lookup_extends w w' name l :
  heap w `prefix_of` heap w' → attrs w' = attrs w →
  (∀ x, x ∈ l → x < length (heap w)) →
  mro_lookup w' name l = mro_lookup w name l.
Proof.
  intros Hext Hat. induction l as [|c l IH]; simpl; [done|]. intros Hl.
  unfold own_attr. rewrite Hat, (lookup_extends (heap w) (heap w')); try done.
  - rewrite IH; [done|]. intros x Hx. apply Hl. by right.
  - apply Hl. left.
Qed.

Lemma getattr_extends w w' c name :
  heap_ok (heap w) → heap w `prefix_of` heap w' → attrs w' = attrs w →
  c < length (heap w) →
  getattr w' c name = getattr w c name.
Proof.
  intros Hok Hext Hat Hc. unfold getattr.
  rewrite (mro_of_extends _ _ Hext) by done.
  apply mro_lookup_extends; try done.
  intros x Hx. apply (mro_of_closed _ _ _ Hok) in Hx. lia.
Qed.

Lemma type_sql_extends w w' c :
  heap_ok (heap w) → heap w `prefix_of` heap w' → attrs w' = attrs w →
  c < length (heap w) →
  SQLType.__type_sql__ w' c = SQLType.__type_sql__ w c.
Proof.
  intros Hok Hext Hat Hc. unfold SQLType.__type_sql__, SQLType.has_method.
  rewrite !(issubclass_extends _ _ Hext), (getattr_extends w w'),
    (name_of_extends _ _ Hext); done.
Qed.

(** Attributes other than those [default] and [comment] assign are read
    from the class bodies alone; so are all attributes of classes that do
    not inherit from [SQLType]. *)
Lemma own_attr_static w c name :
  attrs_ok w → assigned_attr name = false →
  own_attr w c name = static_attr (heap w) c name.
Proof.
  intros Hat Hname. unfold own_attr, static_attr.
  destruct (attrs w !! (c, name)) eqn:Hl; [|done].
  apply Hat in Hl as [Hl _]. simpl in Hl. congruence.
Qed.


Lemma own_attr_bare h c name : own_attr (bare h) c name = static_attr h c name.
Proof. unfold own_attr, static_attr. simpl. by rewrite lookup_empty. Qed.

Lemma mro_lookup_bare w name l :
  attrs_ok w → assigned_attr name = false →
  mro_lookup w name l = mro_lookup (bare (heap w)) name l.
Proof.
  intros Hat Hname. induction l as [|c l IH]; simpl; [done|].
  by rewrite own_attr_static, own_attr_bare, IH.
Qed.

Lemma getattr_bare w c name :
  attrs_ok w → assigned_attr name = false →
  getattr w c name = getattr (bare (heap w)) c name.
Proof. intros. unfold getattr. by apply mro_lookup_bare. Qed.

Lemma type_sql_bare w c :
  attrs_ok w → SQLType.__type_sql__ w c = SQLType.__type_sql__ (bare (heap w)) c.
Proof.
  intros Hat. unfold SQLType.__type_sql__, SQLType.has_method.
  by rewrite (getattr_bare w).
Qed.

Lemma type_sql_ok_lt w c s : SQLType.__type_sql__ w c = Ok s → c < length (heap w).
Proof.
  unfold SQLType.__type_sql__, SQLType.has_method.
  destruct (issubclass (heap w) c Cls.SQLType) eqn:Hs; [|done].
  intros _. by eapply issubclass_lt.
Qed.

Lemma getattr_lt w c name v : getattr w c name = Some v → c < length (heap w).
Proof.
  unfold getattr, mro_of. destruct (heap w !! c) eqn:Hc; [|done].
  intros _. by eapply lookup_lt_Some.
Qed.

Lemma linearize_inv self bms bases mro :
  C3.linearize self bms bases = Some mro →
  ∃ l, mro = self :: l ∧
       C3.merge (C3.fuel_for (bms ++ [bases])) (bms ++ [bases]) = Some l.
Proof.
  unfold C3.linearize. destruct (C3.merge _ _) as [l|]; [|done].
  intros [= <-]. by exists l.
Qed.

Lemma new_class_inv name bases ns ann h r h' :
  new_class name bases ns ann h = (r, h') →
  (∃ e, r = Raise e ∧ h' = h) ∨
  ∃ mro, let bases' := match bases with [] => [object_] | _ => bases end in
    r = Ok (length h) ∧ h' = h ++ [PyClass name bases' mro ns ann] ∧
    Forall (λ b, b < length h) bases' ∧
    C3.linearize (length h) (map (mro_of h) bases') bases' = Some mro.
Proof.
  unfold new_class. cbv zeta.
  set (bases' := match bases with [] => [object_] | _ => bases end).
  destruct (forallb (λ b : nat, bool_decide (b < length h)) bases') eqn:Hb; simpl; [|intros [= <- <-]; left; eauto].
  destruct (bool_decide (NoDup bases')); simpl; [|intros [= <- <-]; left; eauto].
  destruct (C3.linearize _ _ _) as [mro|] eqn:Hl; intros [= <- <-]; [|left; eauto].
  right. exists mro. split; [done|]. split; [done|]. split; [|done].
  apply Forall_forall. intros b Hin.
  rewrite forallb_forall in Hb. apply list_elem_of_In, Hb in Hin.
  by apply bool_decide_eq_true in Hin.
Qed.

Lemma map_mro_of_extends (h h' : class_heap) bases n :
  h `prefix_of` h' → n ≤ length h → Forall (λ b, b < n) bases →
  map (mro_of h') bases = map (mro_of h) bases.
Proof.
  intros Hext Hn Hb. apply map_ext_in. intros b Hin%list_elem_of_In.
  apply (mro_of_extends _ _ Hext). eapply Forall_forall in Hb; [|done]. lia.
Qed.

Lemma class_ok_extends (h h' : class_heap) i k :
  h `prefix_of` h' → i < length h → class_ok h i k → class_ok h' i k.
Proof.
  intros Hext Hi [Hle Hk]. split; [done|].
  destruct Hk as [?|(? & ? & Hb & Hl)]; [by left|right].
  repeat split; try done.
  rewrite (map_mro_of_extends h h' _ i); [done..|lia|done].
Qed.

Lemma heap_ok_snoc h k :
  heap_ok h → class_ok (h ++ [k]) (length h) k → heap_ok (h ++ [k]).
Proof.
  intros Hok Hk. apply heap_ok_intro. intros i k' Hi.
  apply lookup_app_Some in Hi as [Hi|[Hle Hi]].
  - eapply class_ok_extends; [by apply prefix_app_r| |by apply heap_ok_lookup].
    by eapply lookup_lt_Some.
  - apply list_lookup_singleton_Some in Hi as [Hi <-].
    by replace i with (length h) by lia.
Qed.

Lemma new_class_heap_ok name bases ns ann h d h' :
  heap_ok h → new_class name bases ns ann h = (Ok d, h') → heap_ok h'.
Proof.
  intros Hok [(e & ? & _)|(mro & Hnew)]%new_class_inv; [done|].
  destruct Hnew as (_ & -> & Hb & Hl).
  set (bases' := match bases with [] => [object_] | _ => bases end) in *.
  assert (bases' ≠ []) as Hne by (unfold bases'; by destruct bases).
  apply heap_ok_snoc; [done|]. split; simpl.
  - apply linearize_inv in Hl as (l & -> & Hm). constructor; [done|].
    apply Forall_forall. intros x Hx.
    destruct (merge_sound _ _ _ _ Hm Hx) as (s & Hs & Hxs).
    apply elem_of_app in Hs as [Hs|Hs%list_elem_of_singleton].
    + apply list_elem_of_fmap in Hs as (b & -> & Hbin).
      apply (mro_of_closed _ _ _ Hok) in Hxs.
      eapply Forall_forall in Hb; [|done]. lia.
    + subst s. eapply Forall_forall in Hb; [|done]. lia.
  - right. repeat split; try done.
    + destruct bases' as [|b ?]; [done|]. inv Hb. lia.
    + rewrite (map_mro_of_extends h (h ++ _) _ (length h)); try done.
      by apply prefix_app_r.
Qed.

Lemma new_class_extends name bases ns ann h r h' :
  new_class name bases ns ann h = (r, h') → h `prefix_of` h'.
Proof.
  intros [(e & _ & ->)|(mro & Hnew)]%new_class_inv; [done|].
  destruct Hnew as (_ & -> & _). by apply prefix_app_r.
Qed.

(** ** Well-formed worlds stay well-formed *)

Lemma sql_extends_extends (h h' : class_heap) d b cls :
  heap_ok h → h `prefix_of` h' → d < length h →
  sql_extends h d b cls → sql_extends h' d b cls.
Proof.
  intros Hok Hext Hd. unfold sql_extends.
  destruct (SQLType.__type_sql__ (bare h) b) as [sb|] eqn:Hb; [|done].
  destruct (getattr (bare h) cls "_TYPE_SQL_SUFFIX_") as [v|] eqn:Hs; [|done].
  rewrite (type_sql_extends (bare h) (bare h')), Hb; try done;
    [|by apply type_sql_ok_lt in Hb].
  rewrite (getattr_extends (bare h) (bare h')), Hs; try done;
    [|by apply getattr_lt in Hs].
  destruct v; try done. by rewrite (static_attr_extends h h').
Qed.

Lemma notnull_shape_extends (h h' : class_heap) b t :
  heap_ok h → h `prefix_of` h' →
  notnull_shape h b t → notnull_shape h' b t.
Proof.
  intros Hok Hext (Hs & Hb & Hsql). split; [|split].
  - by eapply subclass_shape_extends.
  - rewrite (static_attr_extends h h'); [done..|]. by eapply subclass_shape_lt.
  - destruct (SQLType.__type_sql__ (bare h) t) as [st|] eqn:Ht; [|done].
    rewrite (type_sql_extends (bare h) (bare h')), Ht; try done;
      [|by apply type_sql_ok_lt in Ht].
    rewrite (static_attr_extends h h'); [done..|]. by eapply subclass_shape_lt.
Qed.

Lemma ensures_nullable_extends (h h' : class_heap) cls :
  heap_ok h → h `prefix_of` h' → cls < length h →
  ensures_nullable h' cls = ensures_nullable h cls.
Proof.
  intros Hok Hext Hc. unfold ensures_nullable.
  by rewrite (getattr_extends (bare h) (bare h')).
Qed.

Lemma normalized_extends (h h' : class_heap) p ens t b :
  heap_ok h → h `prefix_of` h' → t < length h →
  normalized h p ens t b → normalized h' p ens t b.
Proof.
  intros Hok Hext Ht Hn. unfold normalized.
  rewrite (is_child_class_extends h h'), !(issubclass_extends h h') by done.
  intros Hrec. specialize (Hn Hrec).
  destruct (_ && _); [|done]. by eapply notnull_shape_extends.
Qed.

Lemma subclass_shape_bases_lt h d bases b :
  heap_ok h → subclass_shape h d bases → b ∈ bases → b < d.
Proof.
  unfold subclass_shape. intros Hok. destruct (h !! d) as [k|] eqn:Hd; [|done].
  intros (<- & _) Hb.
  destruct (heap_ok_lookup _ _ _ Hok Hd) as [_ [[-> ->]|(_ & _ & Hlt & _)]].
  - by apply elem_of_nil in Hb.
  - by eapply Forall_forall in Hlt.
Qed.

Lemma withtype_entry_ok_extends (h h' : class_heap) al p e :
  heap_ok h → h `prefix_of` h' →
  withtype_entry_ok h al p e → withtype_entry_ok h' al p e.
Proof.
  intros Hok Hext. unfold withtype_entry_ok.
  destruct (static_attr h e.2 "_TYPE_BASE_") as [v|] eqn:Hb; [|done].
  pose proof (static_attr_lt _ _ _ _ Hb) as Hd.
  rewrite (static_attr_extends h h'), Hb by done.
  destruct v as [| | | |b|]; try done. intros (Hs & Hsql & Hw).
  assert (e.1.1 < length h) as Hcls.
  { eapply (subclass_shape_bases_lt _ _ _ e.1.1) in Hs; [lia|done|left]. }
  split; [by eapply subclass_shape_extends|].
  split; [by eapply sql_extends_extends|].
  intros Hal. destruct (Hw Hal) as [Ht Hw']. split.
  { apply prefix_length in Hext. lia. }
  rewrite (ensures_nullable_extends h h') by done.
  by eapply normalized_extends.
Qed.

Lemma ids_ok_extends {K} (h h' : class_heap) (c : list (K * cid)) :
  h `prefix_of` h' → ids_ok h c → ids_ok h' c.
Proof.
  intros Hext%prefix_length [Hlt Hnd]. split; [|done].
  eapply Forall_impl; [done|]. simpl. intros; lia.
Qed.

Lemma fk_entry_ok_extends (h h' : class_heap) e :
  h `prefix_of` h' → fk_entry_ok h e → fk_entry_ok h' e.
Proof.
  intros Hext (Hs & Hb & Hsql). pose proof (subclass_shape_lt _ _ _ Hs).
  split; [by eapply subclass_shape_extends|].
  by rewrite !(static_attr_extends h h').
Qed.

(** Projections of updated worlds. *)
Ltac wsimpl :=
  cbn [heap attrs cache_length cache_decimal cache_values cache_withtype cache_fk
       type_aliases default_not_null set_heap set_attrs set_cache_length
       set_cache_decimal set_cache_values set_cache_withtype set_cache_fk
       set_type_aliases setattr bare fst snd] in *.

(** Creating classes keeps the world well-formed. *)
Lemma wf_set_heap w h' :
  wf w → heap w `prefix_of` h' → heap_ok h' → wf (set_heap h' w).
Proof.
  intros [] Hext Hok'.
  assert (length init_heap ≤ length (heap w)) as Hlen.
  { rewrite <- wf_init0 at 1. rewrite length_take. lia. }
  constructor; wsimpl;
    try (by eapply ids_ok_extends);
    try (eapply Forall_impl; [done|]; cbv beta; intros;
         by eapply subclass_shape_extends).
  - destruct Hext as [hx ->]. by rewrite take_app_le.
  - done.
  - intros [c name] v Hl. wsimpl.
    apply wf_attrs0 in Hl as [? Hsub]. split; [done|].
    wsimpl. rewrite (issubclass_extends (heap w) h'); [done..|].
    by eapply issubclass_lt.
  - eapply Forall_impl; [done|]. intros. by eapply (withtype_entry_ok_extends (heap w)).
  - eapply Forall_impl; [done|]. intros. by eapply (fk_entry_ok_extends (heap w)).
Qed.

(** ** Running computations *)

Lemma bind_inv {S A B} (m : ST S A) (f : A → ST S B) s r s' :
  bind m f s = (r, s') →
  (∃ e, m s = (Raise e, s') ∧ r = Raise e) ∨
  (∃ a s1, m s = (Ok a, s1) ∧ f a s1 = (r, s')).
Proof.
  unfold bind. destruct (m s) as [[a|e] s1].
  - intros Hf. right. by exists a, s1.
  - intros [= <- <-]. left. by exists e.
Qed.

Lemma try_inv {S A} (f : S → result A) s r s' :
  try f s = (r, s') → r = f s ∧ s' = s.
Proof. by intros [= <- <-]. Qed.

Lemma gets_inv {S A} (f : S → A) s r s' :
  gets f s = (r, s') → r = Ok (f s) ∧ s' = s.
Proof. by intros [= <- <-]. Qed.

Lemma lift_inv {S A} (x : result A) (s : S) r s' :
  lift x s = (r, s') → r = x ∧ s' = s.
Proof. by intros [= <- <-]. Qed.

Lemma lru_cache_inv {S K V} `{EqDecision K} (get : S → list (K * V)) set f k s r s' :
  lru_cache get set f k s = (r, s') →
  (∃ v, lru.lookup k (get s) = Some v ∧ r = Ok v ∧ s' = set (lru.touch k v (get s)) s) ∨
  (lru.lookup k (get s) = None ∧
   ((∃ e, f k s = (Raise e, s') ∧ r = Raise e) ∨
    (∃ v s1, f k s = (Ok v, s1) ∧ r = Ok v ∧ s' = set (lru.store k v (get s1)) s1))).
Proof.
  unfold lru_cache. destruct (lru.lookup k (get s)) as [v|] eqn:Hl.
  - intros [= <- <-]. left. by exists v.
  - destruct (f k s) as [[v|e] s1]; intros [= <- <-]; right; (split; [done|]).
    + right. by exists v, s1.
    + left. by exists e.
Qed.

Lemma step_refl w : wf w → step w w.
Proof. by constructor. Qed.

Lemma step_trans w1 w2 w3 : step w1 w2 → step w2 w3 → step w1 w3.
Proof.
  intros [] []. constructor; try congruence. by etrans.
Qed.

Lemma new_subclass_inv cls name bases props w r w' :
  wf w →
  SQLTypeWithOptionalKey.new_subclass cls name bases props w = (r, w') →
  (∃ e, r = Raise e ∧ w' = w) ∨
  ∃ mro,
    let k := PyClass name (cls :: bases) mro
               (dict_update [("_TYPE_HAS_KEY_", VBool true)] props) [] in
    r = Ok (length (heap w)) ∧ w' = set_heap (heap w ++ [k]) w ∧
    C3.linearize (length (heap w)) (map (mro_of (heap w)) (cls :: bases)) (cls :: bases)
      = Some mro ∧
    Forall (λ b, b < length (heap w)) (cls :: bases) ∧
    step w w'.
Proof.
  intros Hwf. unfold SQLTypeWithOptionalKey.new_subclass, declare_class.
  destruct (new_class _ _ _ _ _) as [r0 h0] eqn:Hnew. intros [= <- <-].
  pose proof (new_class_inv _ _ _ _ _ _ _ Hnew) as [(e & -> & ->)|(mro & Hm)].
  { left. exists e. split; [done|]. by destruct w. }
  destruct Hm as (-> & -> & Hb & Hl). right. exists mro.
  do 4 (split; [done|]). constructor; try done.
  - apply wf_set_heap; [done|by apply prefix_app_r|].
    eapply new_class_heap_ok; [|done]. by destruct Hwf.
  - by apply prefix_app_r.
Qed.

Lemma created_lookup w w' d cls bases props :
  created w w' d cls bases props →
  ∃ name mro,
    heap w' !! d = Some (PyClass name (cls :: bases) mro
                           (dict_update [("_TYPE_HAS_KEY_", VBool true)] props) []) ∧
    C3.linearize d (map (mro_of (heap w)) (cls :: bases)) (cls :: bases) = Some mro.
Proof.
  intros (name & mro & -> & -> & Hl & _). exists name, mro. split; [|done].
  wsimpl. rewrite lookup_app_r, Nat.sub_diag; done.
Qed.

Lemma created_static w w' d cls bases props name :
  created w w' d cls bases props →
  static_attr (heap w') d name
  = assoc name (dict_update [("_TYPE_HAS_KEY_", VBool true)] props).
Proof.
  intros (n & mro & Hd & _)%created_lookup. unfold static_attr. by rewrite Hd.
Qed.

Lemma created_shape w w' d cls bases props :
  created w w' d cls bases props →
  assoc "_TYPE_HAS_DEFAULT_" (dict_update [("_TYPE_HAS_KEY_", VBool true)] props) = None →
  assoc "_TYPE_DEFAULT_VALUE_" (dict_update [("_TYPE_HAS_KEY_", VBool true)] props) = None →
  subclass_shape (heap w') d (cls :: bases).
Proof.
  intros (n & mro & Hd & _)%created_lookup ??. unfold subclass_shape. by rewrite Hd.
Qed.

Lemma created_length w w' d cls bases props :
  created w w' d cls bases props → length (heap w') = S d.
Proof.
  intros (name & mro & -> & -> & _). wsimpl. rewrite length_app. simpl. lia.
Qed.

Lemma created_step w w' d cls bases props :
  created w w' d cls bases props → step w w'.
Proof. by intros (name & mro & _ & _ & _ & _ & ?). Qed.

Lemma created_caches w w' d cls bases props :
  created w w' d cls bases props →
  cache_length w' = cache_length w ∧ cache_decimal w' = cache_decimal w ∧
  cache_values w' = cache_values w ∧ cache_withtype w' = cache_withtype w ∧
  cache_fk w' = cache_fk w.
Proof. by intros (name & mro & _ & -> & _). Qed.

Lemma new_subclass_created cls name bases props w r w' :
  wf w →
  SQLTypeWithOptionalKey.new_subclass cls name bases props w = (r, w') →
  (∃ e, r = Raise e ∧ w' = w) ∨ (∃ d, r = Ok d ∧ created w w' d cls bases props).
Proof.
  intros Hwf Hrun.
  destruct (new_subclass_inv _ _ _ _ _ _ _ Hwf Hrun)
    as [?|(mro & Hr & Hw & Hl & Hb & Hs)]; [by left|].
  right. exists (length (heap w)). split; [done|]. by exists name, mro.
Qed.

(** A fresh class is in no cache. *)
Lemma ids_ok_fresh {K} h (c : list (K * cid)) : ids_ok h c → length h ∉ c.*2.
Proof.
  intros [Hlt _] Hin. apply list_elem_of_fmap in Hin as (e & He & Hin).
  eapply Forall_forall in Hlt; [|done]. lia.
Qed.

Lemma ids_ok_touch {K} `{EqDecision K} h (c : list (K * cid)) k v :
  lru.lookup k c = Some v → ids_ok h c → ids_ok h (lru.touch k v c).
Proof.
  intros Hl [Hlt Hnd]. split; [by apply lru_Forall_touch|by apply lru_NoDup_touch].
Qed.

Lemma ids_ok_store {K} `{EqDecision K} (h h' : class_heap) (c : list (K * cid)) k :
  h `prefix_of` h' → length h < length h' → ids_ok h c →
  ids_ok h' (lru.store k (length h) c).
Proof.
  intros Hext Hlt Hok. pose proof (ids_ok_fresh _ _ Hok) as Hfresh.
  apply (ids_ok_extends _ _ _ Hext) in Hok as [Hlt' Hnd].
  split; [by apply lru_Forall_store|by apply lru_NoDup_store].
Qed.

Lemma wf_set_cache_length w c :
  wf w → ids_ok (heap w) c →
  Forall (λ e : cid * Z * cid, subclass_shape (heap w) e.2 [e.1.1]) c →
  wf (set_cache_length c w).
Proof. intros [] ??. by constructor. Qed.

Lemma wf_set_cache_decimal w c :
  wf w → ids_ok (heap w) c →
  Forall (λ e : cid * (Z * Z) * cid, subclass_shape (heap w) e.2 [e.1.1]) c →
  wf (set_cache_decimal c w).
Proof. intros [] ??. by constructor. Qed.

Lemma wf_set_cache_values w c :
  wf w → ids_ok (heap w) c →
  Forall (λ e : cid * list string * cid, subclass_shape (heap w) e.2 [e.1.1]) c →
  wf (set_cache_values c w).
Proof. intros [] ??. by constructor. Qed.

Lemma wf_set_cache_withtype w c :
  wf w → ids_ok (heap w) c →
  Forall (withtype_entry_ok (heap w) (type_aliases w) (default_not_null w)) c →
  wf (set_cache_withtype c w).
Proof. intros [] ??. by constructor. Qed.

Lemma wf_set_cache_fk w c :
  wf w → ids_ok (heap w) c → Forall (fk_entry_ok (heap w)) c →
  wf (set_cache_fk c w).
Proof. intros [] ??. by constructor. Qed.

(** *** The derivations by length, precision and values *)

(** What a call of a cached derivation leaves behind: a well-formed world
    and, when it returns, the class in the cache under the key of the
    call; the class is new when the key was not in the cache. *)
Lemma length_getitem_spec cls l w r w' :
  wf w → SQLTypeWithOptionalLength.__class_getitem__ (cls, l) w = (r, w') →
  step w w' ∧
  ∀ d, r = Ok d →
    lru.lookup (cls, l) (cache_length w') = Some d ∧
    (lru.lookup (cls, l) (cache_length w) = None → length (heap w) ≤ d).
Proof.
  intros Hwf Hrun. unfold SQLTypeWithOptionalLength.__class_getitem__ in Hrun.
  apply lru_cache_inv in Hrun as [(v & Hl & -> & ->)|[Hmiss [(e & Hb & ->)|(v & w1 & Hb & -> & ->)]]].
  - split.
    + constructor; try done. apply wf_set_cache_length; [done| |].
      * apply ids_ok_touch; [done|]. by destruct Hwf.
      * apply lru_Forall_touch; [done|]. by destruct Hwf.
    + intros d [= <-]. split; [apply lru_lookup_touch|]. congruence.
  - apply bind_inv in Hb as [(e' & [_ ->]%try_inv & _)|(? & s1 & [_ ->]%try_inv & Hb)];
      [split; [by apply step_refl|done]|].
    apply bind_inv in Hb as [(e' & [? _]%gets_inv & _)|(name & s2 & [_ ->]%gets_inv & Hb)];
      [done|].
    apply bind_inv in Hb as [(e' & [_ ->]%try_inv & _)|(sql & s3 & [_ ->]%try_inv & Hb)];
      [split; [by apply step_refl|done]|].
    apply new_subclass_created in Hb as [(? & _ & ->)|(d & ? & _)]; [|done..].
    split; [by apply step_refl|done].
  - apply bind_inv in Hb as [(e' & _ & ?)|(? & s1 & [_ ->]%try_inv & Hb)]; [done|].
    apply bind_inv in Hb as [(e' & _ & ?)|(name & s2 & [_ ->]%gets_inv & Hb)]; [done|].
    apply bind_inv in Hb as [(e' & _ & ?)|(sql & s3 & [_ ->]%try_inv & Hb)]; [done|].
    apply new_subclass_created in Hb as [(? & ? & _)|(d & [= <-] & Hc)]; [done| |done].
    pose proof (created_step _ _ _ _ _ _ Hc) as Hstep.
    pose proof (created_length _ _ _ _ _ _ Hc) as Hlen.
    pose proof (created_caches _ _ _ _ _ _ Hc) as (Hcl & _).
    assert (v = length (heap w)) as -> by (by destruct Hc as (? & ? & -> & _)).
    split.
    + destruct Hstep. constructor; try done.
      apply wf_set_cache_length; [done| |].
      * rewrite Hcl. apply ids_ok_store; [done|lia|by destruct Hwf].
      * apply lru_Forall_store.
        -- by eapply created_shape.
        -- rewrite Hcl. eapply Forall_impl; [by destruct Hwf|].
           intros e' He'. by eapply subclass_shape_extends.
    + intros d [= <-]. split; [|done]. wsimpl.
      apply lru_lookup_store. by rewrite Hcl.
Qed.

Lemma decimal_getitem_spec cls prsc w r w' :
  wf w → DecimalType.__class_getitem__ (cls, prsc) w = (r, w') →
  step w w' ∧
  ∀ d, r = Ok d →
    lru.lookup (cls, prsc) (cache_decimal w') = Some d ∧
    (lru.lookup (cls, prsc) (cache_decimal w) = None → length (heap w) ≤ d).
Proof.
  intros Hwf Hrun. unfold DecimalType.__class_getitem__ in Hrun.
  apply lru_cache_inv in Hrun as [(v & Hl & -> & ->)|[Hmiss [(e & Hb & ->)|(v & w1 & Hb & -> & ->)]]].
  - split.
    + constructor; try done. apply wf_set_cache_decimal; [done| |].
      * apply ids_ok_touch; [done|]. by destruct Hwf.
      * apply lru_Forall_touch; [done|]. by destruct Hwf.
    + intros d [= <-]. split; [apply lru_lookup_touch|]. congruence.
  - destruct prsc as [pr sc].
    apply bind_inv in Hb as [(e' & [? _]%gets_inv & _)|(name & s2 & [_ ->]%gets_inv & Hb)];
      [done|].
    apply new_subclass_created in Hb as [(? & _ & ->)|(d & ? & _)]; [|done..].
    split; [by apply step_refl|done].
  - destruct prsc as [pr sc].
    apply bind_inv in Hb as [(e' & _ & ?)|(name & s2 & [_ ->]%gets_inv & Hb)]; [done|].
    apply new_subclass_created in Hb as [(? & ? & _)|(d & [= <-] & Hc)]; [done| |done].
    pose proof (created_step _ _ _ _ _ _ Hc) as Hstep.
    pose proof (created_length _ _ _ _ _ _ Hc) as Hlen.
    pose proof (created_caches _ _ _ _ _ _ Hc) as (_ & Hcl & _).
    assert (v = length (heap w)) as -> by (by destruct Hc as (? & ? & -> & _)).
    split.
    + destruct Hstep. constructor; try done.
      apply wf_set_cache_decimal; [done| |].
      * rewrite Hcl. apply ids_ok_store; [done|lia|by destruct Hwf].
      * apply lru_Forall_store.
        -- by eapply created_shape.
        -- rewrite Hcl. eapply Forall_impl; [by destruct Hwf|].
           intros e' He'. by eapply subclass_shape_extends.
    + intros d [= <-]. split; [|done]. wsimpl.
      apply lru_lookup_store. by rewrite Hcl.
Qed.

Lemma values_getitem_spec cls vs w r w' :
  wf w → SQLTypeWithValues.__class_getitem__ (cls, vs) w = (r, w') →
  step w w' ∧
  ∀ d, r = Ok d →
    lru.lookup (cls, vs) (cache_values w') = Some d ∧
    (lru.lookup (cls, vs) (cache_values w) = None → length (heap w) ≤ d).
Proof.
  intros Hwf Hrun. unfold SQLTypeWithValues.__class_getitem__ in Hrun.
  apply lru_cache_inv in Hrun as [(v & Hl & -> & ->)|[Hmiss [(e & Hb & ->)|(v & w1 & Hb & -> & ->)]]].
  - split.
    + constructor; try done. apply wf_set_cache_values; [done| |].
      * apply ids_ok_touch; [done|]. by destruct Hwf.
      * apply lru_Forall_touch; [done|]. by destruct Hwf.
    + intros d [= <-]. split; [apply lru_lookup_touch|]. congruence.
  - apply bind_inv in Hb as [(e' & [? _]%gets_inv & _)|(name & s2 & [_ ->]%gets_inv & Hb)];
      [done|].
    apply bind_inv in Hb as [(e' & [_ ->]%try_inv & _)|(sql & s3 & [_ ->]%try_inv & Hb)];
      [split; [by apply step_refl|done]|].
    apply new_subclass_created in Hb as [(? & _ & ->)|(d & ? & _)]; [|done..].
    split; [by apply step_refl|done].
  - apply bind_inv in Hb as [(e' & _ & ?)|(name & s2 & [_ ->]%gets_inv & Hb)]; [done|].
    apply bind_inv in Hb as [(e' & _ & ?)|(sql & s3 & [_ ->]%try_inv & Hb)]; [done|].
    apply new_subclass_created in Hb as [(? & ? & _)|(d & [= <-] & Hc)]; [done| |done].
    pose proof (created_step _ _ _ _ _ _ Hc) as Hstep.
    pose proof (created_length _ _ _ _ _ _ Hc) as Hlen.
    pose proof (created_caches _ _ _ _ _ _ Hc) as (_ & _ & Hcl & _).
    assert (v = length (heap w)) as -> by (by destruct Hc as (? & ? & -> & _)).
    split.
    + destruct Hstep. constructor; try done.
      apply wf_set_cache_values; [done| |].
      * rewrite Hcl. apply ids_ok_store; [done|lia|by destruct Hwf].
      * apply lru_Forall_store.
        -- by eapply created_shape.
        -- rewrite Hcl. eapply Forall_impl; [by destruct Hwf|].
           intros e' He'. by eapply subclass_shape_extends.
    + intros d [= <-]. split; [|done]. wsimpl.
      apply lru_lookup_store. by rewrite Hcl.
Qed.

(** *** The foreign-key derivation *)

(** [Int] renders as ["INT"] in every well-formed world. *)
Lemma init_lookup w c k :
  wf w → init_heap !! c = Some k → heap w !! c = Some k.
Proof.
  intros [] Hc. rewrite <- wf_init0 in Hc. by apply lookup_take_Some in Hc as [? _].
Qed.

Lemma init_mro_of w c :
  wf w → c < length init_heap → mro_of (heap w) c = mro_of init_heap c.
Proof.
  intros Hwf Hc. unfold mro_of.
  destruct (init_heap !! c) as [k|] eqn:Hk.
  - by rewrite (init_lookup w c k).
  - apply lookup_ge_None in Hk. lia.
Qed.

Lemma init_heap_ok : heap_ok init_heap.
Proof. apply (bool_decide_unpack _). vm_compute. reflexivity. Qed.

Lemma init_prefix w : wf w → init_heap `prefix_of` heap w.
Proof.
  intros []. rewrite <- wf_init0. apply prefix_take.
Qed.

Lemma init_issubclass w c b :
  wf w → c < length init_heap → issubclass (heap w) c b = issubclass init_heap c b.
Proof. intros Hwf Hc. by apply issubclass_extends; [apply init_prefix|]. Qed.

Lemma init_getattr w c name :
  wf w → c < length init_heap →
  getattr (bare (heap w)) c name = getattr (bare init_heap) c name.
Proof.
  intros Hwf Hc.
  apply (getattr_extends (bare init_heap) (bare (heap w))); wsimpl;
    [apply init_heap_ok|by apply init_prefix|done..].
Qed.

Lemma init_type_sql w c :
  wf w → c < length init_heap →
  SQLType.__type_sql__ w c = SQLType.__type_sql__ (bare init_heap) c.
Proof.
  intros Hwf Hc. rewrite type_sql_bare by (by destruct Hwf).
  apply (type_sql_extends (bare init_heap) (bare (heap w))); wsimpl;
    [apply init_heap_ok|by apply init_prefix|done..].
Qed.

Lemma type_sql_Int w : wf w → SQLType.__type_sql__ w Cls.Int = Ok "INT".
Proof. intros Hwf. rewrite init_type_sql; [done..|]. vm_compute. lia. Qed.

Lemma fk_getitem_spec cls t w r w' :
  wf w → ForeignTableKey.__class_getitem__ (cls, t) w = (r, w') →
  step w w' ∧
  ∀ d, r = Ok d →
    lru.lookup (cls, t) (cache_fk w') = Some d ∧
    (lru.lookup (cls, t) (cache_fk w) = None → length (heap w) ≤ d).
Proof.
  intros Hwf Hrun. unfold ForeignTableKey.__class_getitem__ in Hrun.
  apply lru_cache_inv in Hrun as [(v & Hl & -> & ->)|[Hmiss [(e & Hb & ->)|(v & w1 & Hb & -> & ->)]]].
  - split.
    + constructor; try done. apply wf_set_cache_fk; [done| |].
      * apply ids_ok_touch; [done|]. by destruct Hwf.
      * apply lru_Forall_touch; [done|]. by destruct Hwf.
    + intros d [= <-]. split; [apply lru_lookup_touch|]. congruence.
  - apply bind_inv in Hb as [(e' & [_ ->]%try_inv & _)|(? & s1 & [_ ->]%try_inv & Hb)];
      [split; [by apply step_refl|done]|].
    apply bind_inv in Hb as [(e' & [? _]%gets_inv & _)|(name & s2 & [_ ->]%gets_inv & Hb)];
      [done|].
    apply bind_inv in Hb as [(e' & [_ ->]%try_inv & _)|(sql & s3 & [_ ->]%try_inv & Hb)];
      [split; [by apply step_refl|done]|].
    apply new_subclass_created in Hb as [(? & _ & ->)|(d & ? & _)]; [|done..].
    split; [by apply step_refl|done].
  - apply bind_inv in Hb as [(e' & _ & ?)|(? & s1 & [_ ->]%try_inv & Hb)]; [done|].
    apply bind_inv in Hb as [(e' & _ & ?)|(name & s2 & [_ ->]%gets_inv & Hb)]; [done|].
    apply bind_inv in Hb as [(e' & _ & ?)|(sql & s3 & [Hsql ->]%try_inv & Hb)]; [done|].
    rewrite type_sql_Int in Hsql by done. injection Hsql as ->.
    apply new_subclass_created in Hb as [(? & ? & _)|(d & [= <-] & Hc)]; [done| |done].
    pose proof (created_step _ _ _ _ _ _ Hc) as Hstep.
    pose proof (created_length _ _ _ _ _ _ Hc) as Hlen.
    pose proof (created_caches _ _ _ _ _ _ Hc) as (_ & _ & _ & _ & Hcl).
    assert (v = length (heap w)) as -> by (by destruct Hc as (? & ? & -> & _)).
    split.
    + destruct Hstep. constructor; try done.
      apply wf_set_cache_fk; [done| |].
      * rewrite Hcl. apply ids_ok_store; [done|lia|by destruct Hwf].
      * apply lru_Forall_store.
        -- split; [by eapply created_shape|]. simpl.
           by rewrite !(created_static _ _ _ _ _ _ _ Hc).
        -- rewrite Hcl. eapply Forall_impl; [by destruct Hwf|].
           intros e' He'. by eapply (fk_entry_ok_extends (heap w)).
    + intros d [= <-]. split; [|done]. wsimpl.
      apply lru_lookup_store. by rewrite Hcl.
Qed.

(** What the cache of the foreign-key derivation holds under a key. *)
Lemma fk_cached w cls t d :
  wf w → lru.lookup (cls, t) (cache_fk w) = Some d →
  fk_entry_ok (heap w) ((cls, t), d).
Proof.
  intros [] Hl%lru_lookup_elem_of. by eapply Forall_forall in wf_fk0.
Qed.

(** *** Wrapping and normalisation *)

Lemma step_getattr w w' c name :
  wf w → step w w' → c < length (heap w) → getattr w' c name = getattr w c name.
Proof. intros [] [] ?. by apply getattr_extends. Qed.

Lemma step_type_sql w w' c :
  wf w → step w w' → c < length (heap w) →
  SQLType.__type_sql__ w' c = SQLType.__type_sql__ w c.
Proof. intros [] [] ?. by apply type_sql_extends. Qed.

Lemma withtype_body_spec norm cls t w r w' :
  at_ok norm → wf w →
  SQLTypeWithType.class_getitem_body norm (cls, t) w = (r, w') →
  step w w' ∧
  ∀ d, r = Ok d →
    d = length (heap w') - 1 ∧ length (heap w) ≤ d ∧ d < length (heap w') ∧
    (∃ w1, step w w1 ∧ step w1 w' ∧ cache_withtype w' = cache_withtype w1 ∧
           length (heap w1) = d) ∧
    (type_aliases w !! t = None → t < length (heap w)) ∧
    withtype_entry_ok (heap w') (type_aliases w') (default_not_null w') ((cls, t), d).
Proof.
  intros Hat Hwf Hb. unfold SQLTypeWithType.class_getitem_body in Hb.
  apply bind_inv in Hb as [(e' & [_ ->]%try_inv & ->)|(sfx & s1 & [Hsfx ->]%try_inv & Hb)];
    [split; [by apply step_refl|done]|].
  apply bind_inv in Hb as [(e' & [_ ->]%try_inv & ->)|(ens & s1 & [Hens ->]%try_inv & Hb)];
    [split; [by apply step_refl|done]|].
  apply bind_inv in Hb as [(e' & Hrun & ->)|(b & w1 & Hrun & Hb)].
  { destruct (Hat _ _ _ _ _ Hwf Hrun) as [Hstep _]. by split. }
  destruct (Hat _ _ _ _ _ Hwf Hrun) as [Hstep Hpost].
  destruct (Hpost b eq_refl) as [Hpost' Hex]. clear Hpost. rename Hpost' into Hpost.
  pose proof (step_wf _ _ Hstep) as Hwf1.
  apply bind_inv in Hb as [(e' & [? _]%gets_inv & _)|(name & s2 & [_ ->]%gets_inv & Hb)];
    [done|].
  apply bind_inv in Hb as [(e' & [_ ->]%try_inv & ->)|(tsql & s2 & [Htsql ->]%try_inv & Hb)];
    [by split|].
  apply bind_inv in Hb as [(e' & [_ ->]%lift_inv & ->)|(sql & s2 & [Hsql ->]%lift_inv & Hb)];
    [by split|].
  apply new_subclass_created in Hb as [(? & -> & ->)|(d & -> & Hc)]; [by split| |done].
  pose proof (created_step _ _ _ _ _ _ Hc) as Hstep'.
  pose proof (created_length _ _ _ _ _ _ Hc) as Hlen.
  pose proof (created_caches _ _ _ _ _ _ Hc) as (_ & _ & _ & Hcl & _).
  assert (d = length (heap w1)) as Hd by (by destruct Hc as (? & ? & -> & _)).
  split; [by eapply step_trans|]. intros ? [= <-].
  pose proof (prefix_length _ _ (step_heap _ _ Hstep)) as Hle.
  split; [lia|]. split; [lia|]. split; [lia|]. split; [by exists w1|].
  pose proof (type_sql_ok_lt _ _ _ (eq_sym Htsql)) as Hb1.
  split; [intros Hal; by apply (Hex t)|].
  (* the entry of the new class *)
  destruct sfx as [| | |sfx| |]; try done. injection Hsql as ->.
  destruct (getattr w cls "_TYPE_SQL_SUFFIX_") as [vs|] eqn:Hgs; [|done].
  assert (vs = VStr sfx) as -> by (destruct vs; congruence). clear Hsfx.
  destruct (getattr w cls "_TYPE_ENSURE_NULLABLE_") as [ve|] eqn:Hge; [|done].
  injection Hens as ->.
  pose proof (getattr_lt _ _ _ _ Hgs) as Hcls.
  pose proof (step_trans _ _ _ Hstep Hstep') as Hstep2.
  unfold withtype_entry_ok. cbn [fst snd].
  rewrite (created_static _ _ _ _ _ _ _ Hc). cbn.
  split; [by eapply created_shape|]. split.
  - unfold sql_extends.
    rewrite <- type_sql_bare by (by destruct (step_wf _ _ Hstep')).
    rewrite (step_type_sql w1 w'), <- Htsql by done.
    rewrite <- getattr_bare by (done || by destruct (step_wf _ _ Hstep')).
    rewrite (step_getattr w w'), Hgs by done.
    by rewrite (created_static _ _ _ _ _ _ _ Hc).
  - intros Hal. rewrite (step_aliases _ _ Hstep') in Hal.
    rewrite (step_policy _ _ Hstep').
    assert (ensures_nullable (heap w') cls = truthy ve) as ->.
    { unfold ensures_nullable.
      rewrite <- getattr_bare by (done || by destruct (step_wf _ _ Hstep')).
      by rewrite (step_getattr w w'), Hge. }
    specialize (Hpost Hal).
    assert (t < length (heap w1)) as Ht.
    { destruct (is_child_class (heap w1) t Cls.BaseRecord) eqn:Hrec.
      - apply andb_true_iff in Hrec as [Hrec _]. by eapply issubclass_lt.
      - specialize (Hpost Hrec). destruct (_ && _).
        + destruct Hpost as (Hs & _).
          eapply (subclass_shape_bases_lt _ _ _ t) in Hs;
            [lia|by destruct Hwf1|right; left].
        + by subst b. }
    split; [lia|].
    eapply normalized_extends; [| |done|done]; [by destruct Hwf1|].
    by destruct Hstep'.
Qed.

Lemma withtype_cached w cls t d :
  wf w → lru.lookup (cls, t) (cache_withtype w) = Some d →
  withtype_entry_ok (heap w) (type_aliases w) (default_not_null w) ((cls, t), d).
Proof.
  intros [] Hl%lru_lookup_elem_of. by eapply Forall_forall in wf_withtype0.
Qed.

Lemma ensures_nullable_NotNull w : wf w → ensures_nullable (heap w) Cls.NotNull = false.
Proof.
  intros Hwf. unfold ensures_nullable. rewrite init_getattr; [done..|]. vm_compute. lia.
Qed.

Lemma getattr_ensures w cls v :
  wf w → getattr w cls "_TYPE_ENSURE_NULLABLE_" = Some v →
  ensures_nullable (heap w) cls = truthy v.
Proof.
  intros [] Hg. unfold ensures_nullable. by rewrite <- getattr_bare, Hg.
Qed.

(** The body of the wrapping derivation leaves the keys alone that it is
    not called for. *)
Lemma withtype_body_keeps norm cls t w r w' k :
  at_keeps norm → wf w →
  SQLTypeWithType.class_getitem_body norm (cls, t) w = (r, w') →
  lru.lookup k (cache_withtype w) = None →
  ensures_nullable (heap w) cls = false ∨ k.1 ≠ Cls.NotNull →
  lru.lookup k (cache_withtype w') = None.
Proof.
  intros Hkeep Hwf Hb Hk Hor. unfold SQLTypeWithType.class_getitem_body in Hb.
  apply bind_inv in Hb as [(e' & [_ ->]%try_inv & ->)|(sfx & s1 & [Hsfx ->]%try_inv & Hb)];
    [done|].
  apply bind_inv in Hb as [(e' & [_ ->]%try_inv & ->)|(ens & s1 & [Hens ->]%try_inv & Hb)];
    [done|].
  destruct (getattr w cls "_TYPE_ENSURE_NULLABLE_") as [ve|] eqn:Hge; [|done].
  injection Hens as ->. rewrite (getattr_ensures _ _ _ Hwf Hge) in Hor.
  apply bind_inv in Hb as [(e' & Hrun & ->)|(b & w1 & Hrun & Hb)].
  { by eapply Hkeep. }
  pose proof (Hkeep _ _ _ _ _ _ Hwf Hrun Hk Hor) as Hk1.
  apply bind_inv in Hb as [(e' & [? _]%gets_inv & _)|(name & s2 & [_ ->]%gets_inv & Hb)];
    [done|].
  apply bind_inv in Hb as [(e' & [_ ->]%try_inv & ->)|(tsql & s2 & [Htsql ->]%try_inv & Hb)];
    [done|].
  apply bind_inv in Hb as [(e' & [_ ->]%lift_inv & ->)|(sql & s2 & [Hsql ->]%lift_inv & Hb)];
    [done|].
  unfold SQLTypeWithOptionalKey.new_subclass, declare_class in Hb.
  destruct (new_class _ _ _ _ _) as [r0 h0]. by injection Hb as _ <-.
Qed.

Lemma withtype_getitem_keeps norm cls t w r w' k :
  at_keeps norm → wf w →
  SQLTypeWithType.class_getitem_with norm (cls, t) w = (r, w') →
  lru.lookup k (cache_withtype w) = None → k ≠ (cls, t) →
  ensures_nullable (heap w) cls = false ∨ k.1 ≠ Cls.NotNull →
  lru.lookup k (cache_withtype w') = None.
Proof.
  intros Hkeep Hwf Hrun Hk Hne Hor. unfold SQLTypeWithType.class_getitem_with in Hrun.
  apply lru_cache_inv in Hrun as [(v & Hl & -> & ->)|[Hmiss [(e & Hb & ->)|(v & w1 & Hb & -> & ->)]]].
  - wsimpl. by apply lru_lookup_None_touch.
  - by eapply withtype_body_keeps.
  - wsimpl. apply lru_lookup_None_store; [done|]. by eapply withtype_body_keeps.
Qed.

Lemma withtype_getitem_spec norm cls t w r w' :
  at_ok norm → at_keeps norm → wf w →
  SQLTypeWithType.class_getitem_with norm (cls, t) w = (r, w') →
  step w w' ∧
  ∀ d, r = Ok d →
    lru.lookup (cls, t) (cache_withtype w') = Some d ∧
    (lru.lookup (cls, t) (cache_withtype w) = None → length (heap w) ≤ d) ∧
    (type_aliases w !! t = None → t < length (heap w)).
Proof.
  intros Hat Hkeep Hwf Hrun. unfold SQLTypeWithType.class_getitem_with in Hrun.
  apply lru_cache_inv in Hrun as [(v & Hl & -> & ->)|[Hmiss [(e & Hb & ->)|(v & w1 & Hb & -> & ->)]]].
  - split.
    + constructor; try done. apply wf_set_cache_withtype; [done| |].
      * apply ids_ok_touch; [done|]. by destruct Hwf.
      * apply lru_Forall_touch; [done|]. by destruct Hwf.
    + intros d [= <-]. split; [apply lru_lookup_touch|]. split; [congruence|].
      intros Hal. pose proof (withtype_cached _ _ _ _ Hwf Hl) as Hok.
      unfold withtype_entry_ok in Hok. cbn [fst snd] in Hok.
      destruct (static_attr _ _ _) as [[| | | |b|]|]; try done.
      destruct Hok as (_ & _ & Hw). by destruct (Hw Hal).
  - destruct (withtype_body_spec _ _ _ _ _ _ Hat Hwf Hb) as [Hstep _]. by split.
  - destruct (withtype_body_spec _ _ _ _ _ _ Hat Hwf Hb) as [Hstep Hpost].
    destruct (Hpost v eq_refl) as (_ & Hle & Hlt & (w0 & Hs0 & Hs01 & Hcl & Hlen) & Hex & Hentry).
    pose proof (step_wf _ _ Hstep) as Hwf1.
    pose proof (step_wf _ _ Hs0) as Hwf0.
    assert (lru.lookup (cls, t) (cache_withtype w1) = None) as Hnone.
    { apply (withtype_body_keeps norm cls t w _ _ (cls, t) Hkeep Hwf Hb Hmiss).
      destruct (decide (cls = Cls.NotNull)) as [->|]; [left|by right].
      by apply ensures_nullable_NotNull. }
    split.
    + destruct Hstep. constructor; try done.
      apply wf_set_cache_withtype; [done| |].
      * rewrite Hcl, <- Hlen. apply ids_ok_store; [by destruct Hs01|lia|by destruct Hwf0].
      * apply lru_Forall_store; [done|]. by destruct Hwf1.
    + intros d [= <-]. split; [|done]. wsimpl. by apply lru_lookup_store.
Qed.

(** The normalisation, at every depth. *)
Lemma actual_type_keeps depth : at_keeps (SQLTypeEnv.actual_type depth).
Proof.
  induction depth as [|depth IH]; intros t ens w r w' k Hwf Hrun Hk Hor.
  { by injection Hrun as <- <-. }
  cbn [SQLTypeEnv.actual_type] in Hrun.
  destruct (SQLTypeEnv._is_typing_optional t).
  { apply bind_inv in Hrun as [(e' & [_ ->]%lift_inv & ->)|(t' & s1 & [_ ->]%lift_inv & Hrun)];
      [done|].
    eapply IH; [done..|by left]. }
  destruct t as [c| |]; [|by injection Hrun as <- <-..].
  apply bind_inv in Hrun as [(e' & [? _]%gets_inv & _)|(isrec & s1 & [_ ->]%gets_inv & Hrun)];
    [done|].
  destruct isrec.
  { unfold ForeignTableKey.__class_getitem__ in Hrun.
    apply lru_cache_inv in Hrun as [(v & Hl & -> & ->)|[Hmiss [(e & Hb & ->)|(v & w1 & Hb & -> & ->)]]];
      [done| |]; wsimpl.
    - apply bind_inv in Hb as [(e' & [_ ->]%try_inv & _)|(? & s1 & [_ ->]%try_inv & Hb)]; [done|].
      apply bind_inv in Hb as [(e' & [? _]%gets_inv & _)|(name & s2 & [_ ->]%gets_inv & Hb)]; [done|].
      apply bind_inv in Hb as [(e' & [_ ->]%try_inv & _)|(sql & s3 & [_ ->]%try_inv & Hb)]; [done|].
      unfold SQLTypeWithOptionalKey.new_subclass, declare_class in Hb.
      destruct (new_class _ _ _ _ _) as [r0 h0]. by injection Hb as _ <-.
    - apply bind_inv in Hb as [(e' & _ & ?)|(? & s1 & [_ ->]%try_inv & Hb)]; [done|].
      apply bind_inv in Hb as [(e' & _ & ?)|(name & s2 & [_ ->]%gets_inv & Hb)]; [done|].
      apply bind_inv in Hb as [(e' & _ & ?)|(sql & s3 & [_ ->]%try_inv & Hb)]; [done|].
      unfold SQLTypeWithOptionalKey.new_subclass, declare_class in Hb.
      destruct (new_class _ _ _ _ _) as [r0 h0]. by injection Hb as _ <-. }
  apply bind_inv in Hrun as [(e' & [? _]%gets_inv & _)|(t2 & s1 & [_ ->]%gets_inv & Hrun)];
    [done|].
  apply bind_inv in Hrun as [(e' & [? _]%gets_inv & _)|(wrap & s1 & [Hwrap ->]%gets_inv & Hrun)];
    [done|].
  destruct wrap; [|by injection Hrun as <- <-].
  injection Hwrap as Hwrap. symmetry in Hwrap.
  apply andb_true_iff in Hwrap as [[-> _]%andb_true_iff _].
  destruct Hor as [?|Hor]; [done|].
  eapply withtype_getitem_keeps; [apply IH|done..| |by right].
  intros ->. by apply Hor.
Qed.

Lemma suffix_NotNull w :
  wf w → getattr (bare (heap w)) Cls.NotNull "_TYPE_SQL_SUFFIX_" = Some (VStr " NOT NULL").
Proof. intros Hwf. rewrite init_getattr; [done..|]. vm_compute. lia. Qed.

(** The cache entry of [NotNull[t]], for a class [t] that is neither an
    alias nor a record class. *)
Lemma notnull_cached w t d :
  wf w → lru.lookup (Cls.NotNull, t) (cache_withtype w) = Some d →
  type_aliases w !! t = None → is_child_class (heap w) t Cls.BaseRecord = false →
  notnull_shape (heap w) d t.
Proof.
  intros Hwf Hl Hal Hrec. pose proof (withtype_cached _ _ _ _ Hwf Hl) as Hok.
  unfold withtype_entry_ok in Hok. cbn [fst snd] in Hok.
  destruct (static_attr _ _ _) as [[| | | |b|]|] eqn:Hbase; try done.
  destruct Hok as (Hshape & Hsql & Hw). destruct (Hw Hal) as [_ Hn].
  rewrite ensures_nullable_NotNull in Hn by done. specialize (Hn Hrec).
  cbn in Hn. subst b. split; [done|]. split; [done|].
  unfold sql_extends in Hsql. rewrite suffix_NotNull in Hsql by done.
  by destruct (SQLType.__type_sql__ (bare (heap w)) t).
Qed.

Lemma actual_type_ok depth : at_ok (SQLTypeEnv.actual_type depth).
Proof.
  induction depth as [|depth IH]; intros t ens w r w' Hwf Hrun.
  { injection Hrun as <- <-. split; [by apply step_refl|done]. }
  cbn [SQLTypeEnv.actual_type] in Hrun.
  destruct (SQLTypeEnv._is_typing_optional t) eqn:Hopt.
  { apply bind_inv in Hrun as [(e' & [_ ->]%lift_inv & ->)|(t' & s1 & [_ ->]%lift_inv & Hrun)];
      [split; [by apply step_refl|done]|].
    destruct (IH _ _ _ _ _ Hwf Hrun) as [Hstep _]. split; [done|].
    intros d _. destruct t; try done. }
  destruct t as [c| |]; [|injection Hrun as <- <-; split; [by apply step_refl|done]..].
  apply bind_inv in Hrun as [(e' & [? _]%gets_inv & _)|(isrec & s1 & [Hrec ->]%gets_inv & Hrun)];
    [done|].
  injection Hrec as Hrec. destruct isrec.
  { destruct (fk_getitem_spec _ _ _ _ _ Hwf Hrun) as [Hstep _]. split; [done|].
    assert (c < length (heap w)) as Hc.
    { symmetry in Hrec. apply andb_true_iff in Hrec as [Hrec _]. by eapply issubclass_lt. }
    intros d _. split; [|by intros ? [= <-] _ _]. intros _ Hrec'.
    rewrite (is_child_class_extends (heap w) (heap w')) in Hrec';
      [congruence|by destruct Hstep|done]. }
  apply bind_inv in Hrun as [(e' & [? _]%gets_inv & _)|(t2 & s1 & [Ht2 ->]%gets_inv & Hrun)];
    [done|].
  injection Ht2 as Ht2.
  apply bind_inv in Hrun as [(e' & [? _]%gets_inv & _)|(wrap & s1 & [Hwrap ->]%gets_inv & Hrun)];
    [done|].
  injection Hwrap as Hwrap. destruct wrap.
  - destruct (withtype_getitem_spec _ _ _ _ _ _ IH (actual_type_keeps depth) Hwf Hrun)
      as [Hstep Hpost].
    split; [done|]. intros d ->. destruct (Hpost d eq_refl) as (Hl & _ & Hex).
    assert (type_aliases w !! c = None → t2 = c ∧ c < length (heap w)) as Hc.
    { intros Hal. rewrite Hal in Ht2. subst t2. split; [done|]. by apply Hex. }
    split; [|intros ? [= <-] Hal _; by apply Hc].
    intros Hal. rewrite (step_aliases _ _ Hstep) in Hal.
    destruct (Hc Hal) as [-> Hlt]. intros Hrec'.
    rewrite (step_policy _ _ Hstep).
    rewrite !(issubclass_extends (heap w) (heap w')), <- Hwrap by (done || by destruct Hstep).
    apply notnull_cached; [by destruct Hstep|done| |done].
    by rewrite (step_aliases _ _ Hstep).
  - injection Hrun as <- <-. split; [by apply step_refl|]. intros d [= <-].
    split.
    + intros Hal. rewrite Hal in Ht2. subst t2. intros _. by rewrite <- Hwrap.
    + intros ? [= <-] Hal ?. rewrite Hal in Ht2. by subst t2.
Qed.

(** The wrapping derivation, as it is called. *)
Lemma wrap_getitem_spec depth cls t w r w' :
  wf w → SQLTypeWithType__class_getitem__ depth (cls, t) w = (r, w') →
  step w w' ∧
  ∀ d, r = Ok d →
    lru.lookup (cls, t) (cache_withtype w') = Some d ∧
    (lru.lookup (cls, t) (cache_withtype w) = None → length (heap w) ≤ d) ∧
    (type_aliases w !! t = None → t < length (heap w)).
Proof.
  apply withtype_getitem_spec; [apply actual_type_ok|apply actual_type_keeps].
Qed.

(** *** Assignments, aliases and class statements *)

Lemma wf_setattr w c name v :
  wf w → assigned_attr name = true → issubclass (heap w) c Cls.SQLType = true →
  wf (setattr c name v w).
Proof.
  intros [] Hname Hc. constructor; wsimpl; try done.
  intros [c' name'] v' Hl. wsimpl.
  apply lookup_insert_Some in Hl as [[[= <- <-] _]|[_ Hl]]; [done|].
  by apply wf_attrs0 in Hl.
Qed.

Lemma default_spec cls args w r w' :
  wf w → SQLType.default cls args w = (r, w') →
  wf w' ∧ heap w' = heap w ∧ type_aliases w' = type_aliases w.
Proof.
  intros Hwf. unfold SQLType.default, SQLType.has_method.
  destruct (issubclass (heap w) cls Cls.SQLType) eqn:Hc; simpl; [|by intros [= <- <-]].
  destruct args as [|v [|??]]; intros [= <- <-]; [| |done];
    (split; [|done]); by repeat apply wf_setattr.
Qed.

Lemma comment_spec cls c w r w' :
  wf w → SQLType.comment cls c w = (r, w') →
  wf w' ∧ heap w' = heap w ∧ type_aliases w' = type_aliases w.
Proof.
  intros Hwf. unfold SQLType.comment, SQLType.has_method.
  destruct (issubclass (heap w) cls Cls.SQLType) eqn:Hc; simpl; intros [= <- <-]; [|done].
  split; [|done]. by apply wf_setattr.
Qed.

Lemma set_type_alias_spec tf tt_ w r w' :
  wf w → SQLTypeEnv.set_type_alias tf tt_ w = (r, w') →
  wf w' ∧ heap w' = heap w ∧ attrs w' = attrs w.
Proof.
  intros Hwf. unfold SQLTypeEnv.set_type_alias.
  destruct (is_child_class (heap w) tt_ Cls.SQLType); simpl; intros [= <- <-]; [|done].
  split; [|done]. destruct Hwf. constructor; wsimpl; try done.
  eapply Forall_impl; [done|]. intros e. unfold withtype_entry_ok.
  destruct (static_attr _ _ _) as [[| | | |b|]|]; try done.
  intros (? & ? & Hw). do 2 (split; [done|]).
  intros Hal. apply Hw. by apply lookup_insert_None in Hal as [? _].
Qed.

Lemma declare_class_spec name bases ns ann w r w' :
  wf w → declare_class name bases ns ann w = (r, w') → step w w'.
Proof.
  intros Hwf. unfold declare_class.
  destruct (new_class _ _ _ _ _) as [r0 h0] eqn:Hnew. intros [= <- <-].
  pose proof (new_class_extends _ _ _ _ _ _ _ Hnew) as Hext.
  constructor; try done. apply wf_set_heap; [done..|].
  destruct r0 as [d|e].
  - eapply new_class_heap_ok; [|done]. by destruct Hwf.
  - apply new_class_inv in Hnew as [(? & _ & ->)|(? & ? & _)]; [by destruct Hwf|done].
Qed.

(** ** The method resolution order of derived classes *)

Lemma mro_head h d k :
  heap_ok h → h !! d = Some k → ∃ l, cls_mro k = d :: l.
Proof.
  intros Hok Hd. destruct (heap_ok_lookup _ _ _ Hok Hd) as [_ [[-> ->]|(_ & _ & _ & Hl)]].
  - by exists [].
  - apply linearize_inv in Hl as (l & -> & _). by exists l.
Qed.

Lemma mro_of_self h c : heap_ok h → c < length h → c ∈ mro_of h c.
Proof.
  intros Hok [k Hk]%lookup_lt_is_Some. unfold mro_of. rewrite Hk.
  destruct (mro_head _ _ _ Hok Hk) as [l ->]. left.
Qed.

Lemma shape_mro h d bases :
  heap_ok h → subclass_shape h d bases → bases ≠ [] →
  ∃ l, mro_of h d = d :: l ∧
       C3.merge (C3.fuel_for (map (mro_of h) bases ++ [bases]))
                (map (mro_of h) bases ++ [bases]) = Some l.
Proof.
  intros Hok Hs Hne. unfold subclass_shape in Hs. unfold mro_of.
  destruct (h !! d) as [k|] eqn:Hd; [|done]. destruct Hs as (<- & _).
  destruct (heap_ok_lookup _ _ _ Hok Hd) as [_ [[_ ->]|(_ & _ & _ & Hl)]]; [done|].
  by apply linearize_inv in Hl.
Qed.

Lemma shape_base_exists h d bases b :
  heap_ok h → subclass_shape h d bases → b ∈ bases → b < length h.
Proof.
  intros Hok Hs Hb. pose proof (subclass_shape_lt _ _ _ Hs).
  pose proof (subclass_shape_bases_lt _ _ _ b Hok Hs Hb). lia.
Qed.





Lemma issubclass_base h d bases b x :
  heap_ok h → subclass_shape h d bases → b ∈ bases →
  issubclass h b x = true → issubclass h d x = true.
Proof.
  intros Hok Hs Hb Hx. unfold issubclass in *. apply bool_decide_eq_true in Hx.
  apply bool_decide_eq_true.
  destruct (shape_mro _ _ _ Hok Hs) as (l & -> & Hm).
  { intros ->. by apply elem_of_nil in Hb. }
  right. eapply merge_complete; [done| |done].
  apply elem_of_app. left. apply list_elem_of_fmap. by exists b.
Qed.

(** ** Foreign keys (C3) *)

Lemma wfb_wf w : wfb w = true → wf w.
Proof. apply bool_decide_eq_true. Qed.

Lemma getattr_own w d name v :
  heap_ok (heap w) → d < length (heap w) →
  own_attr w d name = Some v → getattr w d name = Some v.
Proof.
  intros Hok [k Hk]%lookup_lt_is_Some Hown. unfold getattr, mro_of. rewrite Hk.
  destruct (mro_head _ _ _ Hok Hk) as [l ->]. simpl. by rewrite Hown.
Qed.

Lemma fk_linearize w self :
  wf w →
  C3.linearize self
    (map (mro_of (heap w)) [Cls.ForeignTableKey; Cls.Int]) [Cls.ForeignTableKey; Cls.Int]
  = Some (self :: [30; 26; 25; 24; 10; 9; 8; 14; 13; 7; 0]).
Proof.
  intros Hwf. cbn [map]. rewrite !init_mro_of by (done || (vm_compute; lia)).
  reflexivity.
Qed.

(** The derivation of a foreign key returns for every subclass of
    [Record]. *)
Lemma fk_getitem_returns w X :
  wf w → issubclass (heap w) X Cls.Record = true →
  ∃ d w', ForeignTableKey.__class_getitem__ (Cls.ForeignTableKey, X) w = (Ok d, w').
Proof.
  intros Hwf HX. unfold ForeignTableKey.__class_getitem__, lru_cache.
  destruct (lru.lookup _ _) as [d|]; [by eexists _, _|].
  unfold bind at 1, try at 1. rewrite HX.
  unfold bind at 1, gets at 1. unfold bind at 1, try at 1.
  rewrite type_sql_Int by done.
  unfold SQLTypeWithOptionalKey.new_subclass, declare_class, new_class. cbv zeta.
  assert (length init_heap ≤ length (heap w)) as Hlen
    by (apply prefix_length, init_prefix; done).
  assert (forallb (λ b : nat, bool_decide (b < length (heap w)))
            [Cls.ForeignTableKey; Cls.Int] = true) as ->.
  { cbn [forallb]. rewrite !bool_decide_eq_true_2; [done|..];
      (eapply Nat.lt_le_trans; [|exact Hlen]); vm_compute; lia. }
  cbn [negb]. rewrite fk_linearize by done.
  assert (bool_decide (NoDup [Cls.ForeignTableKey; Cls.Int]) = true) as -> by done.
  cbn [negb]. by eexists _, _.
Qed.

(** ** Memoisation (C1) *)

Lemma derive_spec depth k w r w' :
  wf w → derive depth k w = (r, w') →
  step w w' ∧
  ∀ d, r = Ok d → cached k w' = Some d ∧ (cached k w = None → length (heap w) ≤ d).
Proof.
  intros Hwf Hrun. destruct k; simpl in Hrun; simpl.
  - by apply length_getitem_spec.
  - by apply decimal_getitem_spec.
  - by apply values_getitem_spec.
  - destruct (wrap_getitem_spec _ _ _ _ _ _ Hwf Hrun) as [? Hpost]. split; [done|].
    intros d Hd. by destruct (Hpost d Hd) as (? & ? & _).
  - by apply fk_getitem_spec.
Qed.





Lemma cached_lt k w d : wf w → cached k w = Some d → d < length (heap w).
Proof.
  intros Hwf Hl. destruct k; simpl in Hl; apply lru_lookup_elem_of in Hl.
  - destruct (wf_length_ids _ Hwf) as [Hlt _]. eapply Forall_forall in Hlt; [|exact Hl]. done.
  - destruct (wf_decimal_ids _ Hwf) as [Hlt _]. eapply Forall_forall in Hlt; [|exact Hl]. done.
  - destruct (wf_values_ids _ Hwf) as [Hlt _]. eapply Forall_forall in Hlt; [|exact Hl]. done.
  - destruct (wf_withtype_ids _ Hwf) as [Hlt _]. eapply Forall_forall in Hlt; [|exact Hl]. done.
  - destruct (wf_fk_ids _ Hwf) as [Hlt _]. eapply Forall_forall in Hlt; [|exact Hl]. done.
Qed.

(** The position of an entry under the operations of the cache. *)
Section lru_pos_facts.
Context {K V : Type} `{EqDecision K}.
Implicit Types (c : list (K * V)) (k : K) (v : V).






End lru_pos_facts.






(** ** Defaults of derived types (C2, C10) *)







(** What [cls[B]] returns is in the cache, with the shape of its entry. *)
Lemma wrap_getitem_entry depth cls B w d w' :
  wf w → SQLTypeWithType__class_getitem__ depth (cls, B) w = (Ok d, w') →
  step w w' ∧
  ∃ b, static_attr (heap w') d "_TYPE_BASE_" = Some (VClass b) ∧
       subclass_shape (heap w') d [cls; b] ∧
       sql_extends (heap w') d b cls ∧
       wrapped_base (heap w') (type_aliases w') (default_not_null w') cls B b.
Proof.
  intros Hwf Hrun. destruct (wrap_getitem_spec _ _ _ _ _ _ Hwf Hrun) as [Hstep Hpost].
  split; [done|]. destruct (Hpost d eq_refl) as (Hl & _).
  pose proof (withtype_cached _ _ _ _ (step_wf _ _ Hstep) Hl) as Hok.
  unfold withtype_entry_ok in Hok. cbn [fst snd] in Hok.
  destruct (static_attr _ _ _) as [[| | | |b|]|] eqn:Hbase; try done.
  by exists b.
Qed.

Lemma sql_extends_has_method h d b cls :
  sql_extends h d b cls → issubclass h b Cls.SQLType = true.
Proof.
  unfold sql_extends, SQLType.__type_sql__, SQLType.has_method. wsimpl.
  by destruct (issubclass h b Cls.SQLType).
Qed.





Lemma string_app_nonempty (s1 s2 : string) : s2 ≠ "" → s1 +:+ s2 ≠ "".
Proof. by destruct s1. Qed.

Lemma truthy_VStr s : s ≠ "" → truthy (VStr s) = true.
Proof. intros Hs. simpl. by apply negb_true_iff, String.eqb_neq. Qed.

(** The SQL of a derived class is the text its body sets. *)
Lemma type_sql_derived w d bases s :
  wf w → subclass_shape (heap w) d bases →
  static_attr (heap w) d "__TYPE_SQL__" = Some (VStr s) → s ≠ "" →
  issubclass (heap w) d Cls.SQLType = true → issubclass (heap w) d Cls.Final = true →
  SQLType.__type_sql__ w d = Ok s.
Proof.
  intros Hwf Hs Hsql Hne Hsub Hfin.
  unfold SQLType.__type_sql__, SQLType.has_method. rewrite Hsub, Hfin. cbn [negb].
  rewrite (getattr_own _ _ _ (VStr s)).
  - by rewrite truthy_VStr.
  - by destruct Hwf.
  - by eapply subclass_shape_lt.
  - rewrite own_attr_static; [done|by destruct Hwf|done].
Qed.





(** *** The primary key of a final type (C10) *)

Lemma wrapper_issubclass w d cls b x :
  wf w → cls ∈ [Cls.Nullable; Cls.NotNull; Cls.PrimaryKey; Cls.ForeignTableKey] →
  subclass_shape (heap w) d [cls; b] → x ∈ [Cls.Final; cls] →
  issubclass (heap w) d x = true.
Proof.
  intros Hwf Hcls Hs Hx. eapply (issubclass_base _ _ _ cls); [by destruct Hwf|done|left|].
  rewrite !elem_of_cons, elem_of_nil in Hcls. rewrite !elem_of_cons, elem_of_nil in Hx.
  destruct Hcls as [->|[->|[->|[->|[]]]]]; destruct Hx as [->|[->|[]]];
    rewrite init_issubclass by (done || (vm_compute; lia)); by vm_compute.
Qed.

Lemma type_sql_has_method w c s :
  SQLType.__type_sql__ w c = Ok s → issubclass (heap w) c Cls.SQLType = true.
Proof.
  unfold SQLType.__type_sql__, SQLType.has_method.
  by destruct (issubclass (heap w) c Cls.SQLType).
Qed.



(** ** Normalisation of a declared type (C4) *)

Lemma actual_type_optional depth t t' ens w :
  SQLTypeEnv._is_typing_optional t = true →
  SQLTypeEnv._typing_optional_basetype t = Ok t' →
  SQLTypeEnv.actual_type (S depth) t ens w = SQLTypeEnv.actual_type depth t' false w.
Proof.
  intros Hopt Hbase. cbn [SQLTypeEnv.actual_type]. rewrite Hopt, Hbase. done.
Qed.

Lemma actual_type_record depth c ens w :
  is_child_class (heap w) c Cls.BaseRecord = true →
  SQLTypeEnv.actual_type (S depth) (TClass c) ens w
  = ForeignTableKey.__class_getitem__ (Cls.ForeignTableKey, c) w.
Proof.
  intros Hrec. cbn [SQLTypeEnv.actual_type SQLTypeEnv._is_typing_optional].
  unfold bind at 1, gets at 1. by rewrite Hrec.
Qed.

Lemma actual_type_class depth c ens w :
  is_child_class (heap w) c Cls.BaseRecord = false →
  SQLTypeEnv.actual_type (S depth) (TClass c) ens w
  = if wraps w ens (resolve_alias w c)
    then SQLTypeWithType__class_getitem__ depth (Cls.NotNull, resolve_alias w c) w
    else (Ok (resolve_alias w c), w).
Proof.
  intros Hrec. cbn [SQLTypeEnv.actual_type SQLTypeEnv._is_typing_optional].
  unfold bind, gets. rewrite Hrec. fold (resolve_alias w c).
  fold (wraps w ens (resolve_alias w c)). by destruct (wraps _ _ _).
Qed.

Lemma optional_basetype_not_optional t t' :
  SQLTypeEnv._typing_optional_basetype t = Ok t' →
  SQLTypeEnv._is_typing_optional t' = false.
Proof.
  destruct t as [c|[|[c|o] args]|o]; try done; intros [= <-]; done.
Qed.

Lemma notnull_getitem_subclass depth t w d w' :
  wf w → SQLTypeWithType__class_getitem__ depth (Cls.NotNull, t) w = (Ok d, w') →
  issubclass (heap w') d Cls.NotNull = true.
Proof.
  intros Hwf Hrun.
  destruct (wrap_getitem_entry _ _ _ _ _ _ Hwf Hrun) as (Hstep & b & _ & Hs & _).
  apply (wrapper_issubclass w' d Cls.NotNull b); [by destruct Hstep| |done|].
  - right; left.
  - right; left.
Qed.

(** ** Views (C5, C6, C8, C9) *)

Lemma join_keyword_cases lcol rcol :
  DataView.join_keyword lcol rcol
  = if not_null lcol && not_null rcol then "INNER JOIN" else "LEFT JOIN".
Proof. unfold DataView.join_keyword. by destruct (_ && _). Qed.

Lemma append_joins_clauses joins swp :
  DataView.append_joins joins swp
  = mkSWP (swp_id swp) (clauses swp ++ concat (join_clauses <$> joins)).
Proof.
  unfold DataView.append_joins. revert swp.
  induction joins as [|[tb [lcol rcol]] joins IH]; intros swp.
  - cbn. rewrite app_nil_r. by destruct swp.
  - cbn [foldl]. rewrite IH. unfold append_clause. cbn [swp_id clauses].
    rewrite join_keyword_cases. cbn [fmap list_fmap concat join_clauses fst snd].
    f_equal. by rewrite <- !app_assoc.
Qed.

Lemma elem_of_concat_2 {A} (x : A) (l : list A) (ls : list (list A)) :
  x ∈ l → l ∈ ls → x ∈ concat ls.
Proof.
  intros Hx Hl. induction Hl as [l ls|l l' ls _ IH]; cbn; apply elem_of_app; auto.
Qed.

(** ** The bound on nested calls suffices

    [RecursionError] stands for a nesting of calls deeper than [depth].  In
    a well-formed world the normalisation nests at most three calls of
    [actual_type], so with [depth] from 3 on it is never raised. *)

Lemma returns_bind {S A B} (m : ST S A) (k : A → ST S B) s :
  returns m s → (∀ a s1, m s = (Ok a, s1) → returns (k a) s1) → returns (bind m k) s.
Proof.
  intros Hm Hk r s' [(e & Hrun & ->)|(a & s1 & Hrun & Hrun')]%bind_inv.
  - intros [= ->]. by apply (Hm _ _ Hrun).
  - by apply (Hk _ _ Hrun _ _ Hrun').
Qed.

Lemma returns_try {S A} (f : S → result A) s :
  f s ≠ Raise RecursionError → returns (try f) s.
Proof. by intros Hf r s' [-> _]%try_inv. Qed.

Lemma returns_gets {S A} (f : S → A) s : returns (gets f) s.
Proof. by intros r s' [-> _]%gets_inv. Qed.

Lemma returns_lift {S A} (x : result A) (s : S) :
  x ≠ Raise RecursionError → returns (lift x) s.
Proof. by intros Hx r s' [-> _]%lift_inv. Qed.

Lemma returns_ret {S A} (a : A) (s : S) : returns (ret a) s.
Proof. by intros r s' [= <- _]. Qed.


Lemma returns_lru_cache {S K V} `{EqDecision K} (get : S → list (K * V)) set f k s :
  returns (f k) s → returns (lru_cache get set f k) s.
Proof.
  intros Hf r s' [(v & _ & -> & _)|[_ [(e & Hrun & ->)|(v & s1 & _ & -> & _)]]]%lru_cache_inv;
    [done| |done].
  by apply (Hf _ _ Hrun).
Qed.

Lemma returns_declare_class name bases ns ann w :
  returns (declare_class name bases ns ann) w.
Proof.
  intros r w'. unfold declare_class, new_class. cbv zeta.
  repeat case_match; intros ?; by simplify_eq.
Qed.

Lemma type_sql_returns w c : SQLType.__type_sql__ w c ≠ Raise RecursionError.
Proof. unfold SQLType.__type_sql__. by repeat case_match. Qed.

Lemma returns_fk_getitem k w : returns (ForeignTableKey.__class_getitem__ k) w.
Proof.
  apply returns_lru_cache. destruct k as [cls t].
  apply returns_bind; [apply returns_try; by case_match|]. intros _ w1 _.
  apply returns_bind; [apply returns_gets|]. intros name w2 _.
  apply returns_bind; [apply returns_try, type_sql_returns|]. intros sql w3 _.
  apply returns_declare_class.
Qed.

Lemma returns_withtype_body norm cls t w :
  (∀ v, getattr w cls "_TYPE_ENSURE_NULLABLE_" = Some v →
        returns (norm (TClass t) (truthy v)) w) →
  returns (SQLTypeWithType.class_getitem_body norm (cls, t)) w.
Proof.
  intros Hnorm. unfold SQLTypeWithType.class_getitem_body.
  apply returns_bind; [apply returns_try; by repeat case_match|].
  intros suffix w1 [_ ->]%try_inv.
  apply returns_bind; [apply returns_try; by repeat case_match|].
  intros ens w1 [Hens ->]%try_inv.
  apply returns_bind.
  { destruct (getattr w cls "_TYPE_ENSURE_NULLABLE_") as [v|]; [|done].
    injection Hens as ->. by apply Hnorm. }
  intros b w1 _.
  apply returns_bind; [apply returns_gets|]. intros name w2 _.
  apply returns_bind; [apply returns_try, type_sql_returns|]. intros sql w3 _.
  apply returns_bind; [apply returns_lift; by destruct suffix|]. intros s w4 _.
  apply returns_declare_class.
Qed.

Lemma returns_actual_type_plain depth c w :
  returns (SQLTypeEnv.actual_type (S depth) (TClass c) false) w.
Proof.
  cbn [SQLTypeEnv.actual_type SQLTypeEnv._is_typing_optional].
  apply returns_bind; [apply returns_gets|]. intros [|] w1 _; [apply returns_fk_getitem|].
  apply returns_bind; [apply returns_gets|]. intros t w2 _.
  apply returns_bind; [apply returns_gets|]. intros wrap w3 [[= ->] _]%gets_inv.
  cbn [andb]. apply returns_ret.
Qed.

Lemma returns_notnull_getitem depth t w :
  wf w → returns (SQLTypeWithType__class_getitem__ (S depth) (Cls.NotNull, t)) w.
Proof.
  intros Hwf. apply returns_lru_cache, returns_withtype_body. intros v Hv.
  rewrite <- (getattr_ensures w Cls.NotNull v Hwf Hv), ensures_nullable_NotNull by done.
  apply returns_actual_type_plain.
Qed.

Lemma returns_actual_type_class depth c ens w :
  wf w → returns (SQLTypeEnv.actual_type (S (S depth)) (TClass c) ens) w.
Proof.
  intros Hwf. cbn [SQLTypeEnv.actual_type SQLTypeEnv._is_typing_optional].
  apply returns_bind; [apply returns_gets|].
  intros [|] w1 [_ ->]%gets_inv; [apply returns_fk_getitem|].
  apply returns_bind; [apply returns_gets|]. intros t w1 [_ ->]%gets_inv.
  apply returns_bind; [apply returns_gets|]. intros [|] w1 [_ ->]%gets_inv.
  - by apply returns_notnull_getitem.
  - apply returns_ret.
Qed.

Lemma returns_actual_type depth t ens w :
  wf w → returns (SQLTypeEnv.actual_type (S (S (S depth))) t ens) w.
Proof.
  intros Hwf. destruct (SQLTypeEnv._is_typing_optional t) eqn:Hopt.
  - intros r w'. destruct (SQLTypeEnv._typing_optional_basetype t) as [t'|e] eqn:Hbase.
    + rewrite (actual_type_optional _ _ _ _ _ Hopt Hbase).
      destruct t' as [c| |]; [by apply returns_actual_type_class|..].
      * apply optional_basetype_not_optional in Hbase as Hno.
        cbn [SQLTypeEnv.actual_type]. rewrite Hno. by intros [= <- _].
      * cbn [SQLTypeEnv.actual_type SQLTypeEnv._is_typing_optional]. by intros [= <- _].
    + by destruct t as [|[|]|].
  - destruct t as [c| |]; [by apply returns_actual_type_class|..].
    + intros r w'. cbn [SQLTypeEnv.actual_type]. rewrite Hopt. by intros [= <- _].
    + intros r w'. cbn [SQLTypeEnv.actual_type SQLTypeEnv._is_typing_optional].
      by intros [= <- _].
Qed.


(** ** The database of a root record class (C7) *)














(** *** In [record.py] *)










(** ** How long a cache keeps an entry *)

Section kept_facts.
Context {K : Type} `{EqDecision K}.
Implicit Types (c : list (K * cid)) (k : K).

Lemma kept_refl c : kept 0 c c.
Proof. intros k d p Hl Hp _. split; [done|lia]. Qed.





End kept_facts.

Ltac aged_split := split; [|split; [|split; [|split]]].

Lemma aged_refl w : aged 0 w w.
Proof. aged_split; apply kept_refl. Qed.







Lemma aged_lift {A} (x : result A) w r w' : lift x w = (r, w') → aged 0 w w'.
Proof. intros [_ ->]%lift_inv. apply aged_refl. Qed.













Lemma declare_class_caches name bases ns ann w r w' :
  declare_class name bases ns ann w = (r, w') →
  cache_length w' = cache_length w ∧ cache_decimal w' = cache_decimal w ∧
  cache_values w' = cache_values w ∧ cache_withtype w' = cache_withtype w ∧
  cache_fk w' = cache_fk w.
Proof. unfold declare_class. destruct (new_class _ _ _ _ _). by intros [= _ <-]. Qed.





(** ** Views: accumulation and rendering *)

Lemma dataview_eta (v : DataView) :
  mkDataView (db v) (_table v) (_colexprs v) (_terms v) (_groups v) (_orders v)
    (_limit v) (_offset v) (_join_parent_tables v) (_join_child_tables v) = v.
Proof. by destruct v. Qed.

Lemma where_nil self : DataView.where_ [] self = self.
Proof. unfold DataView.where_. cbn [foldl]. apply dataview_eta. Qed.




(** The terms that [eq] adds for its keyword arguments, when every column
    is found. *)
Lemma eq_loop_ok table_column tb kwargs cols self :
  Forall2 (λ kv c, table_column tb kv.1 = Ok c) kwargs cols →
  DataView.eq_loop table_column tb kwargs self
  = Ok (DataView.where_ (zip_with (λ c kv, EEq c kv.2) cols kwargs) self).
Proof.
  intros H. revert self. induction H as [|[name v] c kwargs cols Hc _ IH]; intros self.
  - cbn [DataView.eq_loop zip_with]. by rewrite where_nil.
  - cbn [DataView.eq_loop zip_with fst snd] in *. rewrite Hc, IH.
    reflexivity.
Qed.

(** [eq] fails with the error of the first column that is not found. *)
Lemma eq_loop_fails table_column tb before name v after cols e self :
  Forall2 (λ kv c, table_column tb kv.1 = Ok c) before cols →
  table_column tb name = Raise e →
  DataView.eq_loop table_column tb (before ++ (name, v) :: after) self = Raise e.
Proof.
  intros H He. revert self. induction H as [|[n' v'] c before cols Hc _ IH]; intros self.
  - cbn [app DataView.eq_loop]. by rewrite He.
  - cbn [app DataView.eq_loop fst] in *. by rewrite Hc, IH.
Qed.

Lemma length_concat_join_clauses (joins : list link) :
  length (concat (join_clauses <$> joins)) = 2 * length joins.
Proof. induction joins as [|l joins IH]; cbn in *; lia. Qed.

(** The discovery of the links of one kind, as rendering runs it. *)
Lemma links_inv {S} (db_table : Database → table_like → result Table)
    (getter : Table → result (list link)) (flag : bool) d tb (s : S) r s' :
  (if flag then let* t := lift (db_table d (TTable tb)) in lift (getter t) else ret []) s
  = (r, s') →
  s' = s ∧
  match r with
  | Ok l => if flag then ∃ t, db_table d (TTable tb) = Ok t ∧ getter t = Ok l else l = []
  | Raise e =>
      flag = true ∧
      (db_table d (TTable tb) = Raise e ∨
       ∃ t, db_table d (TTable tb) = Ok t ∧ getter t = Raise e)
  end.
Proof.
  destruct flag; [|by intros [= <- <-]].
  unfold bind, lift. destruct (db_table d (TTable tb)) as [t|e] eqn:Ht.
  - destruct (getter t) as [l|e] eqn:Hl; intros [= <- <-]; (split; [done|]); eauto.
  - intros [= <- <-]. eauto.
Qed.

(** ** Assignments to class attributes *)

Lemma own_attr_setattr w c name v c' name' :
  own_attr (setattr c name v w) c' name'
  = if decide ((c', name') = (c, name)) then Some v else own_attr w c' name'.
Proof.
  unfold own_attr. wsimpl. destruct (decide ((c', name') = (c, name))) as [->|Hne].
  - by rewrite lookup_insert_eq.
  - by rewrite lookup_insert_ne.
Qed.

Lemma mro_lookup_setattr_name w c name v name' l :
  name' ≠ name → mro_lookup (setattr c name v w) name' l = mro_lookup w name' l.
Proof.
  intros Hne. induction l as [|x l IH]; [done|]. cbn [mro_lookup].
  rewrite own_attr_setattr, IH. destruct (decide _) as [[= _ ?]|]; done.
Qed.

Lemma mro_lookup_setattr_class w c name v name' l :
  c ∉ l → mro_lookup (setattr c name v w) name' l = mro_lookup w name' l.
Proof.
  induction l as [|x l IH]; [done|]. intros [Hx Hl]%not_elem_of_cons. cbn [mro_lookup].
  rewrite own_attr_setattr, IH by done. destruct (decide _) as [[= ? _]|]; done.
Qed.

Lemma mro_lookup_setattr_at w c name v pre post :
  (∀ x, x ∈ pre → own_attr w x name = None) →
  mro_lookup (setattr c name v w) name (pre ++ c :: post) = Some v.
Proof.
  induction pre as [|x pre IH]; intros Hpre; cbn [app mro_lookup]; rewrite own_attr_setattr.
  - by rewrite decide_True.
  - destruct (decide _); [done|]. rewrite (Hpre x) by left. apply IH.
    intros y Hy. apply Hpre. by right.
Qed.

Lemma getattr_setattr_name w c name v d name' :
  name' ≠ name → getattr (setattr c name v w) d name' = getattr w d name'.
Proof. intros. unfold getattr. wsimpl. by apply mro_lookup_setattr_name. Qed.

Lemma getattr_setattr_class w c name v d name' :
  issubclass (heap w) d c = false →
  getattr (setattr c name v w) d name' = getattr w d name'.
Proof.
  intros Hd%bool_decide_eq_false. unfold getattr. wsimpl.
  by apply mro_lookup_setattr_class.
Qed.

Lemma getattr_setattr_self w c name v :
  heap_ok (heap w) → c < length (heap w) →
  getattr (setattr c name v w) c name = Some v.
Proof.
  intros Hok Hc. apply getattr_own; [done..|].
  rewrite own_attr_setattr. by rewrite decide_True.
Qed.

(** The method resolution order of a class holds that of each of its
    members: [issubclass] is transitive. *)
Lemma mro_of_trans h c b x :
  heap_ok h → b ∈ mro_of h c → x ∈ mro_of h b → x ∈ mro_of h c.
Proof.
  intros Hok. revert b x. induction (lt_wf c) as [c _ IH]. intros b x Hb Hx.
  unfold mro_of in Hb |- *. destruct (h !! c) as [k|] eqn:Hc; [|by apply elem_of_nil in Hb].
  destruct (heap_ok_lookup _ _ _ Hok Hc) as [_ [[Hc0 ->]|(Hc0 & Hne & Hlt & Hl)]].
  { cbn in Hb. apply list_elem_of_singleton in Hb as ->. subst c.
    unfold mro_of, object_ in Hx. by rewrite Hc in Hx. }
  apply linearize_inv in Hl as (l & Hmro & Hm). rewrite Hmro in Hb |- *.
  apply elem_of_cons in Hb as [->|Hb].
  { unfold mro_of in Hx. by rewrite Hc, Hmro in Hx. }
  right. destruct (merge_sound _ _ _ _ Hm Hb) as (s & Hs & Hbs).
  apply elem_of_app in Hs as [Hs|Hs%list_elem_of_singleton].
  - apply list_elem_of_fmap in Hs as (base & -> & Hbase).
    eapply merge_complete; [done| |].
    + apply elem_of_app. left. apply list_elem_of_fmap. by exists base.
    + eapply IH; [|done..]. by eapply Forall_forall in Hlt.
  - subst s. eapply merge_complete; [done| |done].
    apply elem_of_app. left. apply list_elem_of_fmap. by exists b.
Qed.

Lemma issubclass_trans h a b c :
  heap_ok h → issubclass h a b = true → issubclass h b c = true →
  issubclass h a c = true.
Proof.
  unfold issubclass. intros Hok Hab%bool_decide_eq_true Hbc%bool_decide_eq_true.
  apply bool_decide_eq_true. by eapply mro_of_trans.
Qed.

Lemma wf_wfb w : wf w → wfb w = true.
Proof. apply bool_decide_eq_true. Qed.

(** ** Aliases and the rendering of declared types *)

Lemma record_is_child_class w c :
  wf w → issubclass (heap w) c Cls.Record = true →
  is_child_class (heap w) c Cls.BaseRecord = true.
Proof.
  intros Hwf Hc. unfold is_child_class. apply andb_true_iff. split.
  - apply (issubclass_trans _ _ Cls.Record); [by destruct Hwf|done|].
    by rewrite init_issubclass by (done || (vm_compute; lia)).
  - apply negb_true_iff, bool_decide_eq_false. intros ->.
    by rewrite init_issubclass in Hc by (done || (vm_compute; lia)).
Qed.

(** The class that the foreign-key derivation returns renders as [INT]. *)
Lemma fk_getitem_type_sql w X d w' :
  wf w → ForeignTableKey.__class_getitem__ (Cls.ForeignTableKey, X) w = (Ok d, w') →
  wf w' ∧ SQLType.__type_sql__ w' d = Ok "INT".
Proof.
  intros Hwf Hrun. destruct (fk_getitem_spec _ _ _ _ _ Hwf Hrun) as [Hstep Hpost].
  destruct (Hpost d eq_refl) as [Hl _].
  pose proof (step_wf _ _ Hstep) as Hwf'. split; [done|].
  destruct (fk_cached _ _ _ _ Hwf' Hl) as (Hshape & Hbase & Hsql). cbn [fst snd] in *.
  assert (heap_ok (heap w')) as Hok by (by destruct Hwf').
  apply (type_sql_derived w' d [Cls.ForeignTableKey; Cls.Int]); try done.
  - eapply (issubclass_base _ _ _ Cls.Int); [done..|right; left|].
    by rewrite init_issubclass by (done || (vm_compute; lia)).
  - eapply (issubclass_base _ _ _ Cls.Int); [done..|right; left|].
    by rewrite init_issubclass by (done || (vm_compute; lia)).
Qed.

(** The alias table plays no part in attribute lookup. *)
Lemma mro_lookup_set_type_aliases m w name l :
  mro_lookup (set_type_aliases m w) name l = mro_lookup w name l.
Proof. induction l as [|c l IH]; [done|]. cbn [mro_lookup]. by rewrite IH. Qed.

Lemma type_sql_set_type_aliases m w c :
  SQLType.__type_sql__ (set_type_aliases m w) c = SQLType.__type_sql__ w c.
Proof.
  unfold SQLType.__type_sql__, SQLType.has_method, getattr. wsimpl.
  by rewrite mro_lookup_set_type_aliases.
Qed.

(** ** The classes that wrap a type *)

Lemma string_app_nil_r (s : string) : s +:+ "" = s.
Proof.
  induction s as [|a s IH]; [done|].
  change (String a (s +:+ "") = String a s). by f_equal.
Qed.

(** What every class returned by [Nullable[B]], [NotNull[B]] or
    [PrimaryKey[B]] is made of. *)
Lemma wrapper_entry depth cls B w d w' :
  wf w → cls ∈ [Cls.Nullable; Cls.NotNull; Cls.PrimaryKey] →
  SQLTypeWithType__class_getitem__ depth (cls, B) w = (Ok d, w') →
  wf w' ∧
  ∃ b sb,
    subclass_shape (heap w') d [cls; b] ∧
    getattr w' d "_TYPE_BASE_" = Some (VClass b) ∧
    SQLType.__type_sql__ w' b = Ok sb ∧
    static_attr (heap w') d "__TYPE_SQL__"
    = Some (VStr (sb +:+ (if bool_decide (cls = Cls.Nullable) then ""
                          else if bool_decide (cls = Cls.NotNull) then " NOT NULL"
                          else " PRIMARY KEY"))) ∧
    issubclass (heap w') d Cls.SQLType = true ∧
    issubclass (heap w') d Cls.Final = true ∧
    issubclass (heap w') d cls = true.
Proof.
  intros Hwf Hcls Hrun.
  destruct (wrap_getitem_entry _ _ _ _ _ _ Hwf Hrun) as (Hstep & b & Hbase & Hs & Hsql & Hw).
  pose proof (step_wf _ _ Hstep) as Hwf'. pose proof (wf_heap _ Hwf') as Hok'.
  split; [done|].
  assert (cls ∈ [Cls.Nullable; Cls.NotNull; Cls.PrimaryKey; Cls.ForeignTableKey]) as Hcls'.
  { rewrite !elem_of_cons, elem_of_nil in Hcls. rewrite !elem_of_cons. tauto. }
  pose proof (sql_extends_has_method _ _ _ _ Hsql) as Hb.
  unfold sql_extends in Hsql. rewrite <- (type_sql_bare w' b) in Hsql by by destruct Hwf'.
  destruct (SQLType.__type_sql__ w' b) as [sb|] eqn:Hsb; [|done].
  exists b, sb. split; [done|]. split.
  { apply getattr_own; [done|by eapply subclass_shape_lt|].
    rewrite own_attr_static; [done|by destruct Hwf'|done]. }
  split; [done|]. split.
  { rewrite !elem_of_cons, elem_of_nil in Hcls.
    destruct Hcls as [->|[->|[->|[]]]];
      rewrite init_getattr in Hsql by (done || (vm_compute; lia)); exact Hsql. }
  split; [by eapply (issubclass_base _ _ _ b); [done..|right; left|]|].
  split; apply (wrapper_issubclass w' d cls b); try done; [left|right; left].
Qed.

(** ** The order of a linearisation *)

Section c3_order.
Import C3.

Lemma drop_head_not_elem cand (s : list cid) : cand ∉ tail s → cand ∉ drop_head cand s.
Proof.
  destruct s as [|h t]; cbn; [by intros _ ?%elem_of_nil|].
  destruct (decide (h = cand)) as [->|Hne]; [done|].
  intros Ht [->|?]%elem_of_cons; done.
Qed.

(** No class occurs twice in a merge. *)
Lemma merge_NoDup fuel seqs l : merge fuel seqs = Some l → NoDup l.
Proof.
  revert seqs l. induction fuel as [|fuel IH]; intros seqs l Hm;
    apply merge_inv in Hm as [[_ ->]|(fuel' & cand & l' & Hf & -> & Hc & Hm)];
    try apply NoDup_nil_2; [done|].
  injection Hf as <-. apply NoDup_cons. split; [|by eapply IH].
  intros Hin. destruct (merge_sound _ _ _ _ Hm Hin) as (s & Hs & Hcs).
  apply list_elem_of_fmap in Hs as (s' & -> & Hs').
  apply find_cand_Some in Hc as [_ Htail].
  by apply (drop_head_not_elem cand s' (in_some_tail_false _ _ _ Htail Hs')).
Qed.

(** A merge keeps the order of each of its sequences. *)
Lemma merge_sublist fuel seqs l s : merge fuel seqs = Some l → s ∈ seqs → s `sublist_of` l.
Proof.
  revert seqs l s. induction fuel as [|fuel IH]; intros seqs l s Hm Hs;
    apply merge_inv in Hm as [[Hne ->]|(fuel' & cand & l' & Hf & -> & Hc & Hm)];
    try (by rewrite (filter_nonempty_nil _ _ Hne Hs)); [done|].
  injection Hf as <-. destruct s as [|h t]; [apply sublist_nil_l|].
  assert (h :: t ∈ List.filter nonempty seqs) as Hs'
    by (by apply elem_of_filter_nonempty).
  assert (drop_head cand (h :: t) `sublist_of` l') as Hsub.
  { eapply IH; [done|]. apply list_elem_of_fmap. by exists (h :: t). }
  cbn in Hsub. destruct (decide (h = cand)) as [->|Hne].
  - by apply sublist_skip.
  - by apply sublist_cons.
Qed.

Lemma two_orders (a b : cid) l :
  NoDup l → [a; b] `sublist_of` l → [b; a] `sublist_of` l → False.
Proof.
  induction l as [|x l IH]; intros Hnd H1 H2.
  { apply sublist_cons_l in H1 as (k1 & k2 & Hk & _). by destruct k1. }
  apply NoDup_cons in Hnd as [Hx Hnd].
  apply sublist_cons_r in H1 as [H1|(l1 & [= Ha Hl1] & H1)];
    apply sublist_cons_r in H2 as [H2|(l2 & [= Hb Hl2] & H2)].
  - by apply IH.
  - subst x. apply Hx. apply (elem_of_sublist [a; b]); [right; left|done].
  - subst x. apply Hx. apply (elem_of_sublist [b; a]); [right; left|done].
  - subst. apply Hx. apply (elem_of_sublist [x]); [left|done].
Qed.

(** A class cannot come before one of its subclasses among the bases of a
    new class. *)
Lemma linearize_conflict h self cls B :
  heap_ok h → cls ∈ mro_of h B → cls ≠ B →
  linearize self (map (mro_of h) [cls; B]) [cls; B] = None.
Proof.
  intros Hok Hcls Hne. destruct (linearize _ _ _) as [mro|] eqn:Hl; [|done]. exfalso.
  apply linearize_inv in Hl as (l & _ & Hm).
  pose proof (merge_NoDup _ _ _ Hm) as Hnd.
  assert ([cls; B] `sublist_of` l) as H1.
  { eapply merge_sublist; [done|]. cbn. right; right; left. }
  assert (mro_of h B `sublist_of` l) as H2.
  { eapply merge_sublist; [done|]. cbn. right; left. }
  apply (two_orders cls B l Hnd H1). etrans; [|exact H2].
  unfold mro_of in Hcls |- *. destruct (h !! B) as [k|] eqn:HB; [|by apply elem_of_nil in Hcls].
  destruct (mro_head _ _ _ Hok HB) as [t Ht]. rewrite Ht in Hcls |- *.
  apply elem_of_cons in Hcls as [?|Hcls]; [done|].
  apply sublist_skip. by apply singleton_sublist_l.
Qed.

End c3_order.

Lemma new_class_conflict h name cls B ns ann :
  heap_ok h → issubclass h B cls = true → cls ≠ B → cls < length h →
  new_class name [cls; B] ns ann h
  = (Raise (TypeError "Cannot create a consistent method resolution order (MRO)"), h).
Proof.
  intros Hok HB Hne Hcls. pose proof (issubclass_lt _ _ _ HB) as HBlt.
  unfold new_class. cbv zeta. cbn [forallb].
  rewrite !bool_decide_eq_true_2 by done. cbn [andb negb].
  rewrite (bool_decide_eq_true_2 (NoDup [cls; B])).
  2:{ apply NoDup_cons. split; [by intros ->%list_elem_of_singleton|].
      apply NoDup_singleton. }
  cbn [negb]. rewrite linearize_conflict; [done..| |done].
  by apply bool_decide_eq_true in HB.
Qed.

(** ** What the caches record of a derivation *)

Lemma namespace_of_lt h c ns : namespace_of h c = Some ns → c < length h.
Proof.
  unfold namespace_of. destruct (h !! c) eqn:Hc; [|done]. intros _. by eapply lookup_lt_Some.
Qed.

Lemma namespace_of_extends (h h' : class_heap) c :
  h `prefix_of` h' → c < length h → namespace_of h' c = namespace_of h c.
Proof. intros Hext Hc. unfold namespace_of. by rewrite (lookup_extends h h'). Qed.

Lemma static_attr_namespace h c ns name :
  namespace_of h c = Some ns → static_attr h c name = assoc name ns.
Proof.
  unfold namespace_of, static_attr. destruct (h !! c); [|done]. by intros [= <-].
Qed.

Lemma length_entry_ok_extends (h h' : class_heap) e :
  heap_ok h → h `prefix_of` h' → length_entry_ok h e → length_entry_ok h' e.
Proof.
  intros Hok Hext (Hn & Hsql).
  destruct (SQLType.__type_sql__ (bare h) e.1.1) as [s|] eqn:Hs; [|done].
  pose proof (namespace_of_lt _ _ _ Hsql) as Hd.
  pose proof (type_sql_ok_lt _ _ _ Hs) as Hc. cbn [bare heap] in Hc.
  unfold length_entry_ok.
  rewrite (namespace_of_extends h h'), !(name_of_extends h h') by done.
  by rewrite (type_sql_extends (bare h) (bare h')), Hs by done.
Qed.

Lemma decimal_entry_ok_extends (h h' : class_heap) e :
  h `prefix_of` h' → decimal_entry_ok h e → decimal_entry_ok h' e.
Proof.
  intros Hext (Hns & Hc & Hn).
  pose proof (namespace_of_lt _ _ _ Hns) as Hd.
  unfold decimal_entry_ok.
  rewrite (namespace_of_extends h h'), !(name_of_extends h h') by done.
  repeat split; try done. apply prefix_length in Hext. lia.
Qed.

Lemma values_entry_ok_extends (h h' : class_heap) e :
  heap_ok h → h `prefix_of` h' → values_entry_ok h e → values_entry_ok h' e.
Proof.
  intros Hok Hext (Hn & Hsql).
  destruct (SQLType.__type_sql__ (bare h) e.1.1) as [s|] eqn:Hs; [|done].
  pose proof (namespace_of_lt _ _ _ Hsql) as Hd.
  pose proof (type_sql_ok_lt _ _ _ Hs) as Hc. cbn [bare heap] in Hc.
  unfold values_entry_ok.
  rewrite (namespace_of_extends h h'), !(name_of_extends h h') by done.
  by rewrite (type_sql_extends (bare h) (bare h')), Hs by done.
Qed.

Lemma same_params_refl w : same_params w w.
Proof. done. Qed.

Lemma same_params_trans w1 w2 w3 :
  same_params w1 w2 → same_params w2 w3 → same_params w1 w3.
Proof. intros (?&?&?) (?&?&?). repeat split; congruence. Qed.

(** What the caches record stays recorded when classes are added and the
    three caches stay. *)
Lemma recorded_frame w w' :
  heap_ok (heap w) → heap w `prefix_of` heap w' → same_params w w' →
  recorded w → recorded w'.
Proof.
  intros Hok Hext (H1 & H2 & H3) []. constructor; rewrite ?H1, ?H2, ?H3.
  - eapply Forall_impl; [done|]. intros. by eapply length_entry_ok_extends.
  - eapply Forall_impl; [done|]. intros. by eapply decimal_entry_ok_extends.
  - eapply Forall_impl; [done|]. intros. by eapply values_entry_ok_extends.
Qed.

Lemma same_params_bind {A B} (m : M A) (f : A → M B) w r w' :
  (∀ r1 w1, m w = (r1, w1) → same_params w w1) →
  (∀ a w1 r2 w2, m w = (Ok a, w1) → f a w1 = (r2, w2) → same_params w1 w2) →
  bind m f w = (r, w') → same_params w w'.
Proof.
  intros Hm Hf [(e & Hrun & _)|(a & w1 & Hrun & Hrun')]%bind_inv.
  - by eapply Hm.
  - eapply same_params_trans; [by eapply Hm|by eapply Hf].
Qed.

Lemma same_params_try {A} (f : world → result A) w r w' :
  try f w = (r, w') → same_params w w'.
Proof. by intros [_ ->]%try_inv. Qed.

Lemma same_params_gets {A} (f : world → A) w r w' :
  gets f w = (r, w') → same_params w w'.
Proof. by intros [_ ->]%gets_inv. Qed.

Lemma same_params_lift {A} (x : result A) w r w' :
  lift x w = (r, w') → same_params w w'.
Proof. by intros [_ ->]%lift_inv. Qed.

Lemma same_params_declare_class name bases ns ann w r w' :
  declare_class name bases ns ann w = (r, w') → same_params w w'.
Proof. intros (? & ? & ? & _)%declare_class_caches. by repeat split. Qed.

Lemma same_params_lru_cache {K} `{EqDecision K} (get : world → list (K * cid))
    (set : list (K * cid) → world → world) f k w r w' :
  (∀ c w0, same_params w0 (set c w0)) →
  (∀ r1 w1, f k w = (r1, w1) → same_params w w1) →
  lru_cache get set f k w = (r, w') → same_params w w'.
Proof.
  intros Hset Hf
    [(v & Hl & _ & ->)|[_ [(e & Hrun & _)|(v & w1 & Hrun & _ & ->)]]]%lru_cache_inv.
  - apply Hset.
  - by eapply Hf.
  - eapply same_params_trans; [by eapply Hf|apply Hset].
Qed.

Ltac same_next lem :=
  lazymatch goal with
  | Hb : bind _ _ _ = _ |- _ =>
      refine (same_params_bind _ _ _ _ _ _ _ Hb); [intros ? ?; apply lem|];
      clear Hb; intros ? ? ? ? _ Hb
  end.

Lemma same_params_fk k w r w' :
  ForeignTableKey.__class_getitem__ k w = (r, w') → same_params w w'.
Proof.
  intros Hrun. unfold ForeignTableKey.__class_getitem__ in Hrun.
  apply same_params_lru_cache in Hrun; [done|done|]. destruct k as [cls t].
  intros r1 w1 Hb.
  same_next @same_params_try. same_next @same_params_gets. same_next @same_params_try.
  by apply same_params_declare_class in Hb.
Qed.

Lemma same_params_withtype_body norm cls t w r w' :
  (∀ t ens w r w', norm t ens w = (r, w') → same_params w w') →
  SQLTypeWithType.class_getitem_body norm (cls, t) w = (r, w') → same_params w w'.
Proof.
  intros Hn Hb. unfold SQLTypeWithType.class_getitem_body in Hb.
  same_next @same_params_try. same_next @same_params_try.
  refine (same_params_bind _ _ _ _ _ _ _ Hb); [intros ? ?; apply Hn|].
  clear Hb; intros ? ? ? ? _ Hb.
  same_next @same_params_gets. same_next @same_params_try. same_next @same_params_lift.
  by apply same_params_declare_class in Hb.
Qed.

Lemma same_params_actual_type depth t ens w r w' :
  SQLTypeEnv.actual_type depth t ens w = (r, w') → same_params w w'.
Proof.
  revert t ens w r w'. induction depth as [|depth IH]; intros t ens w r w' Hrun.
  { by injection Hrun as _ <-. }
  cbn [SQLTypeEnv.actual_type] in Hrun.
  destruct (SQLTypeEnv._is_typing_optional t).
  { apply bind_inv in Hrun as [(e & [_ ->]%lift_inv & _)|(t' & s1 & [_ ->]%lift_inv & Hrun)];
      [done|by eapply IH]. }
  destruct t as [c|args|o]; [|by injection Hrun as _ <-..].
  apply bind_inv in Hrun as [(e & [? _]%gets_inv & _)|(isrec & s1 & [_ ->]%gets_inv & Hrun)];
    [done|].
  destruct isrec; [by eapply same_params_fk|].
  apply bind_inv in Hrun as [(e & [? _]%gets_inv & _)|(t' & s1 & [_ ->]%gets_inv & Hrun)];
    [done|].
  apply bind_inv in Hrun as [(e & [? _]%gets_inv & _)|(wrap & s1 & [_ ->]%gets_inv & Hrun)];
    [done|].
  destruct wrap; [|by injection Hrun as _ <-].
  unfold SQLTypeWithType.class_getitem_with in Hrun.
  apply same_params_lru_cache in Hrun; [done|done|].
  intros r1 w1 Hb. by eapply same_params_withtype_body.
Qed.

Lemma same_params_withtype depth k w r w' :
  SQLTypeWithType__class_getitem__ depth k w = (r, w') → same_params w w'.
Proof.
  intros Hrun. unfold SQLTypeWithType__class_getitem__, SQLTypeWithType.class_getitem_with in Hrun.
  apply same_params_lru_cache in Hrun; [done|done|]. destruct k as [cls t].
  intros r1 w1 Hb. eapply same_params_withtype_body; [|done].
  intros ?????. apply same_params_actual_type.
Qed.

Lemma declare_class_fails name bases ns ann w e w' :
  declare_class name bases ns ann w = (Raise e, w') → w' = w.
Proof.
  unfold declare_class. destruct (new_class _ _ _ _ _) as [r0 h0] eqn:Hnew.
  intros [= -> <-].
  apply new_class_inv in Hnew as [(e' & _ & ->)|(mro & ? & _)]; [by destruct w|done].
Qed.

Lemma get_type_sql_Ok w c s :
  get_type_sql w c = Ok s → SQLType.__type_sql__ w c = Ok s.
Proof. unfold get_type_sql. by destruct (issubclass _ _ _). Qed.

(** The three outcomes of a derivation by length: the cached class, a
    failure that changes nothing, or a new class. *)
Lemma length_getitem_inv cls l w r w' :
  wf w → SQLTypeWithOptionalLength.__class_getitem__ (cls, l) w = (r, w') →
  (∃ d, lru.lookup (cls, l) (cache_length w) = Some d ∧ r = Ok d ∧
        w' = set_cache_length (lru.touch (cls, l) d (cache_length w)) w) ∨
  (lru.lookup (cls, l) (cache_length w) = None ∧
   ((∃ e, r = Raise e ∧ w' = w) ∨
    ∃ s mro,
      SQLType.__type_sql__ w cls = Ok s ∧ cls < length (heap w) ∧
      r = Ok (length (heap w)) ∧
      let k := PyClass (name_of (heap w) cls +:+ "_len" +:+ pretty l) [cls] mro
                 [("_TYPE_HAS_KEY_", VBool true); ("_MAX_LEN_", VInt l);
                  ("__TYPE_SQL__", VStr (s +:+ "(" +:+ pretty l +:+ ")"))] [] in
      let w1 := set_heap (heap w ++ [k]) w in
      step w w1 ∧
      w' = set_cache_length (lru.store (cls, l) (length (heap w)) (cache_length w)) w1)).
Proof.
  intros Hwf Hrun. unfold SQLTypeWithOptionalLength.__class_getitem__ in Hrun.
  apply lru_cache_inv in Hrun
    as [(v & Hl & -> & ->)|[Hmiss [(e & Hb & ->)|(v & w1 & Hb & -> & ->)]]].
  { left. by exists v. }
  - right. split; [done|]. left. exists e. split; [done|].
    apply bind_inv in Hb as [(e' & [_ ->]%try_inv & _)|(? & s1 & [_ ->]%try_inv & Hb)]; [done|].
    apply bind_inv in Hb as [(e' & [? _]%gets_inv & _)|(name & s2 & [_ ->]%gets_inv & Hb)];
      [done|].
    apply bind_inv in Hb as [(e' & [_ ->]%try_inv & _)|(sql & s3 & [_ ->]%try_inv & Hb)];
      [done|].
    by apply declare_class_fails in Hb.
  - right. split; [done|]. right.
    apply bind_inv in Hb as [(e' & _ & ?)|(? & s1 & [_ ->]%try_inv & Hb)]; [done|].
    apply bind_inv in Hb as [(e' & _ & ?)|(name & s2 & [[= <-] ->]%gets_inv & Hb)]; [done|].
    apply bind_inv in Hb as [(e' & _ & ?)|(sql & s3 & [Hsql ->]%try_inv & Hb)]; [done|].
    symmetry in Hsql. apply get_type_sql_Ok in Hsql.
    apply new_subclass_inv in Hb as [(? & ? & _)|(mro & [= ->] & -> & Hl & Hlt & Hstep)];
      [done| |done].
    exists sql, mro. split; [done|]. split; [by inv Hlt|]. done.
Qed.

Lemma decimal_getitem_inv cls pr sc w r w' :
  wf w → DecimalType.__class_getitem__ (cls, (pr, sc)) w = (r, w') →
  (∃ d, lru.lookup (cls, (pr, sc)) (cache_decimal w) = Some d ∧ r = Ok d ∧
        w' = set_cache_decimal (lru.touch (cls, (pr, sc)) d (cache_decimal w)) w) ∨
  (lru.lookup (cls, (pr, sc)) (cache_decimal w) = None ∧
   ((∃ e, r = Raise e ∧ w' = w) ∨
    ∃ mro,
      cls < length (heap w) ∧ r = Ok (length (heap w)) ∧
      let k := PyClass (name_of (heap w) cls +:+ "_" +:+ pretty pr +:+ "_" +:+ pretty sc)
                 [cls] mro
                 [("_TYPE_HAS_KEY_", VBool true); ("_TYPE_DECI_PREC_", VInt pr);
                  ("_TYPE_DECI_SCALE_", VInt sc)] [] in
      let w1 := set_heap (heap w ++ [k]) w in
      step w w1 ∧
      w' = set_cache_decimal
             (lru.store (cls, (pr, sc)) (length (heap w)) (cache_decimal w)) w1)).
Proof.
  intros Hwf Hrun. unfold DecimalType.__class_getitem__ in Hrun.
  apply lru_cache_inv in Hrun
    as [(v & Hl & -> & ->)|[Hmiss [(e & Hb & ->)|(v & w1 & Hb & -> & ->)]]].
  { left. by exists v. }
  - right. split; [done|]. left. exists e. split; [done|].
    apply bind_inv in Hb as [(e' & [? _]%gets_inv & _)|(name & s2 & [_ ->]%gets_inv & Hb)];
      [done|].
    by apply declare_class_fails in Hb.
  - right. split; [done|]. right.
    apply bind_inv in Hb as [(e' & _ & ?)|(name & s2 & [[= <-] ->]%gets_inv & Hb)]; [done|].
    apply new_subclass_inv in Hb as [(? & ? & _)|(mro & [= ->] & -> & Hl & Hlt & Hstep)];
      [done| |done].
    exists mro. split; [by inv Hlt|]. done.
Qed.

Lemma values_getitem_inv cls values w r w' :
  wf w → SQLTypeWithValues.__class_getitem__ (cls, values) w = (r, w') →
  (∃ d, lru.lookup (cls, values) (cache_values w) = Some d ∧ r = Ok d ∧
        w' = set_cache_values (lru.touch (cls, values) d (cache_values w)) w) ∨
  (lru.lookup (cls, values) (cache_values w) = None ∧
   ((∃ e, r = Raise e ∧ w' = w) ∨
    ∃ s mro,
      SQLType.__type_sql__ w cls = Ok s ∧ cls < length (heap w) ∧
      r = Ok (length (heap w)) ∧
      let k := PyClass (name_of (heap w) cls +:+ "_vals_" +:+ join "_" values) [cls] mro
                 [("_TYPE_HAS_KEY_", VBool true); ("_TYPE_VALUES_", VStrTuple values);
                  ("__TYPE_SQL__",
                   VStr (s +:+ "(" +:+ join ", " (map (λ v, "'" +:+ v +:+ "'") values)
                           +:+ ")"))] [] in
      let w1 := set_heap (heap w ++ [k]) w in
      step w w1 ∧
      w' = set_cache_values (lru.store (cls, values) (length (heap w)) (cache_values w)) w1)).
Proof.
  intros Hwf Hrun. unfold SQLTypeWithValues.__class_getitem__ in Hrun.
  apply lru_cache_inv in Hrun
    as [(v & Hl & -> & ->)|[Hmiss [(e & Hb & ->)|(v & w1 & Hb & -> & ->)]]].
  { left. by exists v. }
  - right. split; [done|]. left. exists e. split; [done|].
    apply bind_inv in Hb as [(e' & [? _]%gets_inv & _)|(name & s2 & [_ ->]%gets_inv & Hb)];
      [done|].
    apply bind_inv in Hb as [(e' & [_ ->]%try_inv & _)|(sql & s3 & [_ ->]%try_inv & Hb)];
      [done|].
    by apply declare_class_fails in Hb.
  - right. split; [done|]. right.
    apply bind_inv in Hb as [(e' & _ & ?)|(name & s2 & [[= <-] ->]%gets_inv & Hb)]; [done|].
    apply bind_inv in Hb as [(e' & _ & ?)|(sql & s3 & [Hsql ->]%try_inv & Hb)]; [done|].
    symmetry in Hsql. apply get_type_sql_Ok in Hsql.
    apply new_subclass_inv in Hb as [(? & ? & _)|(mro & [= ->] & -> & Hl & Hlt & Hstep)];
      [done| |done].
    exists sql, mro. split; [done|]. split; [by inv Hlt|]. done.
Qed.

Lemma namespace_of_new (h : class_heap) k :
  namespace_of (h ++ [k]) (length h) = Some (cls_ns k).
Proof. unfold namespace_of. by rewrite lookup_app_r, Nat.sub_diag. Qed.

Lemma name_of_new (h : class_heap) k : name_of (h ++ [k]) (length h) = cls_name k.
Proof. unfold name_of. by rewrite lookup_app_r, Nat.sub_diag. Qed.

Lemma type_sql_bare_snoc w k c s :
  wf w → SQLType.__type_sql__ w c = Ok s →
  SQLType.__type_sql__ (bare (heap w ++ [k])) c = Ok s.
Proof.
  intros Hwf Hs. rewrite <- Hs, (type_sql_bare w) by by destruct Hwf.
  apply (type_sql_extends (bare (heap w)) (bare (heap w ++ [k]))); wsimpl;
    [by destruct Hwf|by apply prefix_app_r|done|by apply type_sql_ok_lt in Hs].
Qed.

(** Every operation keeps what the caches record. *)
Lemma recorded_length_getitem k w r w' :
  wf w → recorded w → SQLTypeWithOptionalLength.__class_getitem__ k w = (r, w') →
  recorded w'.
Proof.
  intros Hwf Hrec Hrun. destruct k as [cls l].
  destruct (length_getitem_inv _ _ _ _ _ Hwf Hrun)
    as [(d & Hl & -> & ->)|[Hmiss [(e & -> & ->)|(s & mro & Hs & Hc & -> & Hstep & ->)]]];
    [|done|].
  - destruct Hrec. constructor; wsimpl; try done. by apply lru_Forall_touch.
  - assert (recorded (set_heap (heap w ++ [PyClass (name_of (heap w) cls +:+ "_len" +:+ pretty l)
              [cls] mro [("_TYPE_HAS_KEY_", VBool true); ("_MAX_LEN_", VInt l);
                         ("__TYPE_SQL__", VStr (s +:+ "(" +:+ pretty l +:+ ")"))] []]) w))
      as [].
    { eapply recorded_frame; [by destruct Hwf| |done|done]. wsimpl. by apply prefix_app_r. }
    constructor; wsimpl; try done. apply lru_Forall_store; [|done].
    unfold length_entry_ok. cbn [fst snd].
    rewrite namespace_of_new, name_of_new, (type_sql_bare_snoc w _ cls s) by done.
    rewrite (name_of_extends (heap w) (heap w ++ _)) by (done || by apply prefix_app_r).
    done.
Qed.

Lemma recorded_decimal_getitem k w r w' :
  wf w → recorded w → DecimalType.__class_getitem__ k w = (r, w') → recorded w'.
Proof.
  intros Hwf Hrec Hrun. destruct k as [cls [pr sc]].
  destruct (decimal_getitem_inv _ _ _ _ _ _ Hwf Hrun)
    as [(d & Hl & -> & ->)|[Hmiss [(e & -> & ->)|(mro & Hc & -> & Hstep & ->)]]];
    [|done|].
  - destruct Hrec. constructor; wsimpl; try done. by apply lru_Forall_touch.
  - assert (recorded (set_heap (heap w ++ [PyClass
              (name_of (heap w) cls +:+ "_" +:+ pretty pr +:+ "_" +:+ pretty sc)
              [cls] mro [("_TYPE_HAS_KEY_", VBool true); ("_TYPE_DECI_PREC_", VInt pr);
                         ("_TYPE_DECI_SCALE_", VInt sc)] []]) w))
      as [].
    { eapply recorded_frame; [by destruct Hwf| |done|done]. wsimpl. by apply prefix_app_r. }
    constructor; wsimpl; try done. apply lru_Forall_store; [|done].
    unfold decimal_entry_ok. cbn [fst snd].
    rewrite namespace_of_new, name_of_new.
    rewrite (name_of_extends (heap w) (heap w ++ _)) by (done || by apply prefix_app_r).
    repeat split; try done. rewrite length_app. cbn. lia.
Qed.

Lemma recorded_values_getitem k w r w' :
  wf w → recorded w → SQLTypeWithValues.__class_getitem__ k w = (r, w') → recorded w'.
Proof.
  intros Hwf Hrec Hrun. destruct k as [cls values].
  destruct (values_getitem_inv _ _ _ _ _ Hwf Hrun)
    as [(d & Hl & -> & ->)|[Hmiss [(e & -> & ->)|(s & mro & Hs & Hc & -> & Hstep & ->)]]];
    [|done|].
  - destruct Hrec. constructor; wsimpl; try done. by apply lru_Forall_touch.
  - assert (recorded (set_heap (heap w ++ [PyClass
              (name_of (heap w) cls +:+ "_vals_" +:+ join "_" values) [cls] mro
              [("_TYPE_HAS_KEY_", VBool true); ("_TYPE_VALUES_", VStrTuple values);
               ("__TYPE_SQL__",
                VStr (s +:+ "(" +:+ join ", " (map (λ v, "'" +:+ v +:+ "'") values)
                        +:+ ")"))] []]) w))
      as [].
    { eapply recorded_frame; [by destruct Hwf| |done|done]. wsimpl. by apply prefix_app_r. }
    constructor; wsimpl; try done. apply lru_Forall_store; [|done].
    unfold values_entry_ok. cbn [fst snd].
    rewrite namespace_of_new, name_of_new, (type_sql_bare_snoc w _ cls s) by done.
    rewrite (name_of_extends (heap w) (heap w ++ _)) by (done || by apply prefix_app_r).
    done.
Qed.

Lemma recorded_derive depth k w r w' :
  wf w → recorded w → derive depth k w = (r, w') → recorded w'.
Proof.
  intros Hwf Hrec Hrun.
  destruct k as [cls l|cls pr sc|cls values|cls t|cls t]; cbn [derive] in Hrun.
  - by eapply recorded_length_getitem.
  - by eapply recorded_decimal_getitem.
  - by eapply recorded_values_getitem.
  - destruct (wrap_getitem_spec _ _ _ _ _ _ Hwf Hrun) as [Hstep _].
    eapply recorded_frame; [by destruct Hwf|by destruct Hstep| |done].
    by eapply same_params_withtype.
  - destruct (fk_getitem_spec _ _ _ _ _ Hwf Hrun) as [Hstep _].
    eapply recorded_frame; [by destruct Hwf|by destruct Hstep| |done].
    by eapply same_params_fk.
Qed.

Lemma recorded_actual_type depth t ens w r w' :
  wf w → recorded w → SQLTypeEnv.actual_type depth t ens w = (r, w') → recorded w'.
Proof.
  intros Hwf Hrec Hrun.
  destruct (actual_type_ok depth t ens w r w' Hwf Hrun) as [Hstep _].
  eapply recorded_frame; [by destruct Hwf|by destruct Hstep| |done].
  by eapply same_params_actual_type.
Qed.

Lemma recorded_same_heap w w' :
  heap w' = heap w → same_params w w' → recorded w → recorded w'.
Proof. intros Hh (H1 & H2 & H3) []. constructor; by rewrite ?Hh, ?H1, ?H2, ?H3. Qed.

Lemma recorded_cached_length w cls l d :
  recorded w → lru.lookup (cls, l) (cache_length w) = Some d →
  length_entry_ok (heap w) ((cls, l), d).
Proof. intros [] Hl%lru_lookup_elem_of. by eapply Forall_forall in rec_length0. Qed.

Lemma recorded_cached_decimal w cls pr sc d :
  recorded w → lru.lookup (cls, (pr, sc)) (cache_decimal w) = Some d →
  decimal_entry_ok (heap w) ((cls, (pr, sc)), d).
Proof. intros [] Hl%lru_lookup_elem_of. by eapply Forall_forall in rec_decimal0. Qed.

Lemma recorded_cached_values w cls values d :
  recorded w → lru.lookup (cls, values) (cache_values w) = Some d →
  values_entry_ok (heap w) ((cls, values), d).
Proof. intros [] Hl%lru_lookup_elem_of. by eapply Forall_forall in rec_values0. Qed.

Lemma recorded_recordedb w : recorded w → recordedb w = true.
Proof. apply bool_decide_eq_true. Qed.

Lemma recordedb_recorded w : recordedb w = true → recorded w.
Proof. apply bool_decide_eq_true. Qed.

Lemma type_sql_final w c s :
  SQLType.__type_sql__ w c = Ok s → issubclass (heap w) c Cls.Final = true.
Proof.
  unfold SQLType.__type_sql__. destruct (negb (SQLType.has_method w c)); [done|].
  by destruct (issubclass (heap w) c Cls.Final).
Qed.

Lemma static_getattr w d name v :
  wf w → assigned_attr name = false →
  static_attr (heap w) d name = Some v → getattr w d name = Some v.
Proof.
  intros Hwf Hname Hs. apply getattr_own; [by destruct Hwf|by eapply static_attr_lt|].
  rewrite own_attr_static; [done|by destruct Hwf|done].
Qed.

Lemma length_cached w cls l d :
  wf w → lru.lookup (cls, l) (cache_length w) = Some d →
  subclass_shape (heap w) d [cls].
Proof.
  intros [] Hl%lru_lookup_elem_of.
  eapply Forall_forall in wf_length0; [|exact Hl]. exact wf_length0.
Qed.

Lemma decimal_cached w cls pr sc d :
  wf w → lru.lookup (cls, (pr, sc)) (cache_decimal w) = Some d →
  subclass_shape (heap w) d [cls].
Proof.
  intros [] Hl%lru_lookup_elem_of.
  eapply Forall_forall in wf_decimal0; [|exact Hl]. exact wf_decimal0.
Qed.

Lemma values_cached w cls values d :
  wf w → lru.lookup (cls, values) (cache_values w) = Some d →
  subclass_shape (heap w) d [cls].
Proof.
  intros [] Hl%lru_lookup_elem_of.
  eapply Forall_forall in wf_values0; [|exact Hl]. exact wf_values0.
Qed.

(** A class with one base is a proper subclass of it, and final and a
    subclass of [SQLType] if the base is. *)
Lemma single_base_subclass h d cls :
  heap_ok h → subclass_shape h d [cls] →
  issubclass h d cls = true ∧ d ≠ cls ∧
  ∀ x, issubclass h cls x = true → issubclass h d x = true.
Proof.
  intros Hok Hs.
  pose proof (subclass_shape_bases_lt h d [cls] cls Hok Hs) as Hlt.
  assert (cls < d) as Hlt' by (apply Hlt; left).
  assert (∀ x, issubclass h cls x = true → issubclass h d x = true) as Hinh.
  { intros x. apply (issubclass_base _ _ [cls]); [done..|left]. }
  split; [|split; [lia|done]]. apply Hinh, bool_decide_eq_true, mro_of_self; [done|].
  pose proof (subclass_shape_lt _ _ _ Hs). lia.
Qed.

(** ** The linearisation of a class with one base *)

Section c3_single.
Import C3.

Lemma merge_single fuel (s : list cid) :
  NoDup s → length s ≤ fuel → merge fuel [s] = Some s.
Proof.
  revert fuel. induction s as [|c t IH]; intros fuel Hnd Hlen.
  { by rewrite merge_eq. }
  destruct fuel as [|fuel]; [cbn in Hlen; lia|].
  apply NoDup_cons in Hnd as [Hc Hnd].
  rewrite merge_eq. cbn [List.filter nonempty find_cand in_some_tail existsb tail].
  rewrite bool_decide_eq_false_2 by done. cbn [orb map drop_head].
  rewrite decide_True by done. rewrite IH; [done..|]. cbn in Hlen. lia.
Qed.

Lemma merge_drop_nil fuel (s : list cid) : merge fuel [s; []] = merge fuel [s].
Proof. rewrite (merge_eq _ [s; []]), (merge_eq _ [s]). by destruct s. Qed.

Lemma linearize_single self (c : cid) (t : list cid) :
  NoDup (c :: t) → linearize self [c :: t] [c] = Some (self :: c :: t).
Proof.
  intros Hnd. pose proof Hnd as [Hc Hnd']%NoDup_cons.
  unfold linearize, fuel_for. cbn [app concat length].
  rewrite merge_eq. cbn [List.filter nonempty find_cand in_some_tail existsb tail].
  rewrite bool_decide_eq_false_2 by done.
  rewrite (bool_decide_eq_false_2 (c ∈ [])) by by intros ?%elem_of_nil.
  cbn [orb map drop_head]. rewrite !decide_True by done.
  rewrite merge_drop_nil, merge_single; [done..|]. rewrite length_app. lia.
Qed.

End c3_single.

(** No class occurs twice in a method resolution order. *)
Lemma mro_NoDup h c : heap_ok h → NoDup (mro_of h c).
Proof.
  intros Hok. unfold mro_of. destruct (h !! c) as [k|] eqn:Hc; [|apply NoDup_nil_2].
  destruct (heap_ok_lookup _ _ _ Hok Hc) as [_ [[_ ->]|(_ & _ & Hlt & Hl)]].
  { apply NoDup_singleton. }
  apply linearize_inv in Hl as (l & -> & Hm). apply NoDup_cons.
  split; [|by eapply merge_NoDup].
  intros Hin. destruct (merge_sound _ _ _ _ Hm Hin) as (s & Hs & Hcs).
  apply elem_of_app in Hs as [Hs|Hs%list_elem_of_singleton].
  - apply list_elem_of_fmap in Hs as (b & -> & Hb).
    apply (mro_of_closed _ _ _ Hok) in Hcs.
    eapply Forall_forall in Hlt; [|done]. lia.
  - subst s. eapply Forall_forall in Hlt; [|done]. lia.
Qed.


(** ** Creating values *)

(** The method resolution order of a class with one base. *)
Lemma mro_single h d cls :
  heap_ok h → subclass_shape h d [cls] → mro_of h d = d :: mro_of h cls.
Proof.
  intros Hok Hs.
  assert (cls < length h) as Hcls by (eapply shape_base_exists; [done..|left]).
  unfold subclass_shape in Hs. unfold mro_of at 1.
  destruct (h !! d) as [k|] eqn:Hd; [|done]. destruct Hs as (Hb & _).
  destruct (heap_ok_lookup _ _ _ Hok Hd) as [_ [[_ ->]|(_ & _ & _ & Hl)]]; [done|].
  rewrite Hb in Hl. cbn [map] in Hl.
  destruct (lookup_lt_is_Some_2 _ _ Hcls) as [kc Hkc].
  destruct (mro_head _ _ _ Hok Hkc) as [t Ht].
  pose proof (mro_NoDup h cls Hok) as Hnd.
  unfold mro_of in *. rewrite Hkc in *. rewrite Ht in *.
  rewrite linearize_single in Hl by done. by injection Hl as <-.
Qed.

(** No class of the source has a key. *)
Lemma init_no_key :
  Forall (λ k, head (cls_ns k) ≠ Some ("_TYPE_HAS_KEY_", VBool true)) init_heap.
Proof. apply (bool_decide_unpack _). vm_compute. reflexivity. Qed.

Lemma keyed_not_init w d rest :
  wf w → namespace_of (heap w) d = Some (("_TYPE_HAS_KEY_", VBool true) :: rest) →
  length init_heap ≤ d.
Proof.
  intros Hwf Hns. destruct (decide (length init_heap ≤ d)) as [|Hlt]; [done|]. exfalso.
  destruct (lookup_lt_is_Some_2 init_heap d) as [k Hk]; [lia|].
  pose proof init_no_key as Hno. eapply Forall_lookup_1 in Hno; [|done].
  unfold namespace_of in Hns. rewrite (init_lookup w d k Hwf Hk) in Hns.
  injection Hns as Hns. by rewrite Hns in Hno.
Qed.

(** The checks of [__new__] for a class with a key. *)
Lemma new_from_keyed w c l :
  getattr w c "_TYPE_HAS_KEY_" = Some (VBool true) →
  Cls.DecimalType ∉ l → SQLTypeWithKey.new_from w c l = Ok ().
Proof.
  intros Hkey. induction l as [|x l IH]; [done|]. intros [Hx Hl]%not_elem_of_cons.
  cbn [SQLTypeWithKey.new_from]. rewrite decide_False by done.
  destruct (decide (x = Cls.SQLTypeWithKey)); [rewrite Hkey|]; by apply IH.
Qed.

Lemma new_from_decimal w c l pr sc :
  getattr w c "_TYPE_HAS_KEY_" = Some (VBool true) →
  getattr w c "_TYPE_DECI_PREC_" = Some (VInt pr) →
  getattr w c "_TYPE_DECI_SCALE_" = Some (VInt sc) →
  Cls.DecimalType ∈ l →
  SQLTypeWithKey.new_from w c l
  = if (pr =? 0)%Z || (sc =? 0)%Z
    then Raise (RuntimeError "Precisoin and/or scale is not specified.")
    else Ok ().
Proof.
  intros Hkey Hpr Hsc. induction l as [|x l IH]; [by intros ?%elem_of_nil|].
  intros Hin. cbn [SQLTypeWithKey.new_from].
  destruct (decide (x = Cls.DecimalType)) as [->|Hx].
  - rewrite Hpr, Hsc. cbn [truthy]. rewrite !negb_involutive.
    destruct (pr =? 0)%Z; [done|]. destruct (sc =? 0)%Z; [done|]. cbn [orb].
    destruct (decide (Cls.DecimalType ∈ l)) as [Hl|Hl]; [|by apply new_from_keyed].
    rewrite (IH Hl). done.
  - apply elem_of_cons in Hin as [?|Hin]; [done|].
    destruct (decide (x = Cls.SQLTypeWithKey)); [rewrite Hkey|]; by apply IH.
Qed.

Lemma new_from_generic w c l :
  getattr w c "_TYPE_HAS_KEY_" = Some (VBool false) →
  Cls.DecimalType ∉ l → Cls.SQLTypeWithKey ∈ l →
  SQLTypeWithKey.new_from w c l = Raise (RuntimeError "Generic type key is not specified.").
Proof.
  intros Hkey. induction l as [|x l IH]; [by intros _ ?%elem_of_nil|].
  intros [Hx Hl]%not_elem_of_cons Hin. cbn [SQLTypeWithKey.new_from].
  rewrite decide_False by done.
  destruct (decide (x = Cls.SQLTypeWithKey)) as [->|Hne]; [by rewrite Hkey|].
  apply elem_of_cons in Hin as [?|Hin]; [done|]. by apply IH.
Qed.

Lemma new_from_plain w c l :
  Cls.DecimalType ∉ l → Cls.SQLTypeWithKey ∉ l → SQLTypeWithKey.new_from w c l = Ok ().
Proof.
  induction l as [|x l IH]; [done|].
  intros [Hx Hl]%not_elem_of_cons [Hx' Hl']%not_elem_of_cons.
  cbn [SQLTypeWithKey.new_from]. rewrite !decide_False by done. by apply IH.
Qed.

(** ** Validating values *)

(** The classes of the source validate in every well-formed world as they
    do when the modules are imported. *)
Lemma validate_init w c v :
  wf w → c < length init_heap →
  Validate.validate_value w c v = Validate.validate_value init_world c v.
Proof.
  intros Hwf Hc. pose proof (wf_attrs _ Hwf) as Hat.
  assert (∀ name, assigned_attr name = false →
            Validate.attr w c name = Validate.attr init_world c name) as Hattr.
  { intros name Hname. unfold Validate.attr.
    by rewrite getattr_bare, init_getattr by done. }
  unfold Validate.validate_value, SQLType.has_method.
  rewrite init_issubclass, (Hattr "_PY_TYPE_") by done.
  unfold Validate._validate_value, Validate.optional_max_len, Validate.max_len, Validate.range.
  by rewrite init_mro_of, (Hattr "_MIN_VALUE_"), (Hattr "_MAX_VALUE_"), (Hattr "_MAX_LEN_") by done.
Qed.


(** ** The columns of a record class *)

Lemma dict_set_fresh {A} n (v : A) d : n ∉ d.*1 → dict_set n v d = d ++ [(n, v)].
Proof.
  induction d as [|[k x] d IH]; [done|]. intros [Hk Hd]%not_elem_of_cons.
  cbn [dict_set]. destruct (String.eqb k n) eqn:Heq.
  - by apply String.eqb_eq in Heq.
  - by rewrite IH.
Qed.

Lemma dict_set_fst {A} n (v : A) d :
  (dict_set n v d).*1 = if bool_decide (n ∈ d.*1) then d.*1 else d.*1 ++ [n].
Proof.
  induction d as [|[k x] d IH]; [done|]. cbn [dict_set].
  destruct (String.eqb k n) eqn:Heq.
  - apply String.eqb_eq in Heq as ->. cbn. by rewrite bool_decide_eq_true_2 by left.
  - apply String.eqb_neq in Heq. cbn. rewrite IH.
    destruct (decide (n ∈ d.*1)) as [Hin|Hin].
    + by rewrite !bool_decide_eq_true_2 by (done || by right).
    + rewrite !bool_decide_eq_false_2; [done| |done].
      by intros [?|?]%elem_of_cons.
Qed.

Lemma dict_set_NoDup {A} n (v : A) d : NoDup d.*1 → NoDup (dict_set n v d).*1.
Proof.
  intros Hnd. rewrite dict_set_fst. destruct (decide (n ∈ d.*1)) as [Hin|Hin].
  - by rewrite bool_decide_eq_true_2.
  - rewrite bool_decide_eq_false_2 by done. apply NoDup_app. split; [done|].
    split; [|apply NoDup_singleton]. by intros x Hx ->%list_elem_of_singleton.
Qed.

Lemma dict_update_NoDup {A} (d upd : list (string * A)) :
  NoDup d.*1 → NoDup (dict_update d upd).*1.
Proof.
  unfold dict_update. revert d. induction upd as [|[k v] upd IH]; intros d Hnd; [done|].
  cbn [foldl]. by apply IH, dict_set_NoDup.
Qed.

(** The names of the type hints of a class are all different. *)
Lemma get_type_hints_NoDup h cls : NoDup (get_type_hints h cls).*1.
Proof.
  unfold get_type_hints. generalize (reverse (mro_of h cls)).
  assert (NoDup ([] : list (string * pytype)).*1) as Hnil by apply NoDup_nil_2.
  revert Hnil. generalize ([] : list (string * pytype)).
  intros acc Hacc l. revert acc Hacc. induction l as [|c l IH]; intros acc Hacc; [done|].
  cbn [foldl]. apply IH. destruct (h !! c); [|done]. by apply dict_update_NoDup.
Qed.

Lemma raw_column_types_loop_ok w hints acc :
  NoDup (acc.*1 ++ hints.*1) →
  Forall (λ h, is_private h.1 = false → SQLTypeEnv.is_compatible_type w h.2 = true) hints →
  RecordCls.raw_column_types_loop w hints acc
  = Ok (acc ++ List.filter (λ h, negb (is_private h.1)) hints).
Proof.
  revert acc. induction hints as [|[n t] hints IH]; intros acc Hnd Hall.
  { cbn. by rewrite app_nil_r. }
  apply Forall_cons in Hall as [Hn Hall]. cbn [fst snd] in Hn.
  cbn [RecordCls.raw_column_types_loop List.filter fst].
  rewrite fmap_cons in Hnd. cbn [fst] in Hnd.
  destruct (is_private n) eqn:Hp; cbn [negb].
  - apply IH; [|done]. apply NoDup_app in Hnd as (H1 & H2 & H3).
    apply NoDup_cons in H3 as [_ H3]. apply NoDup_app. split; [done|]. split; [|done].
    intros x Hx Hx'. apply (H2 x Hx). by right.
  - rewrite (Hn eq_refl). cbn [negb].
    apply NoDup_app in Hnd as (H1 & H2 & H3). apply NoDup_cons in H3 as [H4 H3].
    rewrite dict_set_fresh by (intros Hin; apply (H2 n Hin); left).
    rewrite IH; [by rewrite <- app_assoc|..|done].
    rewrite fmap_app. cbn. rewrite <- app_assoc. cbn.
    apply NoDup_app. split; [done|]. split; [done|]. by apply NoDup_cons.
Qed.

Lemma raw_column_types_loop_fails w h1 name t h2 acc :
  Forall (λ h, is_private h.1 = false → SQLTypeEnv.is_compatible_type w h.2 = true) h1 →
  is_private name = false → SQLTypeEnv.is_compatible_type w t = false →
  RecordCls.raw_column_types_loop w (h1 ++ (name, t) :: h2) acc
  = Raise (RuntimeError ("Type of column `" +:+ name +:+ "` is not compatible.")).
Proof.
  intros Hall Hp Ht. revert acc. induction Hall as [|[n' t'] h1 Hn _ IH]; intros acc.
  - cbn [app RecordCls.raw_column_types_loop]. by rewrite Hp, Ht.
  - cbn [app RecordCls.raw_column_types_loop]. cbn [fst snd] in Hn.
    destruct (is_private n'); [apply IH|]. rewrite (Hn eq_refl). cbn [negb]. apply IH.
Qed.

Lemma filter_fst_NoDup {A} (f : string * A → bool) (l : list (string * A)) :
  NoDup l.*1 → NoDup (List.filter f l).*1.
Proof.
  induction l as [|h l IH]; [done|]. cbn. intros [Hh Hnd]%NoDup_cons.
  destruct (f h); [|by apply IH]. cbn. apply NoDup_cons. split; [|by apply IH].
  intros Hin. apply Hh. apply list_elem_of_fmap in Hin as (x & -> & Hx).
  apply list_elem_of_fmap. exists x. split; [done|].
  apply list_elem_of_In, filter_In in Hx as [Hx _]. by apply list_elem_of_In.
Qed.

(** ** Connections *)

Lemma assoc_dict_set {A} n (v : A) d k :
  assoc k (dict_set n v d) = if String.eqb n k then Some v else assoc k d.
Proof.
  induction d as [|[k' x] d IH]; cbn [dict_set assoc].
  - by destruct (String.eqb n k).
  - destruct (String.eqb k' n) eqn:Hk'; cbn [assoc].
    + apply String.eqb_eq in Hk' as ->. by destruct (String.eqb n k).
    + rewrite IH. destruct (String.eqb k' k) eqn:Hk; [|done].
      apply String.eqb_eq in Hk as ->. by rewrite String.eqb_sym, Hk'.
Qed.

(** ** The table of a record class *)





(** * The claims *)







(** C3. For every subclass [X] of [Record], [ForeignTableKey[X]] returns a
    type that renders the same SQL as [Int] (the text ["INT"]) and records
    [X] as its [_TYPE_BASE_]. *)
Theorem C3_foreign_key_renders_as_int (w : world) (X : cid) :
  wfb w = true → issubclass (heap w) X Cls.Record = true →
  ∃ d w',
    ForeignTableKey.__class_getitem__ (Cls.ForeignTableKey, X) w = (Ok d, w') ∧
    SQLType.__type_sql__ w' d = SQLType.__type_sql__ w' Cls.Int ∧
    SQLType.__type_sql__ w' d = Ok "INT" ∧
    getattr w' d "_TYPE_BASE_" = Some (VClass X).
Proof.
  intros Hwf%wfb_wf HX.
  destruct (fk_getitem_returns w X Hwf HX) as (d & w' & Hrun).
  exists d, w'. split; [done|].
  destruct (fk_getitem_spec _ _ _ _ _ Hwf Hrun) as [Hstep Hpost].
  destruct (Hpost d eq_refl) as [Hl _].
  pose proof (step_wf _ _ Hstep) as Hwf'.
  destruct (fk_cached _ _ _ _ Hwf' Hl) as (Hshape & Hbase & Hsql). cbn [fst snd] in *.
  assert (heap_ok (heap w')) as Hok by (by destruct Hwf').
  assert (attrs_ok w') as Hat by (by destruct Hwf').
  pose proof (subclass_shape_lt _ _ _ Hshape) as Hd.
  assert (SQLType.__type_sql__ w' d = Ok "INT") as Hd_sql.
  { unfold SQLType.__type_sql__, SQLType.has_method.
    rewrite (issubclass_base _ _ _ Cls.Int Cls.SQLType Hok Hshape);
      [|right; left|by rewrite init_issubclass by (done || (vm_compute; lia))].
    rewrite (issubclass_base _ _ _ Cls.Int Cls.Final Hok Hshape);
      [|right; left|by rewrite init_issubclass by (done || (vm_compute; lia))].
    cbn [negb].
    rewrite (getattr_own _ _ _ (VStr "INT")); [done..|].
    by rewrite own_attr_static. }
  split; [by rewrite type_sql_Int|]. split; [done|].
  apply getattr_own; [done..|]. by rewrite own_attr_static.
Qed.

Lemma C3_foreign_key_renders_as_int_witness :
  ∃ d w',
    ForeignTableKey.__class_getitem__ (Cls.ForeignTableKey, Ex.Student) example_world
      = (Ok d, w') ∧
    SQLType.__type_sql__ w' d = SQLType.__type_sql__ w' Cls.Int ∧
    SQLType.__type_sql__ w' d = Ok "INT" ∧
    getattr w' d "_TYPE_BASE_" = Some (VClass Ex.Student).
Proof.
  apply (C3_foreign_key_renders_as_int example_world Ex.Student); vm_compute; reflexivity.
Defined.

(** C4, as amended.  [actual_type(t, ensure_nullable=e)] is:
    - for an optional annotation [Optional[X]], the normalisation of [X]
      with [ensure_nullable=False], which wraps nothing: for a class [X] it
      is the foreign key type of [X] if [X] is a record class and else [X]
      with its alias resolved;
    - for a record class, [ForeignTableKey[t]] as it is, not wrapped in
      [NotNull], whatever [e] and the policy;
    - for another class, with [t'] the class after alias resolution:
      [NotNull[t']], a subclass of [NotNull], if [e] holds (as it does when
      the column types of a record are derived), the default-not-null
      policy is active and [t'] is neither [Nullable] nor [NotNull]; else
      [t'] itself.
    A bound of three nested calls suffices for every declared type. *)
Theorem C4_nullability_normalization (depth : nat) (w : world) :
  wfb w = true →
  (∀ t t' e,
     SQLTypeEnv._is_typing_optional t = true →
     SQLTypeEnv._typing_optional_basetype t = Ok t' →
     SQLTypeEnv.actual_type (S (S depth)) t e w
       = SQLTypeEnv.actual_type (S depth) t' false w ∧
     SQLTypeEnv._is_typing_optional t' = false ∧
     ∀ c, t' = TClass c →
       SQLTypeEnv.actual_type (S (S depth)) t e w
       = if is_child_class (heap w) c Cls.BaseRecord
         then ForeignTableKey.__class_getitem__ (Cls.ForeignTableKey, c) w
         else (Ok (resolve_alias w c), w)) ∧
  (∀ c e,
     is_child_class (heap w) c Cls.BaseRecord = true →
     SQLTypeEnv.actual_type (S depth) (TClass c) e w
       = ForeignTableKey.__class_getitem__ (Cls.ForeignTableKey, c) w) ∧
  (∀ c e,
     is_child_class (heap w) c Cls.BaseRecord = false →
     if e && default_not_null w
        && negb (issubclass (heap w) (resolve_alias w c) Cls.Nullable
                 || issubclass (heap w) (resolve_alias w c) Cls.NotNull)
     then SQLTypeEnv.actual_type (S depth) (TClass c) e w
            = SQLTypeWithType__class_getitem__ depth (Cls.NotNull, resolve_alias w c) w ∧
          ∀ d w', SQLTypeEnv.actual_type (S depth) (TClass c) e w = (Ok d, w') →
                  issubclass (heap w') d Cls.NotNull = true
     else SQLTypeEnv.actual_type (S depth) (TClass c) e w = (Ok (resolve_alias w c), w)) ∧
  (∀ t e, returns (SQLTypeEnv.actual_type (S (S (S depth))) t e) w).
Proof.
  intros Hwf%wfb_wf. split; [|split; [|split]]; [..|by intros t e; apply returns_actual_type].
  - intros t t' e Hopt Hbase. split; [by apply actual_type_optional|].
    split; [by eapply optional_basetype_not_optional|].
    intros c ->. rewrite (actual_type_optional _ _ _ _ _ Hopt Hbase).
    destruct (is_child_class (heap w) c Cls.BaseRecord) eqn:Hrec.
    + by apply actual_type_record.
    + rewrite actual_type_class by done. unfold wraps. done.
  - intros c e. apply actual_type_record.
  - intros c e Hrec. rewrite (actual_type_class _ _ _ _ Hrec). unfold wraps.
    destruct (_ && _); [|done]. split; [done|].
    intros d w'. by apply notnull_getitem_subclass.
Qed.

Lemma C4_nullability_normalization_witness :
  wfb example_world = true ∧
  ∀ c e,
    is_child_class (heap example_world) c Cls.BaseRecord = true →
    SQLTypeEnv.actual_type 3 (TClass c) e example_world
      = ForeignTableKey.__class_getitem__ (Cls.ForeignTableKey, c) example_world.
Proof.
  split; [vm_compute; reflexivity|].
  apply (C4_nullability_normalization 2 example_world). vm_compute. reflexivity.
Defined.

(** C4 as stated fails for a record class: with the policy active,
    [Student], neither [Nullable] nor [NotNull] and not optional, is
    normalised to [ForeignTableKey[Student]], which is no subclass of
    [NotNull] and renders as ["INT"]. *)
Lemma C4_counterexample :
  let r := SQLTypeEnv.actual_type 3 (TClass Ex.Student) true example_world in
  wfb example_world = true ∧ default_not_null example_world = true ∧
  SQLTypeEnv._is_typing_optional (TClass Ex.Student) = false ∧
  issubclass (heap example_world) Ex.Student Cls.Nullable = false ∧
  issubclass (heap example_world) Ex.Student Cls.NotNull = false ∧
  r = ForeignTableKey.__class_getitem__ (Cls.ForeignTableKey, Ex.Student) example_world ∧
  r.1 = Ok 37 ∧ name_of (heap r.2) 37 = "FK__Student" ∧
  issubclass (heap r.2) 37 Cls.NotNull = false ∧
  SQLType.__type_sql__ r.2 37 = Ok "INT".
Proof. vm_compute. done. Qed.

(** C5. Rendering a bound view emits, for every discovered link, in the
    order of discovery (parents, then children), a join clause and its ON
    clause; the keyword of the join clause is ["INNER JOIN"] if both columns
    of the link are not-null and ["LEFT JOIN"] otherwise. *)
Theorem C5_join_selection (db_table : Database → table_like → result Table)
    (get_parent_table_links get_child_table_links : Table → result (list link))
    (self : DataView) (tb : Table) (parents children : list link)
    (swp : SQLWithParams) (out : list (string * nat)) :
  let sqlout := DataView.__sqlout__ db_table get_parent_table_links get_child_table_links in
  _table self = Some tb →
  (if _join_parent_tables self
   then ∃ t, db_table (db self) (TTable tb) = Ok t ∧ get_parent_table_links t = Ok parents
   else parents = []) →
  (if _join_child_tables self
   then ∃ t, db_table (db self) (TTable tb) = Ok t ∧ get_child_table_links t = Ok children
   else children = []) →
  ∃ swp' out',
    sqlout (mkRS self swp out) = (Ok (), mkRS self swp' out') ∧
    clauses swp' = clauses swp ++ head_clauses self tb (parents ++ children)
                   ++ concat (join_clauses <$> parents ++ children)
                   ++ tail_clauses self ∧
    ∀ l, l ∈ parents ++ children →
      ∃ kw, mkClause kw (CVTable l.1) (Some "") ∈ clauses swp' ∧
            (kw = "INNER JOIN" ↔ not_null l.2.1 = true ∧ not_null l.2.2 = true) ∧
            (kw = "LEFT JOIN" ↔ not_null l.2.1 = false ∨ not_null l.2.2 = false).
Proof.
  intros sqlout Htb Hp Hc.
  assert (∃ swp' out', sqlout (mkRS self swp out) = (Ok (), mkRS self swp' out') ∧
            clauses swp' = clauses swp ++ head_clauses self tb (parents ++ children)
                           ++ concat (join_clauses <$> parents ++ children)
                           ++ tail_clauses self) as (swp' & out' & Hrun & Hcl).
  { unfold sqlout, DataView.__sqlout__.
    unfold bind at 1, modify at 1. unfold bind at 1, gets at 1. cbn [rs_view].
    rewrite Htb.
    assert ((if _join_parent_tables self
             then let* t := lift (db_table (db self) (TTable tb)) in
                  lift (get_parent_table_links t)
             else ret [])
            = (ret parents : ST render_state (list link))) as ->.
    { destruct (_join_parent_tables self); [|by subst].
      destruct Hp as (t & Ht & Hl). unfold bind, lift, ret. by rewrite Ht, Hl. }
    assert ((if _join_child_tables self
             then let* t := lift (db_table (db self) (TTable tb)) in
                  lift (get_child_table_links t)
             else ret [])
            = (ret children : ST render_state (list link))) as ->.
    { destruct (_join_child_tables self); [|by subst].
      destruct Hc as (t & Ht & Hl). unfold bind, lift, ret. by rewrite Ht, Hl. }
    unfold bind, ret, DataView.sink, modify. cbn [rs_view rs_sink rs_stdout].
    eexists _, _. split; [reflexivity|].
    rewrite append_joins_clauses. unfold append_clause. cbn [swp_id clauses].
    unfold head_clauses, tail_clauses. by rewrite <- !app_assoc. }
  exists swp', out'. split; [done|]. split; [done|].
  intros [t [lcol rcol]] Hl. cbn [fst snd].
  exists (if not_null lcol && not_null rcol then "INNER JOIN" else "LEFT JOIN").
  split; [|split].
  - rewrite Hcl. apply elem_of_app. right. apply elem_of_app. right.
    apply elem_of_app. left. apply (elem_of_concat_2 _ (join_clauses (t, (lcol, rcol)))).
    + by left.
    + by apply list_elem_of_fmap_2.
  - destruct (not_null lcol), (not_null rcol); cbn; split; (done || by intros []).
  - destruct (not_null lcol), (not_null rcol); cbn; split; try done; try (by intros []);
      try (by left); by right.
Qed.

Lemma C5_join_selection_witness :
  ∃ swp' out',
    DataView.__sqlout__ ExView.db_table ExView.parent_links ExView.child_links
      (mkRS ExView.student_view (mkSWP 0 []) []) = (Ok (), mkRS ExView.student_view swp' out') ∧
    keyword <$> clauses swp'
    = ["SELECT"; "FROM"; "INNER JOIN"; "ON"; "LEFT JOIN"; "ON";
       "WHERE"; "GROUP BY"; "ORDER BY"; "LIMIT"; "OFFSET"].
Proof.
  destruct (C5_join_selection ExView.db_table ExView.parent_links ExView.child_links
              ExView.student_view ExView.students
              [(ExView.classes, (ExView.student_class, ExView.class_id));
               (ExView.tutors, (ExView.student_tutor, ExView.tutor_id))] []
              (mkSWP 0 []) [])
    as (swp' & out' & Hrun & Hcl & _).
  - reflexivity.
  - simpl. exists ExView.students. split; reflexivity.
  - simpl. exists ExView.students. split; reflexivity.
  - exists swp', out'. split; [exact Hrun|]. rewrite Hcl. reflexivity.
Defined.

(** C6. Slice indexing of a view: a given start sets the offset; a given
    stop sets the limit to stop minus the start (0 if none); a given step
    sets the limit instead; nothing else changes.  Hence on a freshly bound
    view [[100:]] gives offset 100 and no limit, and [[100:150]] and
    [[100::50]] give offset 100 and limit 50. *)
Theorem C6_slice_pagination (db_table : Database → table_like → result Table)
    (table_column : Table → string → result Column)
    (d : Database) (t : table_like) (parent child : bool) (self : DataView) :
  DataView.table_like_truthy t = true →
  DataView.__init__ db_table d t parent child = Ok self →
  let getitem k := DataView.__getitem__ db_table table_column k self in
  (_table self ≠ None ∧ _offset self = None ∧ _limit self = None) ∧
  (∀ start stop step, ∃ v,
     getitem (KSlice start stop step) = Ok v ∧
     _offset v = start ∧
     _limit v = match step, stop with
                | Some p, _ => Some p
                | None, Some e => Some (e - default 0 start)%Z
                | None, None => None
                end ∧
     v = DataView.limit (_limit v) (DataView.offset (_offset v) self)) ∧
  (∃ v, getitem (KSlice (Some 100%Z) None None) = Ok v ∧
        _offset v = Some 100%Z ∧ _limit v = None) ∧
  (∃ v, getitem (KSlice (Some 100%Z) (Some 150%Z) None) = Ok v ∧
        _offset v = Some 100%Z ∧ _limit v = Some 50%Z) ∧
  (∃ v, getitem (KSlice (Some 100%Z) None (Some 50%Z)) = Ok v ∧
        _offset v = Some 100%Z ∧ _limit v = Some 50%Z).
Proof.
  intros Ht Hinit getitem. unfold DataView.__init__ in Hinit. rewrite Ht in Hinit.
  unfold DataView.table in Hinit. cbn [db] in Hinit.
  destruct (db_table d t) as [tb|e]; [|done]. injection Hinit as <-.
  split; [done|]. split.
  - intros [s|] [e|] [p|]; eexists; (split; [reflexivity|]); done.
  - repeat split; eexists; (split; [reflexivity|]); done.
Qed.

Lemma C6_slice_pagination_witness :
  ∃ v, DataView.__getitem__ ExView.db_table ExView.table_column
         (KSlice (Some 100%Z) (Some 150%Z) None) ExView.student_view = Ok v ∧
       _offset v = Some 100%Z ∧ _limit v = Some 50%Z.
Proof.
  apply (C6_slice_pagination ExView.db_table ExView.table_column ExView.school
           (TName "students") true true ExView.student_view); reflexivity.
Defined.







(** C9. Rendering an unbound view fails with the error "Table is not
    set."; the output sink has received no clause and the view is as it
    was (the one effect is the line that [print] writes to the standard
    output).  The same holds of [get_sql_with_params], whose [append]
    renders the view into the sink. *)
Theorem C9_render_unbound_fails (db_table : Database → table_like → result Table)
    (get_parent_table_links get_child_table_links : Table → result (list link))
    (self : DataView) (swp : SQLWithParams) (out : list (string * nat)) :
  let sqlout := DataView.__sqlout__ db_table get_parent_table_links get_child_table_links in
  unbound self →
  sqlout (mkRS self swp out)
    = (Raise (RuntimeError "Table is not set."),
       mkRS self swp (out ++ [("id(swp)=", swp_id swp)])) ∧
  (∀ default_swp new_id,
     let sink := default (mkSWP new_id []) default_swp in
     let r := DataView.get_sql_with_params sqlout default_swp new_id self out in
     r.1 = Raise (RuntimeError "Table is not set.") ∧
     rs_sink r.2 = sink ∧ rs_view r.2 = self ∧
     clauses (rs_sink r.2) = from_option clauses [] default_swp).
Proof.
  intros sqlout Hu. unfold unbound in Hu.
  assert (∀ s, sqlout (mkRS self s out)
             = (Raise (RuntimeError "Table is not set."),
                mkRS self s (out ++ [("id(swp)=", swp_id s)]))) as Hrun.
  { intros s. unfold sqlout, DataView.__sqlout__, bind, modify, gets.
    cbn [rs_view rs_sink rs_stdout]. by rewrite Hu. }
  split; [apply Hrun|].
  intros default_swp new_id. unfold DataView.get_sql_with_params.
  destruct default_swp as [s|]; cbn [default from_option]; by rewrite Hrun.
Qed.

Lemma C9_render_unbound_fails_witness :
  DataView.__sqlout__ ExView.db_table ExView.parent_links ExView.child_links
    (mkRS ExView.unbound_view (mkSWP 7 []) [])
  = (Raise (RuntimeError "Table is not set."),
     mkRS ExView.unbound_view (mkSWP 7 []) [("id(swp)=", 7)]).
Proof.
  apply (C9_render_unbound_fails ExView.db_table ExView.parent_links ExView.child_links
           ExView.unbound_view (mkSWP 7 []) []).
  reflexivity.
Defined.




(** * Further properties *)

(** ** Views *)


(** X2. Slice indexing of any view, bound or not, whatever it has
    accumulated: it never fails; a given start replaces the offset and a
    missing one keeps it; the limit becomes the step if one is given, else
    stop minus start (0 if none) if a stop is given, and else stays;
    nothing else changes.  Hence [view[:]] is the view as it was, and
    indexing the result with the same slice again changes nothing. *)
Theorem X2_slice_any_view (db_table : Database → table_like → result Table)
    (table_column : Table → string → result Column)
    (start stop step : option Z) (self : DataView) :
  let getitem k v := DataView.__getitem__ db_table table_column k v in
  ∃ v, getitem (KSlice start stop step) self = Ok v ∧
       _offset v = from_option Some (_offset self) start ∧
       _limit v = match step, stop with
                  | Some p, _ => Some p
                  | None, Some e => Some (e - default 0 start)%Z
                  | None, None => _limit self
                  end ∧
       v = DataView.limit (_limit v) (DataView.offset (_offset v) self) ∧
       getitem (KSlice start stop step) v = Ok v ∧
       getitem (KSlice None None None) self = Ok self.
Proof.
  intros getitem. destruct self, start as [s|], stop as [e|], step as [p|];
    eexists; (split; [reflexivity|]); done.
Qed.

(** X3. Rendering writes all of its clauses or none.  Whatever the view,
    the sink and the database: the view is as it was, one line was
    printed, and the sink is the same object; if rendering fails, the sink
    has received no clause; if it returns, the view is bound and the sink
    has received, after what it had, SELECT and FROM, two clauses for each
    link, and WHERE, GROUP BY, ORDER BY, LIMIT and OFFSET: seven clauses
    and two for each link.  A failure of the database or of the discovery
    of the links is the failure of the rendering. *)
Theorem X3_render_all_or_nothing (db_table : Database → table_like → result Table)
    (get_parent_table_links get_child_table_links : Table → result (list link))
    (self : DataView) (swp : SQLWithParams) (out : list (string * nat)) :
  let sqlout := DataView.__sqlout__ db_table get_parent_table_links get_child_table_links in
  let r := sqlout (mkRS self swp out) in
  (rs_view r.2 = self ∧ rs_stdout r.2 = out ++ [("id(swp)=", swp_id swp)] ∧
   swp_id (rs_sink r.2) = swp_id swp) ∧
  match r.1 with
  | Raise e =>
      rs_sink r.2 = swp ∧
      match _table self with
      | None => e = RuntimeError "Table is not set."
      | Some tb =>
          (_join_parent_tables self || _join_child_tables self = true) ∧
          (db_table (db self) (TTable tb) = Raise e ∨
           ∃ t, db_table (db self) (TTable tb) = Ok t ∧
                (_join_parent_tables self = true ∧ get_parent_table_links t = Raise e ∨
                 _join_child_tables self = true ∧ get_child_table_links t = Raise e))
      end
  | Ok _ =>
      ∃ tb joins,
        _table self = Some tb ∧
        clauses (rs_sink r.2)
        = clauses swp ++ head_clauses self tb joins ++ concat (join_clauses <$> joins)
          ++ tail_clauses self ∧
        length (clauses (rs_sink r.2)) = length (clauses swp) + 7 + 2 * length joins
  end.
Proof.
  intros sqlout r. subst r. destruct (sqlout _) as [res s'] eqn:Hrun. cbn [fst snd].
  subst sqlout. unfold DataView.__sqlout__ in Hrun.
  unfold bind at 1, modify at 1 in Hrun. unfold bind at 1, gets at 1 in Hrun.
  cbn [rs_view rs_sink rs_stdout] in Hrun.
  destruct (_table self) as [tb|] eqn:Htb; [|by injection Hrun as <- <-].
  set (tl := tail_clauses self).
  assert (∀ joins, (let* _ := DataView.sink (append_clause "SELECT"
                      (CVSelect ((SelColumn <$> columns tb)
                                 ++ (SelColumn <$> concat ((λ l : link, columns l.1) <$> joins))
                                 ++ (SelExpr <$> _colexprs self))) None) in
                    let* _ := DataView.sink (append_clause "FROM" (CVTable tb) None) in
                    let* _ := DataView.sink (DataView.append_joins joins) in
                    let* _ := DataView.sink (append_clause "WHERE" (CVTerms (_terms self)) None) in
                    let* _ := DataView.sink (append_clause "GROUP BY" (CVGroups (_groups self)) None) in
                    let* _ := DataView.sink (append_clause "ORDER BY" (CVOrders (_orders self)) None) in
                    let* _ := DataView.sink (append_clause "LIMIT" (CVInt (_limit self)) None) in
                    DataView.sink (append_clause "OFFSET" (CVInt (_offset self)) None))
                   (mkRS self swp (out ++ [("id(swp)=", swp_id swp)]))
                  = (Ok (), mkRS self
                              (mkSWP (swp_id swp)
                                 (clauses swp ++ head_clauses self tb joins
                                  ++ concat (join_clauses <$> joins) ++ tl))
                              (out ++ [("id(swp)=", swp_id swp)]))) as Hwrite.
  { intros joins. unfold bind, ret, DataView.sink, modify. cbn [rs_view rs_sink rs_stdout].
    rewrite append_joins_clauses. unfold append_clause. cbn [swp_id clauses].
    unfold head_clauses, tl, tail_clauses. by rewrite <- !app_assoc. }
  assert (∀ joins, length (clauses swp ++ head_clauses self tb joins
                           ++ concat (join_clauses <$> joins) ++ tl)
                   = length (clauses swp) + 7 + 2 * length joins) as Hlen.
  { intros joins. rewrite !length_app, length_concat_join_clauses. cbn. lia. }
  apply bind_inv in Hrun as [(e & Hp & ->)|(parents & s1 & Hp & Hrun)].
  { apply links_inv in Hp as [-> [Hf Hp]]. cbn [rs_view rs_sink rs_stdout].
    rewrite Hf. do 3 (split; [done|]).
    destruct Hp as [?|(t & ? & ?)]; [by left|right]. exists t. split; [done|]. by left. }
  apply links_inv in Hp as [-> _].
  apply bind_inv in Hrun as [(e & Hc & ->)|(children & s1 & Hc & Hrun)].
  { apply links_inv in Hc as [-> [Hf Hc]]. cbn [rs_view rs_sink rs_stdout].
    rewrite Hf, orb_true_r. do 3 (split; [done|]).
    destruct Hc as [?|(t & ? & ?)]; [by left|right]. exists t. split; [done|]. by right. }
  apply links_inv in Hc as [-> _].
  rewrite Hwrite in Hrun. injection Hrun as <- <-. cbn [rs_view rs_sink rs_stdout swp_id clauses].
  split; [done|]. exists tb, (parents ++ children). split; [done|]. split; [done|]. apply Hlen.
Qed.

(** X4. [new] starts afresh: the view it returns has the database of the
    view it is called on and nothing else of it (no column expressions,
    terms, groups, orders, limit or offset, and both kinds of joins
    enabled again), so it is the same from any two views of one database.
    With [None] or the empty name for the table the new view is unbound
    and the database is not asked; otherwise the table is the one the
    database returns, and a failure of the database is the failure of
    [new]. *)
Theorem X4_new_starts_afresh (db_table : Database → table_like → result Table)
    (t : table_like) (self : DataView) :
  let fresh tb := mkDataView (db self) tb [] None [] [] None None true true in
  (∀ self', db self' = db self →
     DataView.new db_table t self' = DataView.new db_table t self) ∧
  (∀ db_table', DataView.new db_table' TNone self = Ok (fresh None) ∧
                DataView.new db_table' (TName "") self = Ok (fresh None)) ∧
  (∀ v, DataView.new db_table t self = Ok v ↔
        (DataView.table_like_truthy t = false ∧ v = fresh None) ∨
        (DataView.table_like_truthy t = true ∧
         ∃ tb, db_table (db self) t = Ok tb ∧ v = fresh (Some tb))) ∧
  (∀ e, DataView.new db_table t self = Raise e ↔
        DataView.table_like_truthy t = true ∧ db_table (db self) t = Raise e).
Proof.
  intros fresh. unfold DataView.new, DataView.__init__, DataView.table. cbn [db].
  split; [by intros self' ->|]. split; [done|]. split.
  - intros v. destruct (DataView.table_like_truthy t).
    + destruct (db_table (db self) t) as [tb|e]; split.
      * intros [= <-]. right. split; [done|]. by exists tb.
      * intros [[? _]|[_ (tb' & [= <-] & ->)]]; done.
      * done.
      * intros [[? _]|[_ (tb' & ? & _)]]; done.
    + split.
      * intros [= <-]. by left.
      * intros [[_ ->]|[? _]]; done.
  - intros e. destruct (DataView.table_like_truthy t).
    + destruct (db_table (db self) t) as [tb|e']; (split; [intros [=]; by subst|intros [_ [=]]; by subst]).
    + split; [done|by intros [? _]].
Qed.

(** X5. [eq(table, k1=v1, ..., kn=vn)] looks the columns up in the table
    that the database returns for its argument, which need not be the
    table the view is bound to.  If every column is found, it does what
    [where] does with the equalities [c1 == v1, ..., cn == vn], in the
    order of the keywords.  It fails with the error of the first column
    that is not found, and with the error of the database if the table is
    not found.  [view[n]] for an integer [n] is [eq] for the column [id]
    of the bound table. *)
Theorem X5_eq_adds_equalities (db_table : Database → table_like → result Table)
    (table_column : Table → string → result Column)
    (t : table_like) (tb : Table) (kwargs : list (string * pyval)) (self : DataView) :
  let eq := DataView.eq db_table table_column in
  db_table (db self) t = Ok tb →
  (∀ cols, Forall2 (λ kv c, table_column tb kv.1 = Ok c) kwargs cols →
     eq t kwargs self = Ok (DataView.where_ (zip_with (λ c kv, EEq c kv.2) cols kwargs) self)) ∧
  (∀ cols name v after e,
     Forall2 (λ kv c, table_column tb kv.1 = Ok c) kwargs cols →
     table_column tb name = Raise e →
     eq t (kwargs ++ (name, v) :: after) self = Raise e) ∧
  (∀ t' e, db_table (db self) t' = Raise e → eq t' kwargs self = Raise e) ∧
  (∀ n, _table self = Some tb → t = TTable tb →
     DataView.__getitem__ db_table table_column (KInt n) self = eq t [("id", VInt n)] self).
Proof.
  intros eq Ht. subst eq. unfold DataView.eq. split; [|split; [|split]].
  - intros cols Hcols. rewrite Ht. by apply eq_loop_ok.
  - intros cols name v after e Hcols He. rewrite Ht. by eapply eq_loop_fails.
  - intros t' e Ht'. by rewrite Ht'.
  - intros n Hb ->. cbn [DataView.__getitem__]. unfold DataView.id, DataView.eq. by rewrite Hb.
Qed.

Lemma X5_eq_adds_equalities_witness :
  DataView.eq ExView.db_table ExView.table_column (TName "students")
    [("tutor", VInt 18); ("class", VInt 2)] ExView.unbound_view
  = Ok (DataView.where_ [EEq ExView.student_tutor (VInt 18); EEq ExView.student_class (VInt 2)]
          ExView.unbound_view).
Proof.
  apply (proj1 (X5_eq_adds_equalities ExView.db_table ExView.table_column (TName "students")
                  ExView.students [("tutor", VInt 18); ("class", VInt 2)]
                  ExView.unbound_view eq_refl)
           [ExView.student_tutor; ExView.student_class]).
  repeat constructor.
Defined.

(** ** Defaults and comments of types *)

(** X6. [default] and the two readers of the default, on a subclass of
    [SQLType] in a well-formed world.  After [cls.default(v)] the class
    has a default and its value is [v], also when [v] is [None]; after
    [cls.default()] it has none and [default_value] fails; the world stays
    well-formed, so the last call decides.  A call with more than one
    argument fails and changes nothing, and so does a call on a class
    that is no subclass of [SQLType], which has no such method. *)
Theorem X6_default_round_trip (w : world) (cls : cid) :
  wfb w = true →
  (issubclass (heap w) cls Cls.SQLType = true →
   (∀ v, let r := SQLType.default cls [v] w in
         r.1 = Ok () ∧ wfb r.2 = true ∧
         SQLType.has_default_value r.2 cls = Ok (VBool true) ∧
         SQLType.default_value r.2 cls = Ok v) ∧
   (let r := SQLType.default cls [] w in
    r.1 = Ok () ∧ wfb r.2 = true ∧
    SQLType.has_default_value r.2 cls = Ok (VBool false) ∧
    SQLType.default_value r.2 cls
    = Raise (RuntimeError "This type does not have a default value.")) ∧
   (∀ v1 v2 vs,
      SQLType.default cls (v1 :: v2 :: vs) w
      = (Raise (RuntimeError "Cannot specify multiple arguments."), w))) ∧
  (issubclass (heap w) cls Cls.SQLType = false →
   ∀ args, SQLType.default cls args w = (Raise AttributeError, w)).
Proof.
  intros Hwf%wfb_wf. split.
  - intros Hc. pose proof (issubclass_lt _ _ _ Hc) as Hlt.
    assert (heap_ok (heap w)) as Hok by (by destruct Hwf).
    unfold SQLType.default, SQLType.has_method. rewrite Hc. cbn [negb].
    split; [|split; [|done]].
    + intros v. cbn [fst snd]. split; [done|]. split.
      { apply wf_wfb. by repeat apply wf_setattr. }
      assert (SQLType.has_default_value
                (setattr cls "_TYPE_DEFAULT_VALUE_" v
                   (setattr cls "_TYPE_HAS_DEFAULT_" (VBool true) w)) cls
              = Ok (VBool true)) as Hhas.
      { unfold SQLType.has_default_value, SQLType.has_method. wsimpl. rewrite Hc. cbn [negb].
        rewrite getattr_setattr_name by done. by rewrite getattr_setattr_self. }
      split; [done|]. unfold SQLType.default_value. rewrite Hhas. cbn [truthy negb].
      by rewrite getattr_setattr_self.
    + cbn [fst snd]. split; [done|]. split.
      { apply wf_wfb. by repeat apply wf_setattr. }
      assert (SQLType.has_default_value
                (setattr cls "_TYPE_DEFAULT_VALUE_" VNone
                   (setattr cls "_TYPE_HAS_DEFAULT_" (VBool false) w)) cls
              = Ok (VBool false)) as Hhas.
      { unfold SQLType.has_default_value, SQLType.has_method. wsimpl. rewrite Hc. cbn [negb].
        rewrite getattr_setattr_name by done. by rewrite getattr_setattr_self. }
      split; [done|]. unfold SQLType.default_value. by rewrite Hhas.
  - intros Hc args. unfold SQLType.default, SQLType.has_method. by rewrite Hc.
Qed.

Lemma X6_default_round_trip_witness :
  let r := SQLType.default Cls.Int [VNone] init_world in
  r.1 = Ok () ∧ wfb r.2 = true ∧
  SQLType.has_default_value r.2 Cls.Int = Ok (VBool true) ∧
  SQLType.default_value r.2 Cls.Int = Ok VNone.
Proof.
  refine (proj1 (proj1 (X6_default_round_trip init_world Cls.Int _) _) VNone);
    vm_compute; reflexivity.
Defined.

(** X7. [default] is local.  A call [cls.default(...)], whatever it
    returns, changes neither the default (presence and value) of any class
    that is no subclass of [cls], nor the SQL rendering or the comment of
    any class, nor the classes, the caches, the aliases or the policy. *)
Theorem X7_default_is_local (w : world) (cls : cid) (args : list pyval) (d : cid) :
  let w' := (SQLType.default cls args w).2 in
  (issubclass (heap w) d cls = false →
   SQLType.has_default_value w' d = SQLType.has_default_value w d ∧
   SQLType.default_value w' d = SQLType.default_value w d) ∧
  SQLType.__type_sql__ w' d = SQLType.__type_sql__ w d ∧
  SQLType.get_comment w' d = SQLType.get_comment w d ∧
  set_attrs (attrs w) w' = w.
Proof.
  intros w'. subst w'. unfold SQLType.default.
  destruct (negb (SQLType.has_method w cls)); [by destruct w|].
  assert (∀ v b,
    let w' := setattr cls "_TYPE_DEFAULT_VALUE_" v
                (setattr cls "_TYPE_HAS_DEFAULT_" (VBool b) w) in
    (issubclass (heap w) d cls = false →
     SQLType.has_default_value w' d = SQLType.has_default_value w d ∧
     SQLType.default_value w' d = SQLType.default_value w d) ∧
    SQLType.__type_sql__ w' d = SQLType.__type_sql__ w d ∧
    SQLType.get_comment w' d = SQLType.get_comment w d ∧
    set_attrs (attrs w) w' = w) as Hset.
  { intros v b w'. subst w'. split; [|split; [|split]].
    - intros Hd.
      assert (SQLType.has_default_value
                (setattr cls "_TYPE_DEFAULT_VALUE_" v
                   (setattr cls "_TYPE_HAS_DEFAULT_" (VBool b) w)) d
              = SQLType.has_default_value w d) as Hhas.
      { unfold SQLType.has_default_value, SQLType.has_method. wsimpl.
        by rewrite !getattr_setattr_class. }
      split; [done|]. unfold SQLType.default_value. rewrite Hhas.
      by rewrite !getattr_setattr_class.
    - unfold SQLType.__type_sql__, SQLType.has_method. wsimpl.
      by rewrite !getattr_setattr_name.
    - unfold SQLType.get_comment, SQLType.has_method. wsimpl.
      by rewrite !getattr_setattr_name.
    - by destruct w. }
  destruct args as [|v [|v2 vs]]; cbn [snd]; [apply Hset..|by destruct w].
Qed.

(** X8. [comment] and [get_comment], on a subclass of [SQLType] in a
    well-formed world.  After [cls.comment(c)] the comment of [cls] is
    [c], and so is the comment of every subclass of [cls] in whose method
    resolution order no class before [cls] has a comment of its own: a
    derived type shows the comment of its base.  The comment of a class
    that is no subclass of [cls] stays, and so do the default and the SQL
    rendering of every class.  The world stays well-formed. *)
Theorem X8_comment_round_trip (w : world) (cls : cid) (c : pyval) :
  wfb w = true → issubclass (heap w) cls Cls.SQLType = true →
  let w' := (SQLType.comment cls c w).2 in
  SQLType.comment cls c w = (Ok (), w') ∧ wfb w' = true ∧
  SQLType.get_comment w' cls = Ok c ∧
  (∀ d before after,
     mro_of (heap w) d = before ++ cls :: after →
     (∀ x, x ∈ before → own_attr w x "_TYPE_COMMENT_" = None) →
     SQLType.get_comment w' d = Ok c) ∧
  (∀ d, issubclass (heap w) d cls = false →
        SQLType.get_comment w' d = SQLType.get_comment w d) ∧
  (∀ d, SQLType.has_default_value w' d = SQLType.has_default_value w d ∧
        SQLType.default_value w' d = SQLType.default_value w d ∧
        SQLType.__type_sql__ w' d = SQLType.__type_sql__ w d).
Proof.
  intros Hwf%wfb_wf Hc w'. subst w'. unfold SQLType.comment, SQLType.has_method.
  rewrite Hc. cbn [negb snd].
  assert (heap_ok (heap w)) as Hok by (by destruct Hwf).
  pose proof (issubclass_lt _ _ _ Hc) as Hlt.
  assert (∀ d before after,
     mro_of (heap w) d = before ++ cls :: after →
     (∀ x, x ∈ before → own_attr w x "_TYPE_COMMENT_" = None) →
     SQLType.get_comment (setattr cls "_TYPE_COMMENT_" c w) d = Ok c) as Hinh.
  { intros d before after Hmro Hbefore.
    unfold SQLType.get_comment, SQLType.has_method. wsimpl.
    assert (issubclass (heap w) d Cls.SQLType = true) as ->.
    { apply (issubclass_trans _ _ cls); [done| |done].
      apply bool_decide_eq_true. rewrite Hmro. apply elem_of_app. right. left. }
    cbn [negb]. unfold getattr. wsimpl. rewrite Hmro.
    by rewrite mro_lookup_setattr_at. }
  split; [done|]. split; [by apply wf_wfb, wf_setattr|]. split; [|split; [done|split]].
  - destruct (lookup_lt_is_Some_2 _ _ Hlt) as [k Hk].
    destruct (mro_head _ _ _ Hok Hk) as [l Hl].
    apply (Hinh cls [] l); [|by intros x ?%elem_of_nil].
    unfold mro_of. by rewrite Hk.
  - intros d Hd. unfold SQLType.get_comment, SQLType.has_method. wsimpl.
    by rewrite getattr_setattr_class.
  - intros d.
    assert (SQLType.has_default_value (setattr cls "_TYPE_COMMENT_" c w) d
            = SQLType.has_default_value w d) as Hhas.
    { unfold SQLType.has_default_value, SQLType.has_method. wsimpl.
      by rewrite getattr_setattr_name. }
    split; [done|]. split.
    + unfold SQLType.default_value. rewrite Hhas. by rewrite getattr_setattr_name.
    + unfold SQLType.__type_sql__, SQLType.has_method. wsimpl.
      by rewrite getattr_setattr_name.
Qed.

Lemma X8_comment_round_trip_witness :
  let w' := (SQLType.comment Cls.Int (VStr "key") init_world).2 in
  SQLType.comment Cls.Int (VStr "key") init_world = (Ok (), w') ∧ wfb w' = true ∧
  SQLType.get_comment w' Cls.Int = Ok (VStr "key").
Proof.
  pose proof (X8_comment_round_trip init_world Cls.Int (VStr "key")) as H.
  refine (let H' := H _ _ in conj (proj1 H') (conj (proj1 (proj2 H')) (proj1 (proj2 (proj2 H')))));
    vm_compute; reflexivity.
Defined.

(** ** The environment of the types *)

(** X9. [set_type_alias] and the functions that read the alias table, in
    a well-formed world.  If [tt] is a proper subclass of [SQLType], the
    call returns and the world stays well-formed; from then on [tf] is a
    compatible type, whatever class it is, and unless [tf] is a record
    class it normalises to [tt] itself (one step: an alias of [tt] is not
    followed; the last alias set for [tf] is the one in force) and renders
    as [tt]; the other classes resolve as before.  If [tt] is not a proper
    subclass of [SQLType], the call fails with [AssertionError] and changes
    nothing. *)
Theorem X9_alias_round_trip (depth : nat) (w : world) (tf tt_ : cid) :
  wfb w = true →
  let r := SQLTypeEnv.set_type_alias tf tt_ w in
  (is_child_class (heap w) tt_ Cls.SQLType = true →
   r.1 = Ok () ∧ wfb r.2 = true ∧
   set_type_aliases (type_aliases w) r.2 = w ∧
   SQLTypeEnv.is_compatible_type r.2 (TClass tf) = true ∧
   resolve_alias r.2 tf = tt_ ∧
   (∀ c, c ≠ tf → resolve_alias r.2 c = resolve_alias w c) ∧
   (is_child_class (heap w) tf Cls.BaseRecord = false →
    SQLTypeEnv.actual_type (S depth) (TClass tf) false r.2 = (Ok tt_, r.2) ∧
    SQLTypeEnv.type_sql (S depth) (TClass tf) r.2 = (SQLType.__type_sql__ w tt_, r.2))) ∧
  (is_child_class (heap w) tt_ Cls.SQLType = false → r = (Raise AssertionError, w)).
Proof.
  intros Hwf%wfb_wf r. subst r. split.
  - intros Htt. pose proof (set_type_alias_spec tf tt_ w) as Hspec.
    unfold SQLTypeEnv.set_type_alias in *. rewrite Htt in *. cbn [negb fst snd] in *.
    destruct (Hspec _ _ Hwf eq_refl) as (Hwf' & _).
    split; [done|]. split; [by apply wf_wfb|]. split; [by destruct w|].
    split.
    { unfold SQLTypeEnv.is_compatible_type. wsimpl. rewrite lookup_insert_eq.
      rewrite (bool_decide_eq_true_2 (is_Some (Some tt_))) by done.
      by rewrite orb_true_r. }
    split; [unfold resolve_alias; wsimpl; by rewrite lookup_insert_eq|].
    split; [intros c Hc; unfold resolve_alias; wsimpl; by rewrite lookup_insert_ne|].
    intros Hrec.
    assert (SQLTypeEnv.actual_type (S depth) (TClass tf) false
              (set_type_aliases (<[tf:=tt_]> (type_aliases w)) w)
            = (Ok tt_, set_type_aliases (<[tf:=tt_]> (type_aliases w)) w)) as Hact.
    { rewrite actual_type_class by done. unfold wraps, resolve_alias. wsimpl.
      by rewrite lookup_insert_eq. }
    split; [done|]. unfold SQLTypeEnv.type_sql, bind. rewrite Hact. unfold try.
    by rewrite type_sql_set_type_aliases.
  - intros Htt. unfold SQLTypeEnv.set_type_alias. by rewrite Htt.
Qed.

Lemma X9_alias_round_trip_witness :
  let r := SQLTypeEnv.set_type_alias Cls.int Cls.Int init_world in
  r.1 = Ok () ∧ wfb r.2 = true ∧
  SQLTypeEnv.is_compatible_type init_world (TClass Cls.int) = false ∧
  SQLTypeEnv.is_compatible_type r.2 (TClass Cls.int) = true ∧
  SQLTypeEnv.type_sql 1 (TClass Cls.int) r.2 = (Ok "INT", r.2).
Proof.
  pose proof (proj1 (X9_alias_round_trip 0 init_world Cls.int Cls.Int eq_refl) eq_refl)
    as (H1 & H2 & _ & H3 & _ & _ & H4).
  split; [exact H1|]. split; [exact H2|]. split; [reflexivity|]. split; [exact H3|].
  exact (proj2 (H4 eq_refl)).
Defined.

(** X10. [type_sql], the rendering of a declared type.  [Optional[c]]
    renders as [c] does.  For a class [c] that is no record class,
    [type_sql] is the rendering of [c] after alias resolution and changes
    nothing: unlike the column types of a record it is never wrapped in
    [NotNull], whatever the policy.  For a subclass of [Record] in a
    well-formed world it is ["INT"].  Every [Optional[c]] is a compatible
    type; yet for a class [c] that is neither a subclass of [SQLType], nor
    a record class, nor an alias, neither [c] nor [Optional[c]] can be
    rendered: the class has no [__type_sql__]. *)
Theorem X10_type_sql_of_declared_type (depth : nat) (w : world) (c : cid) :
  let optional := TUnion [AClass c; AClass Cls.NoneType] in
  SQLTypeEnv.type_sql (S (S depth)) optional w = SQLTypeEnv.type_sql (S depth) (TClass c) w ∧
  (is_child_class (heap w) c Cls.BaseRecord = false →
   SQLTypeEnv.type_sql (S depth) (TClass c) w
   = (SQLType.__type_sql__ w (resolve_alias w c), w)) ∧
  (wfb w = true → issubclass (heap w) c Cls.Record = true →
   ∃ w', SQLTypeEnv.type_sql (S depth) (TClass c) w = (Ok "INT", w') ∧ wfb w' = true) ∧
  SQLTypeEnv.is_compatible_type w optional = true ∧
  (issubclass (heap w) c Cls.SQLType = false →
   is_child_class (heap w) c Cls.BaseRecord = false → type_aliases w !! c = None →
   SQLTypeEnv.type_sql (S depth) (TClass c) w = (Raise AttributeError, w) ∧
   SQLTypeEnv.type_sql (S (S depth)) optional w = (Raise AttributeError, w)).
Proof.
  intros optional.
  assert (SQLTypeEnv.type_sql (S (S depth)) optional w
          = SQLTypeEnv.type_sql (S depth) (TClass c) w) as Hopt.
  { unfold SQLTypeEnv.type_sql, bind.
    by rewrite (actual_type_optional _ optional (TClass c)). }
  assert (is_child_class (heap w) c Cls.BaseRecord = false →
          SQLTypeEnv.type_sql (S depth) (TClass c) w
          = (SQLType.__type_sql__ w (resolve_alias w c), w)) as Hplain.
  { intros Hrec. unfold SQLTypeEnv.type_sql, bind.
    rewrite actual_type_class by done. unfold wraps. by cbn [andb]. }
  split; [done|]. split; [done|]. split; [|split].
  - intros Hwf%wfb_wf Hc.
    destruct (fk_getitem_returns w c Hwf Hc) as (d & w' & Hrun).
    destruct (fk_getitem_type_sql _ _ _ _ Hwf Hrun) as [Hwf' Hsql].
    exists w'. split; [|by apply wf_wfb]. unfold SQLTypeEnv.type_sql, bind.
    rewrite actual_type_record by by apply record_is_child_class.
    rewrite Hrun. unfold try. by rewrite Hsql.
  - unfold optional. cbn. by rewrite bool_decide_eq_true_2.
  - intros Hc Hrec Hal. rewrite Hopt, Hplain by done.
    unfold resolve_alias. rewrite Hal.
    unfold SQLType.__type_sql__, SQLType.has_method. by rewrite Hc.
Qed.

(** ** The types that wrap a type *)

(** X11. The SQL of a wrapped type.  In a well-formed world, the class
    that [Nullable[B]], [NotNull[B]] or [PrimaryKey[B]] returns, new or
    cached, keeps the class it wraps as [_TYPE_BASE_] and renders as this
    base does, followed by nothing, by [" NOT NULL"] or by
    [" PRIMARY KEY"].  (A base that renders as the empty text, which takes
    a class without a name, is the one exception for [Nullable].)  The
    base is [B] itself where [B] is no alias and no record class and need
    not be wrapped in [NotNull] first; so the suffixes of nested wrappers
    follow each other, the innermost first. *)
Theorem X11_wrapper_rendering (depth : nat) (w : world) (cls B d : cid) (w' : world) :
  wfb w = true → cls ∈ [Cls.Nullable; Cls.NotNull; Cls.PrimaryKey] →
  SQLTypeWithType__class_getitem__ depth (cls, B) w = (Ok d, w') →
  wfb w' = true ∧
  ∃ b sb,
    getattr w' d "_TYPE_BASE_" = Some (VClass b) ∧
    SQLType.__type_sql__ w' b = Ok sb ∧
    (cls = Cls.Nullable → sb ≠ "" → SQLType.__type_sql__ w' d = Ok sb) ∧
    (cls = Cls.NotNull → SQLType.__type_sql__ w' d = Ok (sb +:+ " NOT NULL")) ∧
    (cls = Cls.PrimaryKey → SQLType.__type_sql__ w' d = Ok (sb +:+ " PRIMARY KEY")) ∧
    (type_aliases w !! B = None → is_child_class (heap w) B Cls.BaseRecord = false →
     wraps w (bool_decide (cls = Cls.PrimaryKey)) B = false →
     b = B ∧ SQLType.__type_sql__ w B = Ok sb).
Proof.
  intros Hwf%wfb_wf Hcls Hrun.
  destruct (wrapper_entry _ _ _ _ _ _ Hwf Hcls Hrun)
    as (Hwf' & b & sb & Hs & Hbase & Hsb & Hsql & Hsub & Hfin & _).
  split; [by apply wf_wfb|]. exists b, sb. do 2 (split; [done|]).
  split; [|split; [|split]].
  - intros -> Hne. rewrite bool_decide_eq_true_2, string_app_nil_r in Hsql by done.
    by apply (type_sql_derived w' d [Cls.Nullable; b]).
  - intros ->. rewrite bool_decide_eq_false_2, bool_decide_eq_true_2 in Hsql by done.
    apply (type_sql_derived w' d [Cls.NotNull; b]); try done. by apply string_app_nonempty.
  - intros ->. rewrite !bool_decide_eq_false_2 in Hsql by done.
    apply (type_sql_derived w' d [Cls.PrimaryKey; b]); try done. by apply string_app_nonempty.
  - intros Hal Hrec Hwraps.
    destruct (wrap_getitem_entry _ _ _ _ _ _ Hwf Hrun)
      as (Hstep & b' & Hbase' & _ & _ & Hw).
    assert (b' = b) as ->.
    { pose proof (wf_heap _ Hwf') as Hok'.
      assert (getattr w' d "_TYPE_BASE_" = Some (VClass b')) as Hg.
      { apply getattr_own; [done|by eapply static_attr_lt|].
        rewrite own_attr_static; [done|by destruct Hwf'|done]. }
      rewrite Hbase in Hg. by injection Hg. }
    destruct (wrap_getitem_spec _ _ _ _ _ _ Hwf Hrun) as [_ Hpost].
    destruct (Hpost d eq_refl) as (_ & _ & HB). specialize (HB Hal).
    pose proof (step_heap _ _ Hstep) as Hext.
    rewrite <- (step_aliases _ _ Hstep) in Hal. destruct (Hw Hal) as [_ Hn].
    unfold normalized in Hn.
    rewrite (is_child_class_extends (heap w) (heap w') Hext) in Hn by done.
    specialize (Hn Hrec).
    rewrite !(issubclass_extends (heap w) (heap w') Hext) in Hn by done.
    rewrite (step_policy _ _ Hstep) in Hn. unfold wraps in Hwraps.
    assert (ensures_nullable (heap w') cls = bool_decide (cls = Cls.PrimaryKey)) as Hens.
    { unfold ensures_nullable. rewrite !elem_of_cons, elem_of_nil in Hcls.
      destruct Hcls as [->|[->|[->|[]]]];
        rewrite init_getattr by (done || (vm_compute; lia)); reflexivity. }
    rewrite Hens, Hwraps in Hn. subst b. split; [done|].
    rewrite <- Hsb. symmetry. apply type_sql_extends; try done; [by destruct Hwf|].
    by apply (step_attrs _ _ Hstep).
Qed.

Lemma X11_wrapper_rendering_witness :
  let r1 := SQLTypeWithType__class_getitem__ 3 (Cls.NotNull, Cls.Int) init_world in
  let r2 := SQLTypeWithType__class_getitem__ 3 (Cls.PrimaryKey, 33) r1.2 in
  r1.1 = Ok 33 ∧ r2.1 = Ok 34 ∧
  ∃ b sb, getattr r2.2 34 "_TYPE_BASE_" = Some (VClass b) ∧
          SQLType.__type_sql__ r2.2 b = Ok sb ∧
          SQLType.__type_sql__ r2.2 34 = Ok (sb +:+ " PRIMARY KEY") ∧
          b = 33 ∧ sb = "INT NOT NULL".
Proof.
  intros r1 r2. split; [vm_compute; reflexivity|]. split; [vm_compute; reflexivity|].
  destruct (X11_wrapper_rendering 3 r1.2 Cls.PrimaryKey 33 34 r2.2)
    as (_ & b & sb & Hbase & Hsb & _ & _ & Hpk & Hplain).
  - vm_compute. reflexivity.
  - right; right; left.
  - vm_compute. reflexivity.
  - exists b, sb. split; [exact Hbase|]. split; [exact Hsb|]. split; [exact (Hpk eq_refl)|].
    destruct Hplain as [-> Hsb']; [vm_compute; reflexivity..|].
    split; [reflexivity|]. vm_compute in Hsb'. by injection Hsb'.
Defined.

(** X12. The class relations of a wrapped type.  In a well-formed world,
    the class [d] that [Nullable[B]], [NotNull[B]] or [PrimaryKey[B]]
    returns is a subclass of the wrapping class, of [Final], of
    [SQLType], of the class [b] it wraps and of every class that [b] is a
    subclass of, and it is another class than [b].  So wrapping a type
    that is not null in [Nullable] gives a type that is a subclass of
    both, and a column of that type is reported as not null. *)
Theorem X12_wrapper_subclasses (depth : nat) (w : world) (cls B d : cid) (w' : world) :
  wfb w = true → cls ∈ [Cls.Nullable; Cls.NotNull; Cls.PrimaryKey] →
  SQLTypeWithType__class_getitem__ depth (cls, B) w = (Ok d, w') →
  ∃ b,
    getattr w' d "_TYPE_BASE_" = Some (VClass b) ∧ b < d ∧
    issubclass (heap w') d cls = true ∧
    issubclass (heap w') d Cls.Final = true ∧
    issubclass (heap w') d Cls.SQLType = true ∧
    (∀ x, issubclass (heap w') b x = true → issubclass (heap w') d x = true) ∧
    (issubclass (heap w') b Cls.NotNull = true →
     ∀ cn cols, RecordCls.table_columns w' [(cn, d)] = Ok cols → not_null <$> cols = [true]).
Proof.
  intros Hwf%wfb_wf Hcls Hrun.
  destruct (wrapper_entry _ _ _ _ _ _ Hwf Hcls Hrun)
    as (Hwf' & b & sb & Hs & Hbase & Hsb & Hsql & Hsub & Hfin & Hd).
  pose proof (wf_heap _ Hwf') as Hok'.
  assert (∀ x, issubclass (heap w') b x = true → issubclass (heap w') d x = true) as Hinh.
  { intros x. apply (issubclass_base _ _ [cls; b]); [done..|right; left]. }
  exists b. split; [done|]. split.
  { apply (subclass_shape_bases_lt (heap w') d [cls; b]); [done..|right; left]. }
  do 4 (split; [done|]).
  intros Hnn cn cols Hcols. cbn [RecordCls.table_columns] in Hcols.
  destruct (SQLType.__type_sql__ w' d); [|done].
  destruct (SQLType.get_comment w' d); [|done]. injection Hcols as <-.
  cbn. by rewrite (Hinh _ Hnn).
Qed.

Lemma X12_wrapper_subclasses_witness :
  let r1 := SQLTypeWithType__class_getitem__ 3 (Cls.NotNull, Cls.Int) init_world in
  let r2 := SQLTypeWithType__class_getitem__ 3 (Cls.Nullable, 33) r1.2 in
  r1.1 = Ok 33 ∧ r2.1 = Ok 34 ∧
  ∃ b, getattr r2.2 34 "_TYPE_BASE_" = Some (VClass b) ∧ b < 34 ∧
       issubclass (heap r2.2) 34 Cls.Nullable = true ∧
       issubclass (heap r2.2) 34 Cls.NotNull = true.
Proof.
  intros r1 r2. split; [vm_compute; reflexivity|]. split; [vm_compute; reflexivity|].
  destruct (X12_wrapper_subclasses 3 r1.2 Cls.Nullable 33 34 r2.2)
    as (b & Hbase & Hlt & Hd & _ & _ & Hinh & _).
  - vm_compute. reflexivity.
  - left.
  - vm_compute. reflexivity.
  - exists b. split; [exact Hbase|]. split; [exact Hlt|]. split; [exact Hd|].
    apply Hinh. vm_compute in Hbase. injection Hbase as <-. vm_compute. reflexivity.
Defined.

(** X13. A type cannot be wrapped in a wrapper that it is wrapped in
    already.  In a well-formed world, for [cls] one of [Nullable],
    [NotNull] and [PrimaryKey] and a renderable type [B] that is a
    subclass of [cls] (as [cls[T]] is, and every type that wraps it),
    [cls[B]] fails with the [TypeError] of a class whose bases have no
    consistent method resolution order, [cls] coming before its subclass
    [B]; nothing is created or cached.  ([B] is no alias and no record
    class, and is not first wrapped in [NotNull].) *)
Theorem X13_rewrapping_fails (depth : nat) (w : world) (cls B : cid) (sB : string) :
  wfb w = true → cls ∈ [Cls.Nullable; Cls.NotNull; Cls.PrimaryKey] →
  issubclass (heap w) B cls = true →
  type_aliases w !! B = None → is_child_class (heap w) B Cls.BaseRecord = false →
  wraps w (bool_decide (cls = Cls.PrimaryKey)) B = false →
  SQLType.__type_sql__ w B = Ok sB →
  SQLTypeWithType__class_getitem__ (S depth) (cls, B) w
  = (Raise (TypeError "Cannot create a consistent method resolution order (MRO)"), w).
Proof.
  intros Hwf%wfb_wf Hcls HB Hal Hrec Hwraps HsB.
  assert (heap_ok (heap w)) as Hok by (by destruct Hwf).
  assert (attrs_ok w) as Hat by (by destruct Hwf).
  assert (cls < length init_heap) as Hinit.
  { rewrite !elem_of_cons, elem_of_nil in Hcls.
    destruct Hcls as [->|[->|[->|[]]]]; vm_compute; lia. }
  assert (cls < length (heap w)) as Hlt.
  { eapply Nat.lt_le_trans; [done|]. by apply prefix_length, init_prefix. }
  assert (cls ≠ B) as Hne.
  { intros <-. apply type_sql_has_method in HsB.
    rewrite init_issubclass in HsB by done.
    rewrite !elem_of_cons, elem_of_nil in Hcls.
    by destruct Hcls as [->|[->|[->|[]]]]. }
  assert (ensures_nullable (heap w) cls = bool_decide (cls = Cls.PrimaryKey)) as Hens.
  { unfold ensures_nullable. rewrite !elem_of_cons, elem_of_nil in Hcls.
    destruct Hcls as [->|[->|[->|[]]]];
      rewrite init_getattr by (done || (vm_compute; lia)); reflexivity. }
  assert (lru.lookup (cls, B) (cache_withtype w) = None) as Hmiss.
  { destruct (lru.lookup _ _) as [d|] eqn:Hl; [|done]. exfalso.
    pose proof (withtype_cached _ _ _ _ Hwf Hl) as Hentry.
    unfold withtype_entry_ok in Hentry. cbn [fst snd] in Hentry.
    destruct (static_attr _ _ _) as [[| | | |b|]|]; try done.
    destruct Hentry as (Hs & _ & Hw). destruct (Hw Hal) as [_ Hn].
    specialize (Hn Hrec). unfold wraps in Hwraps. rewrite Hens, Hwraps in Hn. subst b.
    unfold subclass_shape in Hs. destruct (heap w !! d) as [k|] eqn:Hd; [|done].
    destruct Hs as (Hbases & _).
    destruct (heap_ok_lookup _ _ _ Hok Hd) as [_ [[_ ->]|(_ & _ & _ & Hlin)]]; [done|].
    rewrite Hbases, linearize_conflict in Hlin; [done..| |done].
    by apply bool_decide_eq_true in HB. }
  unfold SQLTypeWithType__class_getitem__, SQLTypeWithType.class_getitem_with, lru_cache.
  rewrite Hmiss. unfold SQLTypeWithType.class_getitem_body.
  assert (∃ sfx, getattr w cls "_TYPE_SQL_SUFFIX_" = Some (VStr sfx)) as [sfx Hsfx].
  { rewrite getattr_bare by done. rewrite !elem_of_cons, elem_of_nil in Hcls.
    destruct Hcls as [->|[->|[->|[]]]];
      rewrite init_getattr by (done || (vm_compute; lia)); by eexists. }
  assert (∃ v, getattr w cls "_TYPE_ENSURE_NULLABLE_" = Some v
               ∧ truthy v = bool_decide (cls = Cls.PrimaryKey)) as (v & Hv & Htv).
  { rewrite getattr_bare by done. rewrite !elem_of_cons, elem_of_nil in Hcls.
    destruct Hcls as [->|[->|[->|[]]]];
      rewrite init_getattr by (done || (vm_compute; lia)); by eexists. }
  unfold bind at 1, try at 1. rewrite Hsfx.
  unfold bind at 1, try at 1. rewrite Hv, Htv.
  unfold bind at 1. rewrite actual_type_class by done.
  assert (resolve_alias w B = B) as -> by (unfold resolve_alias; by rewrite Hal).
  rewrite Hwraps.
  unfold bind at 1, gets at 1. unfold bind at 1, try at 1. rewrite HsB.
  unfold bind at 1, lift at 1.
  unfold SQLTypeWithOptionalKey.new_subclass, declare_class.
  rewrite new_class_conflict by done. by destruct w.
Qed.

Lemma X13_rewrapping_fails_witness :
  let r1 := SQLTypeWithType__class_getitem__ 3 (Cls.NotNull, Cls.Int) init_world in
  r1.1 = Ok 33 ∧
  SQLTypeWithType__class_getitem__ 3 (Cls.NotNull, 33) r1.2
  = (Raise (TypeError "Cannot create a consistent method resolution order (MRO)"), r1.2).
Proof.
  intros r1. split; [vm_compute; reflexivity|].
  apply (X13_rewrapping_fails 2 r1.2 Cls.NotNull 33 "INT NOT NULL");
    [vm_compute; reflexivity|right; left|vm_compute; reflexivity..].
Defined.

(** ** The types derived from a parameter *)

(** X14. Two invariants of the world of the types.  [wf]: the classes of
    the source are there, every class has the method resolution order of
    its bases, attributes are assigned by [default] and [comment] only,
    and every cache holds different classes, each with the bases that its
    derivation gives it.  [recorded]: every class in the cache of a
    derivation by length, by precision and scale or by values holds the
    parameters, the name and the SQL of its key.  Both hold when the
    modules are imported, and whatever a derivation, a normalisation, an
    assignment of a default or a comment, a new alias or a class
    statement returns, both hold afterwards. *)
Theorem X14_invariants_kept (depth : nat) (w : world) :
  wfb w = true → recordedb w = true →
  let kept (w' : world) := wfb w' = true ∧ recordedb w' = true in
  (∀ k, kept (derive depth k w).2) ∧
  (∀ t ens, kept (SQLTypeEnv.actual_type depth t ens w).2) ∧
  (∀ cls args, kept (SQLType.default cls args w).2) ∧
  (∀ cls c, kept (SQLType.comment cls c w).2) ∧
  (∀ tf tt_, kept (SQLTypeEnv.set_type_alias tf tt_ w).2) ∧
  (∀ name bases ns ann, kept (declare_class name bases ns ann w).2).
Proof.
  intros Hwf%wfb_wf Hrec%recordedb_recorded kept. subst kept. cbv beta.
  split; [|split; [|split; [|split; [|split]]]].
  - intros k. destruct (derive depth k w) as [r w'] eqn:Hrun. cbn [snd].
    destruct (derive_spec _ _ _ _ _ Hwf Hrun) as [Hstep _].
    split; [by apply wf_wfb; destruct Hstep|].
    by eapply recorded_recordedb, recorded_derive.
  - intros t ens. destruct (SQLTypeEnv.actual_type depth t ens w) as [r w'] eqn:Hrun.
    cbn [snd]. destruct (actual_type_ok depth t ens w r w' Hwf Hrun) as [Hstep _].
    split; [by apply wf_wfb; destruct Hstep|].
    by eapply recorded_recordedb, recorded_actual_type.
  - intros cls args. destruct (SQLType.default cls args w) as [r w'] eqn:Hrun. cbn [snd].
    destruct (default_spec _ _ _ _ _ Hwf Hrun) as (Hwf' & Hh & _).
    split; [by apply wf_wfb|]. apply recorded_recordedb.
    apply (recorded_same_heap w); [done| |done].
    unfold SQLType.default in Hrun.
    destruct (negb _); [by injection Hrun as _ <-|].
    destruct args as [|? [|??]]; by injection Hrun as _ <-.
  - intros cls c. destruct (SQLType.comment cls c w) as [r w'] eqn:Hrun. cbn [snd].
    destruct (comment_spec _ _ _ _ _ Hwf Hrun) as (Hwf' & Hh & _).
    split; [by apply wf_wfb|]. apply recorded_recordedb.
    apply (recorded_same_heap w); [done| |done].
    unfold SQLType.comment in Hrun. destruct (negb _); by injection Hrun as _ <-.
  - intros tf tt_. destruct (SQLTypeEnv.set_type_alias tf tt_ w) as [r w'] eqn:Hrun.
    cbn [snd]. destruct (set_type_alias_spec _ _ _ _ _ Hwf Hrun) as (Hwf' & Hh & _).
    split; [by apply wf_wfb|]. apply recorded_recordedb.
    apply (recorded_same_heap w); [done| |done].
    unfold SQLTypeEnv.set_type_alias in Hrun. destruct (negb _); by injection Hrun as _ <-.
  - intros name bases ns ann.
    destruct (declare_class name bases ns ann w) as [r w'] eqn:Hrun. cbn [snd].
    pose proof (declare_class_spec _ _ _ _ _ _ _ Hwf Hrun) as Hstep.
    split; [by apply wf_wfb; destruct Hstep|]. apply recorded_recordedb.
    eapply recorded_frame; [by destruct Hwf|by destruct Hstep| |done].
    by eapply same_params_declare_class.
Qed.

Lemma X14_invariants_kept_witness :
  wfb init_world = true ∧ recordedb init_world = true ∧
  ∀ k, wfb (derive 3 k init_world).2 = true ∧ recordedb (derive 3 k init_world).2 = true.
Proof.
  split; [vm_compute; reflexivity|]. split; [vm_compute; reflexivity|].
  apply (X14_invariants_kept 3 init_world); vm_compute; reflexivity.
Defined.





(** X17. What [cls[values]] returns for a tuple of texts, new or cached:
    a proper subclass of [cls] that holds the tuple as [_TYPE_VALUES_],
    has its key, is named after [cls] and the values joined by
    underscores, and renders as [cls] does, followed in parentheses by
    the values, each between single quotes, separated by a comma and a
    space.  The values are taken as they are: quotes in them are not
    escaped, and the empty tuple gives empty parentheses. *)
Theorem X17_values_parameter (w : world) (cls : cid) (values : list string) (d : cid)
    (w' : world) :
  wfb w = true → recordedb w = true →
  SQLTypeWithValues.__class_getitem__ (cls, values) w = (Ok d, w') →
  getattr w' d "_TYPE_VALUES_" = Some (VStrTuple values) ∧
  getattr w' d "_TYPE_HAS_KEY_" = Some (VBool true) ∧
  name_of (heap w') d = name_of (heap w') cls +:+ "_vals_" +:+ join "_" values ∧
  issubclass (heap w') d cls = true ∧ d ≠ cls ∧
  ∃ s, SQLType.__type_sql__ w' cls = Ok s ∧
       SQLType.__type_sql__ w' d
       = Ok (s +:+ "(" +:+ join ", " (map (λ v, "'" +:+ v +:+ "'") values) +:+ ")").
Proof.
  intros Hwf%wfb_wf Hrec%recordedb_recorded Hrun.
  pose proof (recorded_values_getitem _ _ _ _ Hwf Hrec Hrun) as Hrec'.
  destruct (derive_spec 0 (ByValues cls values) _ _ _ Hwf Hrun) as [Hstep Hpost].
  destruct (Hpost d eq_refl) as [Hl _]. cbn [cached] in Hl.
  pose proof (step_wf _ _ Hstep) as Hwf'. pose proof (wf_heap _ Hwf') as Hok'.
  pose proof (values_cached _ _ _ _ Hwf' Hl) as Hs.
  destruct (recorded_cached_values _ _ _ _ Hrec' Hl) as (Hname & Hns).
  cbn [fst snd] in *.
  destruct (single_base_subclass _ _ _ Hok' Hs) as (Hsub & Hne & Hinh).
  rewrite <- (type_sql_bare w' cls) in Hns by by destruct Hwf'.
  destruct (SQLType.__type_sql__ w' cls) as [s|] eqn:Hcls; [|done].
  split; [by apply static_getattr; [..|rewrite (static_attr_namespace _ _ _ _ Hns)]|].
  split; [by apply static_getattr; [..|rewrite (static_attr_namespace _ _ _ _ Hns)]|].
  split; [done|]. split; [done|]. split; [done|].
  exists s. split; [done|].
  apply (type_sql_derived w' d [cls]); try done.
  - by rewrite (static_attr_namespace _ _ _ _ Hns).
  - by apply string_app_nonempty.
  - by eapply Hinh, type_sql_has_method.
  - by eapply Hinh, type_sql_final.
Qed.

Lemma X17_values_parameter_witness :
  let w := (declare_class "Enum" [Cls.Final; Cls.StringType; Cls.SQLTypeWithValues] [] []
              example_world).2 in
  let r := SQLTypeWithValues.__class_getitem__ (37, ["a"; "it's"]) w in
  r.1 = Ok 38 ∧
  getattr r.2 38 "_TYPE_VALUES_" = Some (VStrTuple ["a"; "it's"]) ∧
  name_of (heap r.2) 38 = "Enum_vals_a_it's" ∧
  SQLType.__type_sql__ r.2 38 = Ok "ENUM('a', 'it's')".
Proof.
  intros w r. split; [vm_compute; reflexivity|].
  destruct (X17_values_parameter w 37 ["a"; "it's"] 38 r.2)
    as (H1 & _ & H2 & _ & _ & s & H3 & H4); [vm_compute; reflexivity..|].
  split; [exact H1|]. split; [rewrite H2; vm_compute; reflexivity|].
  rewrite H4. vm_compute in H3. injection H3 as <-. vm_compute. reflexivity.
Defined.

(** X18. A derivation by length, by precision and scale, by values or of
    a foreign key that fails changes nothing: no class is created and
    nothing is cached, so the same call fails in the same way again. *)
Theorem X18_failed_derivation_changes_nothing (depth : nat) (k : derivation) (w : world)
    (e : exn) (w' : world) :
  wfb w = true → (∀ cls t, k ≠ ByType cls t) →
  derive depth k w = (Raise e, w') →
  w' = w ∧ cached k w = None ∧ derive depth k w' = (Raise e, w').
Proof.
  intros Hwf%wfb_wf Hk Hrun.
  assert (w' = w ∧ cached k w = None) as [-> Hmiss]; [|done].
  destruct k as [cls l|cls pr sc|cls values|cls t|cls t]; cbn [derive cached] in *.
  - by destruct (length_getitem_inv _ _ _ _ _ Hwf Hrun)
      as [(d & _ & ? & _)|[Hmiss [(e' & _ & ->)|(s & mro & _ & _ & ? & _)]]].
  - by destruct (decimal_getitem_inv _ _ _ _ _ _ Hwf Hrun)
      as [(d & _ & ? & _)|[Hmiss [(e' & _ & ->)|(mro & _ & ? & _)]]].
  - by destruct (values_getitem_inv _ _ _ _ _ Hwf Hrun)
      as [(d & _ & ? & _)|[Hmiss [(e' & _ & ->)|(s & mro & _ & _ & ? & _)]]].
  - by destruct (Hk cls t).
  - unfold ForeignTableKey.__class_getitem__ in Hrun.
    apply lru_cache_inv in Hrun
      as [(v & _ & ? & _)|[Hmiss [(e' & Hb & _)|(v & w1 & _ & ? & _)]]]; [done| |done].
    split; [|done].
    apply bind_inv in Hb as [(? & [_ ->]%try_inv & _)|(? & s1 & [_ ->]%try_inv & Hb)]; [done|].
    apply bind_inv in Hb as [(? & [? _]%gets_inv & _)|(name & s2 & [_ ->]%gets_inv & Hb)];
      [done|].
    apply bind_inv in Hb as [(? & [_ ->]%try_inv & _)|(sql & s3 & [_ ->]%try_inv & Hb)];
      [done|].
    by apply declare_class_fails in Hb.
Qed.

Lemma X18_failed_derivation_changes_nothing_witness :
  derive 0 (ByLength Cls.TextType 10) init_world = (Raise AssertionError, init_world) ∧
  cached (ByLength Cls.TextType 10) init_world = None.
Proof.
  destruct (X18_failed_derivation_changes_nothing 0 (ByLength Cls.TextType 10) init_world
              AssertionError (derive 0 (ByLength Cls.TextType 10) init_world).2)
    as (Hw & Hc & Hrun); [vm_compute; reflexivity|done|vm_compute; reflexivity|].
  split; [|exact Hc]. rewrite Hw in Hrun. exact Hrun.
Defined.



(** ** Creating values of a type *)

(** X20. Which decimal types can be instantiated.  In a well-formed
    world, for a subclass [cls] of [DecimalType], the class that
    [cls[pr, sc]] returns passes the check of [__new__] if and only if
    neither the precision nor the scale is 0: a decimal type of scale 0
    has no values, since [__new__] takes the number 0 for a number that
    is not specified. *)
Theorem X20_decimal_instantiation (w : world) (cls : cid) (pr sc : Z) (d : cid) (w' : world) :
  wfb w = true → recordedb w = true →
  issubclass (heap w) cls Cls.DecimalType = true →
  DecimalType.__class_getitem__ (cls, (pr, sc)) w = (Ok d, w') →
  SQLTypeWithKey.__new__ w' d
  = if (pr =? 0)%Z || (sc =? 0)%Z
    then Raise (RuntimeError "Precisoin and/or scale is not specified.")
    else Ok ().
Proof.
  intros Hwf%wfb_wf Hrec%recordedb_recorded Hcls Hrun.
  pose proof (recorded_decimal_getitem _ _ _ _ Hwf Hrec Hrun) as Hrec'.
  destruct (derive_spec 0 (ByPrecision cls pr sc) _ _ _ Hwf Hrun) as [Hstep Hpost].
  destruct (Hpost d eq_refl) as [Hl _]. cbn [cached] in Hl.
  pose proof (step_wf _ _ Hstep) as Hwf'. pose proof (wf_heap _ Hwf') as Hok'.
  pose proof (decimal_cached _ _ _ _ _ Hwf' Hl) as Hs.
  destruct (recorded_cached_decimal _ _ _ _ _ Hrec' Hl) as (Hns & Hc & Hname).
  cbn [fst snd] in *.
  pose proof (keyed_not_init _ _ _ Hwf' Hns) as Hd.
  unfold SQLTypeWithKey.__new__. rewrite (mro_single _ _ _ Hok' Hs).
  cbn [SQLTypeWithKey.new_from].
  rewrite !decide_False by (intros ->; vm_compute in Hd; lia).
  apply new_from_decimal.
  - by apply static_getattr; [..|rewrite (static_attr_namespace _ _ _ _ Hns)].
  - by apply static_getattr; [..|rewrite (static_attr_namespace _ _ _ _ Hns)].
  - by apply static_getattr; [..|rewrite (static_attr_namespace _ _ _ _ Hns)].
  - rewrite <- (issubclass_extends (heap w) (heap w')) in Hcls;
      [|by destruct Hstep|by eapply issubclass_lt].
    by apply bool_decide_eq_true in Hcls.
Qed.

Lemma X20_decimal_instantiation_witness :
  let w := (declare_class "Decimal" [Cls.Final; Cls.DecimalType] [] [] example_world).2 in
  let r := DecimalType.__class_getitem__ (37, (10, 0)%Z) w in
  r.1 = Ok 38 ∧
  SQLTypeWithKey.__new__ r.2 38
  = Raise (RuntimeError "Precisoin and/or scale is not specified.").
Proof.
  intros w r. split; [vm_compute; reflexivity|].
  apply (X20_decimal_instantiation w 37 10 0 38 r.2); vm_compute; reflexivity.
Defined.

(** X21. The check of the key when a value is created.  In a well-formed
    world, leaving the decimal types aside: the class that [cls[l]] or
    [cls[values]] returns passes the checks of [__new__]; a subclass of
    [SQLTypeWithKey] whose [_TYPE_HAS_KEY_] is [False], as [CharType] or
    [NotNull] themselves, fails with "Generic type key is not specified.";
    a class that is no subclass of [SQLTypeWithKey], as [Int] or
    [TextType], passes without a key. *)
Theorem X21_key_check (w : world) (cls : cid) :
  wfb w = true → recordedb w = true →
  issubclass (heap w) cls Cls.DecimalType = false →
  (∀ l d w', SQLTypeWithOptionalLength.__class_getitem__ (cls, l) w = (Ok d, w') →
             SQLTypeWithKey.__new__ w' d = Ok ()) ∧
  (∀ values d w', SQLTypeWithValues.__class_getitem__ (cls, values) w = (Ok d, w') →
                  SQLTypeWithKey.__new__ w' d = Ok ()) ∧
  (issubclass (heap w) cls Cls.SQLTypeWithKey = true →
   getattr w cls "_TYPE_HAS_KEY_" = Some (VBool false) →
   SQLTypeWithKey.__new__ w cls = Raise (RuntimeError "Generic type key is not specified.")) ∧
  (issubclass (heap w) cls Cls.SQLTypeWithKey = false → SQLTypeWithKey.__new__ w cls = Ok ()).
Proof.
  intros Hwf%wfb_wf Hrec%recordedb_recorded Hdec.
  split; [|split; [|split]].
  - intros l d w' Hrun.
    pose proof (recorded_length_getitem _ _ _ _ Hwf Hrec Hrun) as Hrec'.
    destruct (length_getitem_spec _ _ _ _ _ Hwf Hrun) as [Hstep Hpost].
    destruct (Hpost d eq_refl) as [Hl _].
    pose proof (step_wf _ _ Hstep) as Hwf'. pose proof (wf_heap _ Hwf') as Hok'.
    pose proof (length_cached _ _ _ _ Hwf' Hl) as Hs.
    destruct (recorded_cached_length _ _ _ _ Hrec' Hl) as (Hname & Hns). cbn [fst snd] in *.
    destruct (SQLType.__type_sql__ (bare (heap w')) cls) as [s|] eqn:Hsql; [|done].
    pose proof (keyed_not_init _ _ _ Hwf' Hns) as Hd.
    unfold SQLTypeWithKey.__new__. rewrite (mro_single _ _ _ Hok' Hs).
    apply new_from_keyed.
    + by apply static_getattr; [..|rewrite (static_attr_namespace _ _ _ _ Hns)].
    + apply not_elem_of_cons. split; [intros <-; vm_compute in Hd; lia|].
      assert (cls < length (heap w)) as Hc.
      { apply type_sql_ok_lt in Hsql. cbn [bare heap] in Hsql.
        destruct (decide (cls < length (heap w))) as [|Hge]; [done|]. exfalso.
        pose proof (subclass_shape_bases_lt _ _ [cls] cls Hok' Hs) as Hlt.
        destruct (length_getitem_inv _ _ _ _ _ Hwf Hrun)
          as [(d' & Hl' & [= <-] & _)|[_ [(e & ? & _)|(s' & mro & Hs' & Hc' & _)]]];
          [|done|lia].
        pose proof (length_cached _ _ _ _ Hwf Hl') as Hs0.
        pose proof (subclass_shape_bases_lt _ _ [cls] cls (wf_heap _ Hwf) Hs0) as Hlt0.
        pose proof (subclass_shape_lt _ _ _ Hs0). specialize (Hlt0 ltac:(left)). lia. }
      rewrite <- (issubclass_extends (heap w) (heap w')) in Hdec; [|by destruct Hstep|done].
      by apply bool_decide_eq_false in Hdec.
  - intros values d w' Hrun.
    pose proof (recorded_values_getitem _ _ _ _ Hwf Hrec Hrun) as Hrec'.
    destruct (derive_spec 0 (ByValues cls values) _ _ _ Hwf Hrun) as [Hstep Hpost].
    destruct (Hpost d eq_refl) as [Hl _]. cbn [cached] in Hl.
    pose proof (step_wf _ _ Hstep) as Hwf'. pose proof (wf_heap _ Hwf') as Hok'.
    pose proof (values_cached _ _ _ _ Hwf' Hl) as Hs.
    destruct (recorded_cached_values _ _ _ _ Hrec' Hl) as (Hname & Hns). cbn [fst snd] in *.
    destruct (SQLType.__type_sql__ (bare (heap w')) cls) as [s|] eqn:Hsql; [|done].
    pose proof (keyed_not_init _ _ _ Hwf' Hns) as Hd.
    unfold SQLTypeWithKey.__new__. rewrite (mro_single _ _ _ Hok' Hs).
    apply new_from_keyed.
    + by apply static_getattr; [..|rewrite (static_attr_namespace _ _ _ _ Hns)].
    + apply not_elem_of_cons. split; [intros <-; vm_compute in Hd; lia|].
      assert (cls < length (heap w)) as Hc.
      { destruct (decide (cls < length (heap w))) as [|Hge]; [done|]. exfalso.
        destruct (values_getitem_inv _ _ _ _ _ Hwf Hrun)
          as [(d' & Hl' & [= <-] & _)|[_ [(e & ? & _)|(s' & mro & Hs' & Hc' & _)]]];
          [|done|lia].
        pose proof (values_cached _ _ _ _ Hwf Hl') as Hs0.
        pose proof (subclass_shape_bases_lt _ _ [cls] cls (wf_heap _ Hwf) Hs0) as Hlt0.
        pose proof (subclass_shape_lt _ _ _ Hs0). specialize (Hlt0 ltac:(left)). lia. }
      rewrite <- (issubclass_extends (heap w) (heap w')) in Hdec; [|by destruct Hstep|done].
      by apply bool_decide_eq_false in Hdec.
  - intros Hkey Hattr. unfold SQLTypeWithKey.__new__. apply new_from_generic; [done|..].
    + by apply bool_decide_eq_false in Hdec.
    + by apply bool_decide_eq_true in Hkey.
  - intros Hkey. unfold SQLTypeWithKey.__new__. apply new_from_plain.
    + by apply bool_decide_eq_false in Hdec.
    + by apply bool_decide_eq_false in Hkey.
Qed.

Lemma X21_key_check_witness :
  SQLTypeWithKey.__new__ init_world Cls.CharType
  = Raise (RuntimeError "Generic type key is not specified.").
Proof.
  apply (X21_key_check init_world Cls.CharType); vm_compute; reflexivity.
Defined.

(** ** Validating values *)

(** X22. [validate_value] on the integer types of the source, in every
    well-formed world.  [Int] accepts the integers from -2^31 to 2^31 - 1
    and the booleans, which are integers, and rejects every other value
    with [False].  [UnsignedIntegerType], which sets a minimum and no
    maximum, rejects the negative integers and fails with a [TypeError]
    for every other integer, and [IntegerType], which sets neither, fails
    for every integer: the comparison with [None] is not defined.
    [NumericType] and [DatetimeType] name no Python type: validation
    fails with [AssertionError]. *)
Theorem X22_validate_integers (w : world) (v : pyval) :
  wfb w = true →
  Validate.validate_value w Cls.Int v
  = Ok (VBool (match as_int v with
               | Some z => (- 2 ^ 31 <=? z)%Z && (z <=? 2 ^ 31 - 1)%Z
               | None => false
               end)) ∧
  Validate.validate_value w Cls.UnsignedIntegerType v
  = match as_int v with
    | Some z =>
        if (0 <=? z)%Z
        then Raise (TypeError ("'<=' not supported between instances of '" +:+ type_name v
                               +:+ "' and 'NoneType'"))
        else Ok (VBool false)
    | None => Ok (VBool false)
    end ∧
  Validate.validate_value w Cls.IntegerType v
  = match as_int v with
    | Some z => Raise (TypeError ("'<=' not supported between instances of 'NoneType' and '"
                                  +:+ type_name v +:+ "'"))
    | None => Ok (VBool false)
    end ∧
  Validate.validate_value w Cls.NumericType v = Raise AssertionError ∧
  Validate.validate_value w Cls.DatetimeType v = Raise AssertionError.
Proof.
  intros Hwf%wfb_wf. rewrite !(validate_init w) by (done || (vm_compute; lia)).
  split; [|split; [|split; [|split]]]; [| | |done..].
  - destruct v as [|b|z| | |]; try done.
    + by destruct b.
    + unfold Validate.validate_value, Validate._validate_value, Validate.range.
      change (SQLType.has_method init_world Cls.Int) with true.
      change (Validate.attr init_world Cls.Int "_PY_TYPE_") with (Ok (VClass Cls.int)).
      change (resolve_validate_value (mro_of (heap init_world) Cls.Int))
        with (Some ValidateRange).
      change (Validate.attr init_world Cls.Int "_MIN_VALUE_") with (Ok (VInt (- 2 ^ 31))).
      change (Validate.attr init_world Cls.Int "_MAX_VALUE_") with (Ok (VInt (2 ^ 31 - 1))).
      cbn [negb isinstance as_int py_le].
      rewrite bool_decide_eq_true_2 by by left.
      by destruct (- 2 ^ 31 <=? z)%Z.
  - destruct v as [|b|z| | |]; done.
  - destruct v as [|b|z| | |]; done.
Qed.

Lemma X22_validate_integers_witness :
  Validate.validate_value init_world Cls.Int (VInt (2 ^ 31)) = Ok (VBool false) ∧
  Validate.validate_value init_world Cls.Int (VInt (- 2 ^ 31)) = Ok (VBool true) ∧
  Validate.validate_value init_world Cls.UnsignedIntegerType (VInt 5)
  = Raise (TypeError "'<=' not supported between instances of 'int' and 'NoneType'").
Proof.
  split; [|split].
  - apply (proj1 (X22_validate_integers init_world (VInt (2 ^ 31)) eq_refl)).
  - apply (proj1 (X22_validate_integers init_world (VInt (- 2 ^ 31)) eq_refl)).
  - apply (proj1 (proj2 (X22_validate_integers init_world (VInt 5) eq_refl))).
Defined.



(** ** The columns of a record class *)

(** X24. [_raw_column_types], on its first call for a class.  The type
    hints are those of the class and of its base classes, in the order of
    declaration; those whose name starts with an underscore are passed
    over, whatever their type.  If the type of every other one is
    compatible, the result holds these hints, each name once, in their
    order; the types of the world are not touched and the result is
    cached.  Else the call fails with a [RuntimeError] that names the
    first hint, in that order, whose type is not compatible, and nothing
    is cached.  (The message of the source also holds the type.) *)
Theorem X24_raw_column_types (cls : cid) (r : rworld) :
  let w := types r in
  let hints := get_type_hints (heap w) cls in
  let ok (h : string * pytype) :=
    is_private h.1 = false → SQLTypeEnv.is_compatible_type w h.2 = true in
  lru.lookup cls (cache_raw_column_types r) = None →
  (Forall ok hints →
   let cols := List.filter (λ h, negb (is_private h.1)) hints in
   ∃ r', RecordCls._raw_column_types cls r = (Ok cols, r') ∧ types r' = w ∧
         NoDup cols.*1 ∧
         lru.lookup cls (cache_raw_column_types r') = Some cols) ∧
  (∀ h1 name t h2,
     hints = h1 ++ (name, t) :: h2 → Forall ok h1 →
     is_private name = false → SQLTypeEnv.is_compatible_type w t = false →
     RecordCls._raw_column_types cls r
     = (Raise (RuntimeError ("Type of column `" +:+ name +:+ "` is not compatible.")), r)).
Proof.
  intros w hints ok Hmiss. unfold RecordCls._raw_column_types, lru_cache. rewrite Hmiss.
  unfold try. fold w. fold hints. split.
  - intros Hall. set (cols := List.filter (λ h : string * pytype, negb (is_private h.1)) hints).
    rewrite (raw_column_types_loop_ok w hints []); [|apply get_type_hints_NoDup|done].
    cbn [app]. fold cols. eexists. split; [reflexivity|]. split; [done|]. split.
    + apply filter_fst_NoDup, get_type_hints_NoDup.
    + cbn. apply lru_lookup_store. by rewrite Hmiss.
  - intros h1 name t h2 Hh Hall Hp Ht. by rewrite Hh, raw_column_types_loop_fails.
Qed.

Lemma X24_raw_column_types_witness :
  ∃ r', RecordCls._raw_column_types Ex.Graduate example_rworld
        = (Ok [("age", TClass Cls.Int); ("name", TClass Ex.Text); ("thesis", TClass Ex.Text)],
           r') ∧
        types r' = example_world.
Proof.
  destruct (proj1 (X24_raw_column_types Ex.Graduate example_rworld eq_refl))
    as (r' & Hrun & Ht & _).
  - vm_compute. repeat constructor; done.
  - exists r'. split; [exact Hrun|exact Ht].
Defined.

(** ** Connections *)

(** X25. Closing a connection, whatever the library answers.  [close] on
    an open connection makes one call to the library, [close] of that
    connection; if this call raises, [close] raises the same and the
    connection object is as it was, still open; if it returns, the
    connection object has no connection any more.  From then on another
    [close] (or [__exit__]) returns without a call to the library, and
    [commit] and [cursor] fail with [AttributeError] without a call to the
    library either.  The two flags of the object never change. *)
Theorem X25_close_once (respond : list lib_call → lib_call → result nat) (s : conn_state) :
  let close := MySQLConnection.close respond in
  let r := close s in
  match cnx (conn s) with
  | None => r = (Ok (), s)
  | Some c =>
      lib_calls r.2 = lib_calls s ++ [LibClose c] ∧
      cursor_dict (conn r.2) = cursor_dict (conn s) ∧
      cursor_ntpl (conn r.2) = cursor_ntpl (conn s) ∧
      match r.1 with
      | Ok _ => (∃ x, respond (lib_calls s) (LibClose c) = Ok x) ∧ cnx (conn r.2) = None
      | Raise e => respond (lib_calls s) (LibClose c) = Raise e ∧ conn r.2 = conn s
      end
  end ∧
  (r.1 = Ok () →
   close r.2 = (Ok (), r.2) ∧
   MySQLConnection.__exit__ respond r.2 = (Ok (), r.2) ∧
   MySQLConnection.commit respond r.2 = (Raise AttributeError, r.2) ∧
   ∀ args kwargs, MySQLConnection.cursor respond args kwargs r.2 = (Raise AttributeError, r.2)).
Proof.
  intros close r. subst r close. unfold MySQLConnection.__exit__, MySQLConnection.close.
  destruct (cnx (conn s)) as [c|] eqn:Hc.
  - unfold MySQLConnection.library.
    destruct (respond (lib_calls s) (LibClose c)) as [x|e] eqn:Hr; cbn.
    + split; [by eauto 10|]. intros _. by repeat split.
    + split; [done|]. by intros [=].
  - cbn. split; [done|]. intros _. rewrite Hc.
    unfold MySQLConnection.commit, MySQLConnection.cursor, MySQLConnection.with_cnx, bind, gets.
    cbn. rewrite Hc. by repeat split.
Qed.

(** X26. The flags of a connection decide the keyword arguments of its
    cursors.  On an open connection, [cursor] makes one call to the
    library, [cursor] of that connection, and returns or raises what this
    call does; the connection object stays as it is.  The call has the
    positional arguments as given.  Among its keyword arguments,
    [dictionary] is [True] if the connection was made with a true
    [dictionary] flag, whatever the caller gives, and else as the caller
    gives it; so for [named_tuple]; the other keyword arguments are as
    given. *)
Theorem X26_cursor_flags (respond : list lib_call → lib_call → result nat)
    (s : conn_state) (c : nat) (args : list pyval) (kwargs : list (string * pyval)) :
  cnx (conn s) = Some c →
  ∃ kwargs',
    MySQLConnection.cursor respond args kwargs s
    = (respond (lib_calls s) (LibCursor c args kwargs'),
       mkConnState (conn s) (lib_calls s ++ [LibCursor c args kwargs'])) ∧
    assoc "dictionary" kwargs'
    = (if truthy (cursor_dict (conn s)) then Some (VBool true)
       else assoc "dictionary" kwargs) ∧
    assoc "named_tuple" kwargs'
    = (if truthy (cursor_ntpl (conn s)) then Some (VBool true)
       else assoc "named_tuple" kwargs) ∧
    (∀ k, k ≠ "dictionary" → k ≠ "named_tuple" → assoc k kwargs' = assoc k kwargs) ∧
    (truthy (cursor_dict (conn s)) = false → truthy (cursor_ntpl (conn s)) = false →
     kwargs' = kwargs).
Proof.
  intros Hc. unfold MySQLConnection.cursor, MySQLConnection.with_cnx, bind, gets.
  rewrite Hc. unfold MySQLConnection.library.
  assert (∀ k n : string, k ≠ n → String.eqb n k = false) as Hneq.
  { intros k n Hk. apply String.eqb_neq. congruence. }
  destruct (truthy (cursor_dict (conn s))), (truthy (cursor_ntpl (conn s)));
    (eexists; split; [reflexivity|]); rewrite ?assoc_dict_set;
    (split; [done|]); (split; [done|]); (split; [|done]);
    intros k Hk1 Hk2; rewrite ?assoc_dict_set, ?(Hneq k) by done; done.
Qed.

Lemma X26_cursor_flags_witness :
  let s := mkConnState (mkMySQLConnection (Some 1) (VBool true) (VBool false)) [] in
  ∃ kwargs',
    MySQLConnection.cursor (λ _ _, Ok 7) [] [("dictionary", VBool false); ("buffered", VBool true)] s
    = (Ok 7, mkConnState (conn s) [LibCursor 1 [] kwargs']) ∧
    assoc "dictionary" kwargs' = Some (VBool true) ∧
    assoc "buffered" kwargs' = Some (VBool true).
Proof.
  intros s.
  destruct (X26_cursor_flags (λ _ _, Ok 7) s 1 []
              [("dictionary", VBool false); ("buffered", VBool true)] eq_refl)
    as (kwargs' & Hrun & Hd & _ & Hk & _).
  exists kwargs'. split; [exact Hrun|]. split; [exact Hd|].
  rewrite Hk; [reflexivity|done..].
Defined.


